(** * ifpa-health: the health-score and forecast engines

    A shallow embedding of the two pure engines of the repository
    ([src/lib/health-score.ts] and the forecast module) and of the calibration
    route, together with the properties their specification states, and of
    the code around them: the add-observation route, the forecaster that
    runs the forecast engine, and the breakdown component's choice of the
    top influencer.

    Numbers.  A JavaScript [number] that the engines compute with is modelled
    as an exact rational ([Q]): the arithmetic is the source's, the binary64
    rounding is not represented.  The one non-finite value the health-score
    engine can produce from finite data, [NaN] (reading a missing property
    gives [undefined], and [undefined * w] is [NaN]), is kept explicit in the
    type [number].  [Math.sqrt] is not a rational function and is a parameter
    of the forecast section. *)

From Stdlib Require Import QArith Qround Qabs Lqa Lia ZArith.
From stdpp Require Import gmap strings list sorting.

Local Open Scope Q_scope.

(** ** JavaScript number primitives on finite values *)

Module JS.

Definition Math_min (a b : Q) : Q := if Qle_bool a b then a else b.
Definition Math_max (a b : Q) : Q := if Qle_bool a b then b else a.

(** [Math.round]: nearest integer, ties towards +infinity. *)
Definition Math_round (x : Q) : Q := inject_Z (Qfloor (x + (1 # 2))).

(** [function clamp(value, min = 0, max = 100)] *)
Definition clamp (value : Q) : Q := Math_max 0 (Math_min 100 value).

(** [function round2(value)] *)
Definition round2 (value : Q) : Q := Math_round (value * 100) / 100.

(** [values.reduce((sum, v) => sum + v, 0)] *)
Definition sum (values : list Q) : Q := fold_left Qplus values 0.

(** [arr.length] as a number. *)
Definition len {A} (l : list A) : Q := inject_Z (Z.of_nat (length l)).

(** [arr.slice(0, n)] for an integral [n]: a negative [n] counts from the
    end of the array. *)
Definition slice0 {A} (n : Z) (l : list A) : list A :=
  if (n <? 0)%Z then take (length l - Z.to_nat (- n)) l
  else take (Z.to_nat n) l.

(** Stable sort by a comparator, as [Array.prototype.sort(cmp)]: an element
    stays in front of the ones it does not compare greater than. *)
Fixpoint insert_by {A} (cmp : A -> A -> Q) (x : A) (l : list A) : list A :=
  match l with
  | [] => [x]
  | y :: r => if Qle_bool (cmp x y) 0 then x :: y :: r
              else y :: insert_by cmp x r
  end.

Fixpoint sort_by {A} (cmp : A -> A -> Q) (l : list A) : list A :=
  match l with
  | [] => []
  | x :: r => insert_by cmp x (sort_by cmp r)
  end.

End JS.

(** ** Numbers that may be [NaN] *)

Module Number.

Inductive number : Type :=
| Fin (q : Q)
| NaN.

(** Reading a property of an object gives [undefined] when the key is
    missing; in arithmetic [undefined] converts to [NaN]. *)
Definition ToNumber (v : option Q) : number :=
  match v with Some q => Fin q | None => NaN end.

Definition lift1 (f : Q -> Q) (a : number) : number :=
  match a with Fin x => Fin (f x) | NaN => NaN end.

Definition lift2 (f : Q -> Q -> Q) (a b : number) : number :=
  match a, b with Fin x, Fin y => Fin (f x y) | _, _ => NaN end.

Definition add : number -> number -> number := lift2 Qplus.
Definition sub : number -> number -> number := lift2 Qminus.
Definition mul : number -> number -> number := lift2 Qmult.
(** Division; the source only divides finite values under a guard that
    makes the divisor nonzero. *)
Definition div : number -> number -> number := lift2 Qdiv.
Definition Math_abs : number -> number := lift1 Qabs.
Definition Math_min : number -> number -> number := lift2 JS.Math_min.
Definition Math_max : number -> number -> number := lift2 JS.Math_max.
Definition clamp : number -> number := lift1 JS.clamp.
Definition round2 : number -> number := lift1 JS.round2.

(** The value of a finite number. *)
Definition fin_value (a : number) : Q :=
  match a with Fin q => q | NaN => 0 end.

(** Comparisons with [NaN] are false. *)
Definition gtb (a b : number) : bool :=
  match a, b with Fin x, Fin y => negb (Qle_bool x y) | _, _ => false end.
Definition geb (a b : number) : bool :=
  match a, b with Fin x, Fin y => Qle_bool y x | _, _ => false end.

(** A number is in the closed range [lo, hi]; [NaN] is in no range. *)
Definition in_range (lo hi : Q) (a : number) : Prop :=
  match a with Fin x => lo <= x /\ x <= hi | NaN => False end.

End Number.

(** ** Plain objects with string keys, in insertion order

    (JavaScript lists keys that are array indices first; the engine's keys
    are component names, and the model keeps plain insertion order.) *)

Module Obj.

Definition t (V : Type) : Type := list (string * V).

Fixpoint get {V} (o : t V) (k : string) : option V :=
  match o with
  | [] => None
  | (k', v) :: r => if String.eqb k k' then Some v else get r k
  end.

(** [o[k] = v]: an existing key keeps its place, a new key goes last. *)
Fixpoint set {V} (k : string) (v : V) (o : t V) : t V :=
  match o with
  | [] => [(k, v)]
  | (k', v') :: r =>
      if String.eqb k k' then (k, v) :: r else (k', v') :: set k v r
  end.

(** [{ ...a, ...b }]; spreading [undefined] adds nothing. *)
Definition spread {V} (a : t V) (b : option (t V)) : t V :=
  match b with
  | None => a
  | Some b => fold_left (fun acc kv => set (fst kv) (snd kv) acc) b a
  end.

Definition keys {V} (o : t V) : list string := map fst o.
Definition values {V} (o : t V) : list V := map snd o.

End Obj.

(** ** The health-score engine ([src/lib/health-score.ts]) *)

Module HealthScore.
Import Number.

Inductive Band : Type := thriving | healthy | stable | concerning | critical.

(** The [label] of a component is formatted text and is left out. *)
Record ComponentScore : Type := {
  score : number;
  weight : number;
  raw_value : number;
}.

Record HealthScoreResult : Type := {
  composite_score : number;
  band : Band;
  components : Obj.t ComponentScore;
  sensitivity : Obj.t number;
  methodology_version : Z;
}.

Record HealthScoreInput : Type := {
  tournament_yoy_pct : Q;
  entry_yoy_pct : Q;
  avg_attendance : Q;
  retention_rate : Q;
  monthly_momentum : list Q;
  us_concentration_pct : Q;
  country_count : Q;
  youth_pct : Q;
}.

Definition Breakpoints : Type := list (Q * Q).

Definition DEFAULT_WEIGHTS : Obj.t Q :=
  [("growth", 0.25); ("attendance", 0.20); ("retention", 0.20);
   ("momentum", 0.15); ("diversity", 0.10); ("youth", 0.10)]%string.

Definition DEFAULT_BREAKPOINTS : Obj.t Breakpoints :=
  [("growth", [(-20, 0); (0, 50); (20, 100)]);
   ("attendance", [(15, 0); (20, 55); (23, 85); (25, 100)]);
   ("retention", [(20, 0); (30, 50); (42, 85); (50, 100)]);
   ("momentum", [(-15, 0); (0, 50); (15, 100)]);
   ("diversity", [(50, 100); (70, 50); (90, 0)]);
   ("youth", [(5, 0); (13, 50); (30, 100)])]%string.

(** The [for] loop of [interpolate] over consecutive pairs; [None] when no
    pair brackets the value. *)
Fixpoint interpolate_loop (value : Q) (breakpoints : Breakpoints) : option Q :=
  match breakpoints with
  | (x0, y0) :: (((x1, y1) :: _) as rest) =>
      if Qle_bool x0 value && Qle_bool value x1 then
        let t := (value - x0) / (x1 - x0) in
        Some (JS.clamp (y0 + t * (y1 - y0)))
      else interpolate_loop value rest
  | _ => None
  end.

Definition interpolate (value : Q) (breakpoints : Breakpoints) : Q :=
  match breakpoints with
  | [] => 0
  | first :: _ =>
      if Qle_bool value (fst first) then JS.clamp (snd first)
      else
        let final := List.last breakpoints first in
        if Qle_bool (fst final) value then JS.clamp (snd final)
        else match interpolate_loop value breakpoints with
             | Some r => r
             | None => JS.clamp (snd final)
             end
  end.

(** Breakpoints sorted strictly ascending by input value. *)
Fixpoint ascending (breakpoints : Breakpoints) : bool :=
  match breakpoints with
  | (x0, _) :: (((x1, _) :: _) as rest) => negb (Qle_bool x1 x0) && ascending rest
  | _ => true
  end.

(** The point of the segment from [(x0, y0)] to [(x1, y1)] above [value]. *)
Definition lerp (x0 y0 x1 y1 value : Q) : Q :=
  y0 + (value - x0) / (x1 - x0) * (y1 - y0).

Definition getBand (score : number) : Band :=
  if geb score (Fin 80) then thriving
  else if geb score (Fin 65) then healthy
  else if geb score (Fin 50) then stable
  else if geb score (Fin 35) then concerning
  else critical.

(** The six components the engine computes a score for. *)
Definition component_names : list string :=
  ["growth"; "attendance"; "retention"; "momentum"; "diversity"; "youth"]%string.

(** A delta of the sensitivity analysis, [Math.abs(upper - lower)]. *)
Definition delta_of (upper lower : number) : number := Math_abs (sub upper lower).

(** The sum of [score k * w] over the entries [(k, w)] of a weight map. *)
Fixpoint weighted_sum (score : string -> Q) (weights : Obj.t Q) : Q :=
  match weights with
  | [] => 0
  | (k, w) :: rest => score k * w + weighted_sum score rest
  end.

(** [breakpoints.growth] and the like: the merged map always holds the six
    default keys, so the empty list below is never used. *)
Definition bp (breakpoints : Obj.t Breakpoints) (k : string) : Breakpoints :=
  match Obj.get breakpoints k with Some b => b | None => [] end.

Section Compute.
Variable input : HealthScoreInput.
Variable customWeights : option (Obj.t Q).
Variable customBreakpoints : option (Obj.t Breakpoints).

Definition weights : Obj.t Q := Obj.spread DEFAULT_WEIGHTS customWeights.
Definition breakpoints : Obj.t Breakpoints :=
  Obj.spread DEFAULT_BREAKPOINTS customBreakpoints.

Definition growthRaw : Q :=
  (tournament_yoy_pct input + entry_yoy_pct input) / 2.
Definition growthScore : Q := interpolate growthRaw (bp breakpoints "growth").

Definition attendanceRaw : Q := avg_attendance input.
Definition attendanceScore : Q :=
  interpolate attendanceRaw (bp breakpoints "attendance").

Definition retentionRaw : Q := retention_rate input.
Definition retentionScore : Q :=
  interpolate retentionRaw (bp breakpoints "retention").

Definition momentumRaw : Q :=
  if (0 <? length (monthly_momentum input))%nat
  then JS.sum (monthly_momentum input)
       / JS.len (monthly_momentum input)
  else 0.
Definition momentumScore : Q :=
  interpolate momentumRaw (bp breakpoints "momentum").

Definition usScore : Q :=
  interpolate (us_concentration_pct input) (bp breakpoints "diversity").
Definition countryScore : Q := JS.Math_min 100 (country_count input * 3.33).
Definition diversityRaw : Q := 0.7 * usScore + 0.3 * countryScore.
Definition diversityScore : Q := JS.clamp diversityRaw.

Definition youthRaw : Q := youth_pct input.
Definition youthScore : Q := interpolate youthRaw (bp breakpoints "youth").

Definition componentScores : Obj.t Q :=
  [("growth", growthScore); ("attendance", attendanceScore);
   ("retention", retentionScore); ("momentum", momentumScore);
   ("diversity", diversityScore); ("youth", youthScore)]%string.

Definition componentRawValues : Obj.t Q :=
  [("growth", growthRaw); ("attendance", attendanceRaw);
   ("retention", retentionRaw); ("momentum", momentumRaw);
   ("diversity", diversityRaw); ("youth", youthRaw)]%string.

(** [componentScores[k]] and [weights[k]] as operands of arithmetic. *)
Definition scoreOf (k : string) : number := ToNumber (Obj.get componentScores k).
Definition weightOf (k : string) : number := ToNumber (Obj.get weights k).

(** The score of a component as a finite value (0 for a key without
    one; see [scoreOf] for what the engine then computes with). *)
Definition componentScore (k : string) : Q :=
  default 0 (Obj.get componentScores k).

(** The finite value of [weights[k]]. *)
Definition weightValue (k : string) : Q := default 0 (Obj.get weights k).

Definition components_map : Obj.t ComponentScore :=
  map (fun key =>
         (key, {| score := round2 (scoreOf key);
                  weight := weightOf key;
                  raw_value := round2 (ToNumber (Obj.get componentRawValues key)) |}))
      (Obj.keys weights).

Definition compositeScore : number :=
  fold_left (fun sum key => add sum (mul (scoreOf key) (weightOf key)))
            (Obj.keys weights) (Fin 0).

Definition upper (key : string) : number :=
  fold_left
    (fun sum k =>
       add sum (mul (if String.eqb k key
                     then Math_min (Fin 100) (add (scoreOf k) (Fin 10))
                     else scoreOf k)
                    (weightOf k)))
    (Obj.keys weights) (Fin 0).

Definition lower (key : string) : number :=
  fold_left
    (fun sum k =>
       add sum (mul (if String.eqb k key
                     then Math_max (Fin 0) (sub (scoreOf k) (Fin 10))
                     else scoreOf k)
                    (weightOf k)))
    (Obj.keys weights) (Fin 0).

Definition deltas : Obj.t number :=
  map (fun key => (key, delta_of (upper key) (lower key)))
      (Obj.keys weights).

Definition totalDelta : number :=
  fold_left (fun sum d => add sum d) (Obj.values deltas) (Fin 0).

Definition sensitivity_map : Obj.t number :=
  map (fun key =>
         (key,
          if gtb totalDelta (Fin 0)
          then round2 (mul (div (match Obj.get deltas key with
                                 | Some d => d
                                 | None => NaN
                                 end) totalDelta) (Fin 100))
          else Fin 0))
      (Obj.keys weights).

Definition computeHealthScore (methodologyVersion : option Z) : HealthScoreResult :=
  {| composite_score := round2 (clamp compositeScore);
     band := getBand compositeScore;
     components := components_map;
     sensitivity := sensitivity_map;
     methodology_version := default 1%Z methodologyVersion |}.

End Compute.

(** Sample data: the metrics of the specification's second scenario, a
    weight override that pushes the weighted sum above 100, one that names a
    key outside the six components, and one that sets every weight to 0 and
    adds such a key. *)
Definition sample_input : HealthScoreInput :=
  {| tournament_yoy_pct := 10; entry_yoy_pct := 10; avg_attendance := 23;
     retention_rate := 42; monthly_momentum := [5; 5; 5];
     us_concentration_pct := 70; country_count := 30; youth_pct := 13 |}.

Definition heavy_growth_weights : Obj.t Q := [("growth", 5)]%string.

Definition extra_key_weights : Obj.t Q := [("community", 0.5)]%string.

Definition zero_weights : Obj.t Q :=
  [("growth", 0); ("attendance", 0); ("retention", 0);
   ("momentum", 0); ("diversity", 0); ("youth", 0)]%string.

Definition zero_weights_extra_key : Obj.t Q :=
  zero_weights ++ [("community"%string, 0)].

(** Breakpoints whose outputs never decrease from one pair to the next. *)
Fixpoint nondecreasing_outputs (breakpoints : Breakpoints) : bool :=
  match breakpoints with
  | (_, y0) :: (((_, y1) :: _) as rest) => Qle_bool y0 y1 && nondecreasing_outputs rest
  | _ => true
  end.

(** The span a score can move when nudged by 10 either way. *)
Definition nudge_span (s : Q) : Q := JS.Math_min 100 (s + 10) - JS.Math_max 0 (s - 10).

(** The bands from worst to best. *)
Definition band_rank (b : Band) : nat :=
  match b with
  | critical => 0 | concerning => 1 | stable => 2 | healthy => 3 | thriving => 4
  end.

End HealthScore.

(** ** The forecast engine *)

Module AnnualData.
Record t : Type := { year : Z; tournaments : Q; entries : Q }.
End AnnualData.

Module MonthlyData.
(** [month] is 1-12. *)
Record t : Type := { year : Z; month : Z; event_count : Q }.
End MonthlyData.

Module Forecast.

Record TrendReference : Type := {
  slope : Q;
  intercept : Q;
  r_squared : Q;
  projected_value : Q;
}.

Inductive Method : Type := seasonal_ratio.

Record ForecastResult : Type := {
  target_year : Z;
  months_of_data : Z;
  projected_tournaments : Q;
  projected_entries : Q;
  ci_68_low_tournaments : Q;
  ci_68_high_tournaments : Q;
  ci_95_low_tournaments : Q;
  ci_95_high_tournaments : Q;
  ci_68_low_entries : Q;
  ci_68_high_entries : Q;
  ci_95_low_entries : Q;
  ci_95_high_entries : Q;
  method : Method;
  trend_reference : option TrendReference;
}.

Record MonthlyWeights : Type := {
  tournament_weights : list Q;
  entry_weights : list Q;
  weight_std : list Q;
}.

Inductive Metric : Type := Tournaments | Entries.

Definition metric_of (d : AnnualData.t) (metric : Metric) : Q :=
  match metric with
  | Tournaments => AnnualData.tournaments d
  | Entries => AnnualData.entries d
  end.

Definition DEFAULT_REFERENCE_YEARS : list Z := [2019; 2022; 2023; 2024; 2025]%Z.

Definition mean (values : list Q) : Q :=
  if (length values =? 0)%nat then 0 else JS.sum values / JS.len values.

(** [lookup.get(d.year)![d.month - 1] += d.event_count] on a 12-slot array;
    only slots 0..11 are kept, so a month outside 1-12 leaves them as they
    are. *)
Definition add_at (index : Z) (count : Q) (slots : list Q) : list Q :=
  if ((0 <=? index) && (index <? Z.of_nat (length slots)))%Z
  then alter (fun v => v + count) (Z.to_nat index) slots
  else slots.

(** One iteration of the loop of [buildMonthlyLookup]. *)
Definition monthlyStep (lookup : gmap Z (list Q)) (d : MonthlyData.t) : gmap Z (list Q) :=
  let lookup' :=
    match lookup !! MonthlyData.year d with
    | None => <[MonthlyData.year d := replicate 12 0]> lookup
    | Some _ => lookup
    end in
  alter (add_at (MonthlyData.month d - 1) (MonthlyData.event_count d))
        (MonthlyData.year d) lookup'.

Definition buildMonthlyLookup (monthlyData : list MonthlyData.t) : gmap Z (list Q) :=
  fold_left monthlyStep monthlyData ∅.

Definition buildAnnualLookup (annualData : list AnnualData.t) : gmap Z AnnualData.t :=
  fold_left (fun lookup d => <[AnnualData.year d := d]> lookup) annualData ∅.

(** The inner [for (let m = 0; m < 12; m++)] of [computeMonthlyWeights]:
    one fraction pushed on each month's list. *)
Definition push_fractions (annual : AnnualData.t) (monthly : list Q)
    (fractions : list (list Q) * list (list Q)) : list (list Q) * list (list Q) :=
  fold_left
    (fun fr m =>
       let tournFrac := nth m monthly 0 / AnnualData.tournaments annual in
       let entryFrac :=
         if negb (Qle_bool (AnnualData.entries annual) 0)
         then nth m monthly 0 / AnnualData.tournaments annual
         else 0 in
       (alter (fun l => l ++ [tournFrac]) m (fst fr),
        alter (fun l => l ++ [entryFrac]) m (snd fr)))
    (seq 0 12) fractions.

(** One iteration of the loop over [referenceYears]; the state is
    [(tournamentFractions, entryFractions)]. *)
Definition referenceStep (annualByYear : gmap Z AnnualData.t)
    (monthlyByYear : gmap Z (list Q))
    (fractions : list (list Q) * list (list Q)) (year : Z)
    : list (list Q) * list (list Q) :=
  match annualByYear !! year, monthlyByYear !! year with
  | Some annual, Some monthly =>
      if Qeq_bool (AnnualData.tournaments annual) 0 then fractions
      else push_fractions annual monthly fractions
  | _, _ => fractions
  end.

Definition collect_fractions (annualData : list AnnualData.t)
    (monthlyData : list MonthlyData.t) (referenceYears : list Z)
    : list (list Q) * list (list Q) :=
  fold_left
    (referenceStep (buildAnnualLookup annualData) (buildMonthlyLookup monthlyData))
    referenceYears (replicate 12 [], replicate 12 []).

Definition backTestYears (annualData : list AnnualData.t) (targetYear : Z) : list Z :=
  filter (fun y => y ≠ 2020%Z ∧ y ≠ 2021%Z ∧ y ≠ targetYear)
         (map AnnualData.year annualData).

(** One iteration of the back-test loop; the state is
    [(tournamentRatios, entryRatios)]. *)
Definition backTestStep (annualByYear : gmap Z AnnualData.t)
    (monthlyByYear : gmap Z (list Q)) (completedMonths : Z)
    (cumulativeTournamentWeight cumulativeEntryWeight : Q)
    (ratios : list Q * list Q) (year : Z) : list Q * list Q :=
  match annualByYear !! year, monthlyByYear !! year with
  | Some annual, Some monthly =>
      if Qeq_bool (AnnualData.tournaments annual) 0 then ratios
      else
        let ytdHistorical := JS.sum (JS.slice0 completedMonths monthly) in
        if Qeq_bool ytdHistorical 0 then ratios
        else
          let projectedHistorical := ytdHistorical / cumulativeTournamentWeight in
          let ratio := AnnualData.tournaments annual / projectedHistorical in
          (fst ratios ++ [ratio],
           if negb (Qle_bool (AnnualData.entries annual) 0)
           then
             let projectedHistoricalEntries := ytdHistorical / cumulativeEntryWeight in
             let entryRatio := AnnualData.entries annual / projectedHistoricalEntries in
             snd ratios ++ [entryRatio]
           else snd ratios)
  | _, _ => ratios
  end.

(** The back-test loop of [computeForecast]. *)
Definition backTestRatios (annualData : list AnnualData.t)
    (monthlyData : list MonthlyData.t) (completedMonths : Z)
    (cumulativeTournamentWeight cumulativeEntryWeight : Q) (targetYear : Z)
    : list Q * list Q :=
  let annualByYear := buildAnnualLookup annualData in
  let monthlyByYear := buildMonthlyLookup monthlyData in
  fold_left
    (backTestStep annualByYear monthlyByYear completedMonths
       cumulativeTournamentWeight cumulativeEntryWeight)
    (backTestYears annualData targetYear) ([], []).

(** [weights.slice(0, completedMonths).reduce((sum, w) => sum + w, 0)] *)
Definition cumulativeWeight (completedMonths : Z) (weights : list Q) : Q :=
  JS.sum (JS.slice0 completedMonths weights).

(** [emptyResult] of [computeForecast]. *)
Definition emptyResult (targetYear completedMonths : Z) : ForecastResult :=
  {| target_year := targetYear;
     months_of_data := completedMonths;
     projected_tournaments := 0;
     projected_entries := 0;
     ci_68_low_tournaments := 0;
     ci_68_high_tournaments := 0;
     ci_95_low_tournaments := 0;
     ci_95_high_tournaments := 0;
     ci_68_low_entries := 0;
     ci_68_high_entries := 0;
     ci_95_low_entries := 0;
     ci_95_high_entries := 0;
     method := seasonal_ratio;
     trend_reference := None |}.

(** *** The words of the specification, for comparison with the code *)

(** The sum of the first [n] entries of a list of monthly values. *)
Fixpoint sum_first (n : nat) (l : list Q) : Q :=
  match n, l with
  | S n, x :: r => x + sum_first n r
  | _, _ => 0
  end.

(** A reference year that contributes to the weights, with its annual
    record and its twelve monthly counts: a year with an annual record, with
    at least one monthly record, and with a nonzero annual tournament total. *)
Definition contributing_point (annualData : list AnnualData.t)
    (monthlyData : list MonthlyData.t) (year : Z) : option (AnnualData.t * list Q) :=
  match buildAnnualLookup annualData !! year, buildMonthlyLookup monthlyData !! year with
  | Some annual, Some monthly =>
      if Qeq_bool (AnnualData.tournaments annual) 0 then None else Some (annual, monthly)
  | _, _ => None
  end.

Definition contributing (annualData : list AnnualData.t)
    (monthlyData : list MonthlyData.t) (referenceYears : list Z)
    : list (AnnualData.t * list Q) :=
  omap (contributing_point annualData monthlyData) referenceYears.

(** The fraction of the annual tournament total in month index [m]. *)
Definition fraction_of (m : nat) (p : AnnualData.t * list Q) : Q :=
  nth m (snd p) 0 / AnnualData.tournaments (fst p).

Definition entry_fraction_of (m : nat) (p : AnnualData.t * list Q) : Q :=
  if negb (Qle_bool (AnnualData.entries (fst p)) 0)
  then nth m (snd p) 0 / AnnualData.tournaments (fst p) else 0.

(** There is a record of [year] for the month with index [m]. *)
Definition has_month_record (monthlyData : list MonthlyData.t) (year : Z) (m : nat) : bool :=
  existsb (fun d => (MonthlyData.year d =? year)%Z
                    && (MonthlyData.month d - 1 =? Z.of_nat m)%Z) monthlyData.

(** The fractions of month index [m] if a reference year lacking data for
    that month were skipped for that month. *)
Definition fractions_skipping_missing_months (annualData : list AnnualData.t)
    (monthlyData : list MonthlyData.t) (referenceYears : list Z) (m : nat) : list Q :=
  map (fraction_of m)
      (omap (contributing_point annualData monthlyData)
            (List.filter (fun year => has_month_record monthlyData year m) referenceYears)).

(** A back-test year that qualifies, with its annual record and its
    year-to-date total reconstructed at [completedMonths]: a year of
    [annualData] other than 2020, 2021 and the target year, with annual and
    monthly data, a nonzero annual tournament total and a nonzero
    reconstructed year-to-date total. *)
Definition qualifying_point (annualData : list AnnualData.t)
    (monthlyData : list MonthlyData.t) (completedMonths : Z) (year : Z)
    : option (AnnualData.t * Q) :=
  match buildAnnualLookup annualData !! year, buildMonthlyLookup monthlyData !! year with
  | Some annual, Some monthly =>
      let ytd := JS.sum (JS.slice0 completedMonths monthly) in
      if Qeq_bool (AnnualData.tournaments annual) 0 || Qeq_bool ytd 0 then None
      else Some (annual, ytd)
  | _, _ => None
  end.

Definition qualifying (annualData : list AnnualData.t)
    (monthlyData : list MonthlyData.t) (completedMonths targetYear : Z)
    : list (AnnualData.t * Q) :=
  omap (qualifying_point annualData monthlyData completedMonths)
       (backTestYears annualData targetYear).

(** The year's true annual total over what the model would have projected
    for it from its year-to-date total, with the current cumulative weight. *)
Definition ratio_of (annualTotal ytd cumulativeWeight : Q) : Q :=
  annualTotal / (ytd / cumulativeWeight).

Definition tournament_ratios (points : list (AnnualData.t * Q)) (cumulativeWeight : Q)
    : list Q :=
  map (fun p => ratio_of (AnnualData.tournaments (fst p)) (snd p) cumulativeWeight) points.

Definition entry_ratios (points : list (AnnualData.t * Q)) (cumulativeWeight : Q)
    : list Q :=
  map (fun p => ratio_of (AnnualData.entries (fst p)) (snd p) cumulativeWeight)
      (List.filter (fun p => negb (Qle_bool (AnnualData.entries (fst p)) 0)) points).

(** [for] loops and [reduce] callbacks that read [xs[i]] by index. *)
Definition at_index (l : list Q) (i : nat) : Q := nth i l 0.

Section WithSqrt.
(** [Math.sqrt] *)
Variable Math_sqrt : Q -> Q.

Definition stddev (values : list Q) : Q :=
  if (length values <? 2)%nat then 0
  else
    let m := mean values in
    let variance :=
      fold_left (fun sum v => sum + (v - m) ^ 2) values 0 / JS.len values in
    Math_sqrt variance.

Definition computeMonthlyWeights (annualData : list AnnualData.t)
    (monthlyData : list MonthlyData.t) (referenceYears : option (list Z))
    : MonthlyWeights :=
  let fr := collect_fractions annualData monthlyData
              (default DEFAULT_REFERENCE_YEARS referenceYears) in
  {| tournament_weights := map mean (fst fr);
     entry_weights := map mean (snd fr);
     weight_std := map stddev (fst fr) |}.

(** The years [computeTrendLine] regresses on: 2020 and 2021 dropped, the
    four most recent kept, in ascending order. *)
Definition eligibleYears (annualData : list AnnualData.t) : list AnnualData.t :=
  JS.sort_by (fun a b => inject_Z (AnnualData.year a - AnnualData.year b))
    (JS.slice0 4
       (JS.sort_by (fun a b => inject_Z (AnnualData.year b - AnnualData.year a))
          (filter (fun d => AnnualData.year d ≠ 2020%Z ∧ AnnualData.year d ≠ 2021%Z)
                  annualData))).

(** The least-squares part of [computeTrendLine], on two or more years. *)
Definition regression (eligible : list AnnualData.t) (metric : Metric)
    (targetYear : Z) : TrendReference :=
  let xs := map (fun d => inject_Z (AnnualData.year d)) eligible in
  let ys := map (fun d => metric_of d metric) eligible in
  let n := length xs in
  let xMean := mean xs in
  let yMean := mean ys in
  let numerator :=
    fold_left (fun acc i => acc + (at_index xs i - xMean) * (at_index ys i - yMean))
              (seq 0 n) 0 in
  let denominator :=
    fold_left (fun acc i => acc + (at_index xs i - xMean) ^ 2) (seq 0 n) 0 in
  let slope := if negb (Qeq_bool denominator 0) then numerator / denominator else 0 in
  let intercept := yMean - slope * xMean in
  let ssRes :=
    fold_left (fun sum i =>
                 let predicted := slope * at_index xs i + intercept in
                 sum + (at_index ys i - predicted) ^ 2)
              (seq 0 (length ys)) 0 in
  let ssTot := fold_left (fun sum y => sum + (y - yMean) ^ 2) ys 0 in
  let r_squared := if negb (Qeq_bool ssTot 0) then 1 - ssRes / ssTot else 0 in
  let projected_value := JS.Math_round (slope * inject_Z targetYear + intercept) in
  {| slope := slope; intercept := intercept; r_squared := r_squared;
     projected_value := projected_value |}.

Definition computeTrendLine (annualData : list AnnualData.t) (metric : Metric)
    (targetYear : Z) : TrendReference :=
  let eligible := eligibleYears annualData in
  if (length eligible <? 2)%nat then
    {| slope := 0; intercept := 0; r_squared := 0; projected_value := 0 |}
  else regression eligible metric targetYear.

(** The confidence bounds [(68% low, 68% high, 95% low, 95% high)] of one
    metric: from the back-test ratios when there are at least two, from the
    relative uncertainty of the weights otherwise. *)
Definition confidenceBounds (projected : Q) (ratios : list Q)
    (relativeUncertainty : Q) : Q * Q * Q * Q :=
  if (2 <=? length ratios)%nat then
    let ratioMean := mean ratios in
    let ratioStd := stddev ratios in
    (JS.Math_round (projected * (ratioMean - ratioStd)),
     JS.Math_round (projected * (ratioMean + ratioStd)),
     JS.Math_round (projected * (ratioMean - 2 * ratioStd)),
     JS.Math_round (projected * (ratioMean + 2 * ratioStd)))
  else
    (JS.Math_round (projected * (1 - relativeUncertainty)),
     JS.Math_round (projected * (1 + relativeUncertainty)),
     JS.Math_round (projected * (1 - 2 * relativeUncertainty)),
     JS.Math_round (projected * (1 + 2 * relativeUncertainty))).

(** The fallback of both metrics: the root-sum-of-squares of the weight
    standard deviations over the tournament cumulative weight. *)
Definition relativeUncertainty (completedMonths : Z) (monthlyWeights : MonthlyWeights)
    (cumulativeTournamentWeight : Q) : Q :=
  let cumulativeWeightStd :=
    Math_sqrt
      (fold_left (fun sum s => sum + s * s)
         (JS.slice0 completedMonths (weight_std monthlyWeights)) 0) in
  cumulativeWeightStd / cumulativeTournamentWeight.

Definition computeForecast (ytdTournaments ytdEntries : Q) (completedMonths : Z)
    (monthlyWeights : MonthlyWeights) (annualData : list AnnualData.t)
    (monthlyData : list MonthlyData.t) (targetYear : Z) : ForecastResult :=
  if (completedMonths <? 2)%Z then emptyResult targetYear completedMonths
  else
    let cumulativeTournamentWeight :=
      cumulativeWeight completedMonths (tournament_weights monthlyWeights) in
    let cumulativeEntryWeight :=
      cumulativeWeight completedMonths (entry_weights monthlyWeights) in
    if negb (Qle_bool 0.001 cumulativeTournamentWeight)
       || negb (Qle_bool 0.001 cumulativeEntryWeight)
    then emptyResult targetYear completedMonths
    else
      let projectedTournaments := ytdTournaments / cumulativeTournamentWeight in
      let projectedEntries := ytdEntries / cumulativeEntryWeight in
      let ratios :=
        backTestRatios annualData monthlyData completedMonths
          cumulativeTournamentWeight cumulativeEntryWeight targetYear in
      let tournamentRatios := fst ratios in
      let entryRatios := snd ratios in
      let '(ci68LowTournaments, ci68HighTournaments,
            ci95LowTournaments, ci95HighTournaments) :=
        confidenceBounds projectedTournaments tournamentRatios
          (relativeUncertainty completedMonths monthlyWeights cumulativeTournamentWeight) in
      let '(ci68LowEntries, ci68HighEntries,
            ci95LowEntries, ci95HighEntries) :=
        confidenceBounds projectedEntries entryRatios
          (relativeUncertainty completedMonths monthlyWeights cumulativeTournamentWeight) in
      let trendRef := computeTrendLine annualData Tournaments targetYear in
      {| target_year := targetYear;
         months_of_data := completedMonths;
         projected_tournaments := JS.Math_round projectedTournaments;
         projected_entries := JS.Math_round projectedEntries;
         ci_68_low_tournaments := ci68LowTournaments;
         ci_68_high_tournaments := ci68HighTournaments;
         ci_95_low_tournaments := ci95LowTournaments;
         ci_95_high_tournaments := ci95HighTournaments;
         ci_68_low_entries := ci68LowEntries;
         ci_68_high_entries := ci68HighEntries;
         ci_95_low_entries := ci95LowEntries;
         ci_95_high_entries := ci95HighEntries;
         method := seasonal_ratio;
         trend_reference := Some trendRef |}.

End WithSqrt.

(** The event counts recorded for a year and a month index, in the order
    of the records. *)
Definition month_counts (monthlyData : list MonthlyData.t) (y : Z) (m : nat) : list Q :=
  map MonthlyData.event_count
      (filter (fun d => MonthlyData.year d = y
                        ∧ (MonthlyData.month d - 1)%Z = Z.of_nat m) monthlyData).

(** Sample data: three years with January and February counts, and a
    stand-in for [Math.sqrt] (the integer square root of the integer part),
    used only to run the engine on the samples. *)
Definition sqrt_floor (q : Q) : Q := inject_Z (Z.sqrt (Qfloor q)).

Definition sample_annual : list AnnualData.t :=
  [ {| AnnualData.year := 2022; AnnualData.tournaments := 100; AnnualData.entries := 500 |};
    {| AnnualData.year := 2023; AnnualData.tournaments := 120; AnnualData.entries := 600 |};
    {| AnnualData.year := 2024; AnnualData.tournaments := 150; AnnualData.entries := 900 |} ].

Definition sample_monthly : list MonthlyData.t :=
  [ {| MonthlyData.year := 2022; MonthlyData.month := 1; MonthlyData.event_count := 10 |};
    {| MonthlyData.year := 2022; MonthlyData.month := 2; MonthlyData.event_count := 10 |};
    {| MonthlyData.year := 2023; MonthlyData.month := 1; MonthlyData.event_count := 12 |};
    {| MonthlyData.year := 2023; MonthlyData.month := 2; MonthlyData.event_count := 18 |};
    {| MonthlyData.year := 2024; MonthlyData.month := 1; MonthlyData.event_count := 15 |} ].

(** Two years with the same tournament total. *)
Definition flat_annual : list AnnualData.t :=
  [ {| AnnualData.year := 2022; AnnualData.tournaments := 100; AnnualData.entries := 500 |};
    {| AnnualData.year := 2023; AnnualData.tournaments := 100; AnnualData.entries := 600 |} ].

(** A year whose twelve monthly counts add up to its annual total. *)
Definition full_year_annual : list AnnualData.t :=
  [ {| AnnualData.year := 2022; AnnualData.tournaments := 120; AnnualData.entries := 600 |} ].

Definition full_year_monthly : list MonthlyData.t :=
  map (fun m => {| MonthlyData.year := 2022; MonthlyData.month := Z.of_nat m;
                   MonthlyData.event_count := 10 |})
      (seq 1 12).

Definition sample_weights : MonthlyWeights :=
  computeMonthlyWeights sqrt_floor sample_annual sample_monthly (Some [2022; 2023]%Z).

End Forecast.

(** ** The calibration route ([POST], second handler of the observations file)

    The handler reads three tables and writes [backtest_mae] back; the reads
    are its arguments here ([None] for a [null] result set) and the writes
    are returned next to the response.  A date string is modelled by the
    instant [new Date] parses it to. *)

Module Observation.
Record t : Type := { period_start : Z; period_end : Z; observed_score : Q }.
End Observation.

Module MethodologyVersion.
Record t : Type := { version_number : Z; description : string; is_active : bool }.
End MethodologyVersion.

Module ShadowScore.
Record t : Type := { methodology_version : Z; score_date : Z; composite_score : Q }.
End ShadowScore.

Module Calibration.

Record VersionResult : Type := {
  version_number : Z;
  description : string;
  is_active : bool;
  mae : option Q;
  observations_matched : nat;
  total_shadow_scores : nat;
}.

(** The recommendation text names a version and its MAE, or says that
    there is nothing to compare. *)
Inductive Recommendation : Type :=
| LowestMAE (version : Z) (mae : Q)
| InsufficientShadowScores.

Inductive Response : Type :=
| Unauthorized
| NeedObservations (observation_count : nat)
| Calibrated (results : list VersionResult) (recommendation : Recommendation)
             (observation_count : nat).

(** An update of [methodology_versions.backtest_mae]. *)
Record Update : Type := { for_version : Z; backtest_mae : Q }.

Definition matchingScores (versionScores : list ShadowScore.t) (obs : Observation.t)
    : list ShadowScore.t :=
  filter (fun s => (Observation.period_start obs <= ShadowScore.score_date s)%Z
                   ∧ (ShadowScore.score_date s <= Observation.period_end obs)%Z)
         versionScores.

(** One iteration of [for (const obs of observations)]; the state is
    [(totalError, matchCount)]. *)
Definition matchStep (versionScores : list ShadowScore.t) (acc : Q * nat)
    (obs : Observation.t) : Q * nat :=
  let matching := matchingScores versionScores obs in
  if (0 <? length matching)%nat then
    let avgScore :=
      fold_left (fun sum s => sum + ShadowScore.composite_score s) matching 0
      / JS.len matching in
    (fst acc + Qabs (avgScore - Observation.observed_score obs), S (snd acc))
  else acc.

Definition versionResult (observations : list Observation.t)
    (shadowScores : list ShadowScore.t) (version : MethodologyVersion.t)
    : VersionResult :=
  let versionScores :=
    filter (fun s => ShadowScore.methodology_version s
                     = MethodologyVersion.version_number version) shadowScores in
  let '(totalError, matchCount) :=
    fold_left (matchStep versionScores) observations (0, 0%nat) in
  let mae :=
    if (0 <? matchCount)%nat
    then Some (totalError / inject_Z (Z.of_nat matchCount)) else None in
  {| version_number := MethodologyVersion.version_number version;
     description := MethodologyVersion.description version;
     is_active := MethodologyVersion.is_active version;
     mae := mae;
     observations_matched := matchCount;
     total_shadow_scores := length versionScores |}.

Definition has_mae (r : VersionResult) : bool :=
  match mae r with Some _ => true | None => false end.

(** [a.mae! - b.mae!], used on results whose [mae] is not null. *)
Definition mae_value (r : VersionResult) : Q := default 0 (mae r).

Definition rankedVersions (results : list VersionResult) : list VersionResult :=
  JS.sort_by (fun a b => mae_value a - mae_value b)
             (List.filter has_mae results).

Definition updates (results : list VersionResult) : list Update :=
  flat_map (fun r => match mae r with
                     | Some m => [{| for_version := version_number r; backtest_mae := m |}]
                     | None => []
                     end) results.

Definition POST (authorized : bool) (observations : option (list Observation.t))
    (versions : option (list MethodologyVersion.t))
    (shadowScores : option (list ShadowScore.t)) : Response * list Update :=
  if negb authorized then (Unauthorized, [])
  else
    match observations with
    | None => (NeedObservations 0, [])
    | Some observations =>
        if (length observations <? 3)%nat
        then (NeedObservations (length observations), [])
        else
          let results :=
            map (versionResult observations (default [] shadowScores))
                (default [] versions) in
          let recommendation :=
            match rankedVersions results with
            | best :: _ => LowestMAE (version_number best) (mae_value best)
            | [] => InsufficientShadowScores
            end in
          (Calibrated results recommendation (length observations),
           updates results)
    end.

(** The observation periods in which a version has at least one shadow
    score. *)
Definition matchedPeriods (versionScores : list ShadowScore.t)
    (observations : list Observation.t) : list Observation.t :=
  List.filter (fun obs => (0 <? length (matchingScores versionScores obs))%nat)
              observations.

(** Sample data: three observation periods, a version with a score in the
    first period and a version with no score in any period. *)
Definition sample_observations : list Observation.t :=
  [ {| Observation.period_start := 0; Observation.period_end := 9;
       Observation.observed_score := 70 |};
    {| Observation.period_start := 10; Observation.period_end := 19;
       Observation.observed_score := 60 |};
    {| Observation.period_start := 20; Observation.period_end := 29;
       Observation.observed_score := 65 |} ].

Definition sample_versions : list MethodologyVersion.t :=
  [ {| MethodologyVersion.version_number := 1; MethodologyVersion.description := "v1";
       MethodologyVersion.is_active := true |};
    {| MethodologyVersion.version_number := 2; MethodologyVersion.description := "v2";
       MethodologyVersion.is_active := false |} ].

Definition sample_scores : list ShadowScore.t :=
  [ {| ShadowScore.methodology_version := 1; ShadowScore.score_date := 5;
       ShadowScore.composite_score := 74 |};
    {| ShadowScore.methodology_version := 2; ShadowScore.score_date := 40;
       ShadowScore.composite_score := 50 |} ].

End Calibration.

(** ** The add-observation route ([POST], first handler of the observations file)

    The parsed request body is a record of JSON values, with [JUndefined]
    for a field the body does not have.  An array or object carries the
    number that [Number] coerces it to; the conversion of a string to a
    number is a parameter.  The insert is returned next to the response, and
    the row the database answers with is taken to be the inserted one. *)

Module ObservationRoute.
Import Number.

Inductive Json : Type :=
| JUndefined
| JNull
| JBool (b : bool)
| JNumber (n : Q)
| JString (s : string)
| JObject (asNumber : number).

(** [!v] is false: the value is not [undefined], [null], [false], [0] or
    the empty string. *)
Definition truthy (v : Json) : bool :=
  match v with
  | JUndefined | JNull => false
  | JBool b => b
  | JNumber n => negb (Qeq_bool n 0)
  | JString s => negb (String.eqb s "")
  | JObject _ => true
  end.

Definition validBands : list string :=
  ["thriving"; "healthy"; "stable"; "concerning"; "critical"]%string.

(** [validBands.includes(v)] *)
Definition includes (bands : list string) (v : Json) : bool :=
  match v with
  | JString s => existsb (String.eqb s) bands
  | _ => false
  end.

(** [v ?? null] *)
Definition or_null (v : Json) : Json :=
  match v with JUndefined => JNull | _ => v end.

Record Body : Type := {
  period_start : Json;
  period_end : Json;
  observed_health : Json;
  observed_score : Json;
  notes : Json;
  evidence : Json;
}.

Record Row : Type := {
  row_period_start : Json;
  row_period_end : Json;
  row_observed_health : Json;
  row_observed_score : Q;
  row_notes : Json;
  row_evidence : Json;
}.

Inductive Response : Type :=
| Unauthorized
| MissingRequiredFields
| InvalidBand
| InvalidScore
| InsertFailed (message : string)
| Created (observation : Row).

Definition status (r : Response) : Z :=
  match r with
  | Unauthorized => 401
  | MissingRequiredFields | InvalidBand | InvalidScore => 400
  | InsertFailed _ => 500
  | Created _ => 201
  end.

Section WithStringToNumber.
(** [Number(s)] on a string. *)
Variable StringToNumber : string -> number.

(** [Number(v)] *)
Definition ToNumber (v : Json) : number :=
  match v with
  | JUndefined => NaN
  | JNull => Fin 0
  | JBool b => if b then Fin 1 else Fin 0
  | JNumber n => Fin n
  | JString s => StringToNumber s
  | JObject n => n
  end.

(** The handler: the response and the row it asks the database to insert,
    if it gets that far.  [insertError] is the error the database answers
    with, if any. *)
Definition POST (authorized : bool) (body : Body) (insertError : option string)
    : Response * option Row :=
  if negb authorized then (Unauthorized, None)
  else if negb (truthy (period_start body)) || negb (truthy (period_end body))
          || negb (truthy (observed_health body))
          || match observed_score body with JUndefined => true | _ => false end
  then (MissingRequiredFields, None)
  else if negb (includes validBands (observed_health body)) then (InvalidBand, None)
  else
    match ToNumber (observed_score body) with
    | NaN => (InvalidScore, None)
    | Fin score =>
        if negb (Qle_bool 0 score) || negb (Qle_bool score 100) then (InvalidScore, None)
        else
          let row :=
            {| row_period_start := period_start body;
               row_period_end := period_end body;
               row_observed_health := observed_health body;
               row_observed_score := score;
               row_notes := or_null (notes body);
               row_evidence := or_null (evidence body) |} in
          match insertError with
          | Some message => (InsertFailed message, Some row)
          | None => (Created row, Some row)
          end
    end.

End WithStringToNumber.

(** Sample bodies: a complete one, and one whose score is [null]. *)
Definition sample_body : Body :=
  {| period_start := JString "2024-01-01"; period_end := JString "2024-06-30";
     observed_health := JString "healthy"; observed_score := JNumber 72;
     notes := JUndefined; evidence := JUndefined |}.

Definition null_score_body : Body :=
  {| period_start := JString "2024-01-01"; period_end := JString "2024-06-30";
     observed_health := JString "healthy"; observed_score := JNull;
     notes := JUndefined; evidence := JUndefined |}.

(** A stand-in for the conversion of strings, used only to run the samples. *)
Definition no_numeric_strings (s : string) : number := NaN.

End ObservationRoute.

(** ** The forecaster ([runForecaster])

    The three reads are arguments ([None] for a [null] result set, and for
    the overall snapshot a missing row or a [null] field), with the clock
    ([today], [targetYear]); the row handed to the upsert is returned next to
    the summary, and [upsertError] says whether the database refused it.  An
    annual row is read as the engine's record ([player_entries] is its
    [entries]). *)

Module Forecaster.

Definition REFERENCE_YEARS : list Z := [2019; 2022; 2023; 2024; 2025]%Z.

Record StoredTrend : Type := {
  tournaments : Forecast.TrendReference;
  entries : Forecast.TrendReference;
}.

Record ForecastRow : Type := {
  forecast_date : string;
  target_year : Z;
  months_of_data : Z;
  projected_tournaments : Q;
  projected_entries : Q;
  ci_68_low_tournaments : Q;
  ci_68_high_tournaments : Q;
  ci_95_low_tournaments : Q;
  ci_95_high_tournaments : Q;
  ci_68_low_entries : Q;
  ci_68_high_entries : Q;
  ci_95_low_entries : Q;
  ci_95_high_entries : Q;
  method : Forecast.Method;
  trend_reference : StoredTrend;
}.

Record Summary : Type := {
  summary_forecast_date : string;
  summary_target_year : Z;
  summary_months_of_data : Z;
  ytd_tournaments : Q;
  ytd_entries : Q;
  summary_projected_tournaments : Q;
  summary_projected_entries : Q;
  trend_tournaments : Q;
  trend_entries : Q;
}.

Inductive Details : Type :=
| no_annual_data
| forecasted (summary : Summary).

Record Run : Type := {
  records_affected : nat;
  details : Details;
}.

(** [monthlyData.filter((m) => m.year === targetYear)] *)
Definition targetYearMonths (monthlyData : list MonthlyData.t) (targetYear : Z)
    : list MonthlyData.t :=
  filter (fun m => MonthlyData.year m = targetYear) monthlyData.

(** The year-to-date entries: the entries of the first annual row of the
    target year if there is one, else the overall snapshot's figure when it
    is truthy, else 0. *)
Definition ytdEntriesOf (annualData : list AnnualData.t) (targetYear : Z)
    (overallYtdEntries : option Q) : Q :=
  match List.find (fun a => (AnnualData.year a =? targetYear)%Z) annualData with
  | Some currentYearAnnual => AnnualData.entries currentYearAnnual
  | None =>
      match overallYtdEntries with
      | Some ytd_player_entries =>
          if Qeq_bool ytd_player_entries 0 then 0 else ytd_player_entries
      | None => 0
      end
  end.

Section WithSqrt.
Variable Math_sqrt : Q -> Q.

Definition runForecaster (today : string) (targetYear : Z)
    (annualRows : option (list AnnualData.t))
    (monthlyRows : option (list MonthlyData.t))
    (overallYtdEntries : option Q) (upsertError : bool)
    : option ForecastRow * Run :=
  let annualData := default [] annualRows in
  if (length annualData =? 0)%nat
  then (None, {| records_affected := 0; details := no_annual_data |})
  else
    let monthlyData := default [] monthlyRows in
    let months := targetYearMonths monthlyData targetYear in
    let completedMonths := Z.of_nat (length months) in
    let ytdTournaments :=
      fold_left (fun sum m => sum + MonthlyData.event_count m) months 0 in
    let ytdEntries := ytdEntriesOf annualData targetYear overallYtdEntries in
    let monthlyWeights :=
      Forecast.computeMonthlyWeights Math_sqrt annualData monthlyData
        (Some REFERENCE_YEARS) in
    let forecast :=
      Forecast.computeForecast Math_sqrt ytdTournaments ytdEntries completedMonths
        monthlyWeights annualData monthlyData targetYear in
    let trendTournaments :=
      Forecast.computeTrendLine annualData Forecast.Tournaments targetYear in
    let trendEntries :=
      Forecast.computeTrendLine annualData Forecast.Entries targetYear in
    (Some {| forecast_date := today;
             target_year := targetYear;
             months_of_data := Forecast.months_of_data forecast;
             projected_tournaments := Forecast.projected_tournaments forecast;
             projected_entries := Forecast.projected_entries forecast;
             ci_68_low_tournaments := Forecast.ci_68_low_tournaments forecast;
             ci_68_high_tournaments := Forecast.ci_68_high_tournaments forecast;
             ci_95_low_tournaments := Forecast.ci_95_low_tournaments forecast;
             ci_95_high_tournaments := Forecast.ci_95_high_tournaments forecast;
             ci_68_low_entries := Forecast.ci_68_low_entries forecast;
             ci_68_high_entries := Forecast.ci_68_high_entries forecast;
             ci_95_low_entries := Forecast.ci_95_low_entries forecast;
             ci_95_high_entries := Forecast.ci_95_high_entries forecast;
             method := Forecast.method forecast;
             trend_reference :=
               {| tournaments := trendTournaments; entries := trendEntries |} |},
     {| records_affected := if upsertError then 0 else 1;
        details :=
          forecasted
            {| summary_forecast_date := today;
               summary_target_year := targetYear;
               summary_months_of_data := completedMonths;
               ytd_tournaments := ytdTournaments;
               ytd_entries := ytdEntries;
               summary_projected_tournaments := Forecast.projected_tournaments forecast;
               summary_projected_entries := Forecast.projected_entries forecast;
               trend_tournaments := Forecast.projected_value trendTournaments;
               trend_entries := Forecast.projected_value trendEntries |} |}).

End WithSqrt.

(** Sample reads: the full year 2022 as history, and a target year 2026
    with twelve monthly rows. *)
Definition year_end_monthly : list MonthlyData.t :=
  Forecast.full_year_monthly
  ++ map (fun m => {| MonthlyData.year := 2026; MonthlyData.month := Z.of_nat m;
                      MonthlyData.event_count := 11 |})
         (seq 1 12).

End Forecaster.

(** ** The breakdown component's top influencer
    ([src/components/health-score-breakdown.tsx]) *)

Module Breakdown.
Import Number.

(** One iteration of [for (const [key, val] of Object.entries(sensitivity))];
    the state is [(maxKey, maxVal)], with [None] for [null] and for
    [-Infinity].  Every finite number is greater than [-Infinity], and no
    comparison with [NaN] holds. *)
Definition topStep (acc : option string * option Q) (entry : string * number)
    : option string * option Q :=
  match Math_abs (snd entry) with
  | Fin a =>
      match snd acc with
      | None => (Some (fst entry), Some a)
      | Some maxVal =>
          if negb (Qle_bool a maxVal) then (Some (fst entry), Some a) else acc
      end
  | NaN => acc
  end.

Definition topSensitivityKey (sensitivity : Obj.t number) : option string :=
  fst (fold_left topStep sensitivity (None, None)).

End Breakdown.

(** ** Facts about the primitives *)

Lemma Qle_bool_false (a b : Q) : Qle_bool a b = false -> b < a.
Proof.
  intros H. destruct (Qlt_le_dec b a) as [Hlt | Hle]; [exact Hlt |].
  apply Qle_bool_iff in Hle. congruence.
Qed.

Lemma Qle_bool_true (a b : Q) : Qle_bool a b = true -> a <= b.
Proof. apply Qle_bool_iff. Qed.

(** Case analysis on an innermost comparison of the goal. *)
Ltac Qle_case :=
  match goal with
  | |- context [Qle_bool ?a ?b] =>
      lazymatch a with context [Qle_bool _ _] => fail | _ => idtac end;
      lazymatch b with context [Qle_bool _ _] => fail | _ => idtac end;
      let E := fresh "E" in
      destruct (Qle_bool a b) eqn:E;
      [apply Qle_bool_true in E | apply Qle_bool_false in E]
  end.

Section PrimitiveFacts.
Import JS.

Lemma clamp_range (v : Q) : 0 <= clamp v /\ clamp v <= 100.
Proof. unfold clamp, Math_max, Math_min. repeat Qle_case; lra. Qed.

Lemma clamp_id (v : Q) : 0 <= v -> v <= 100 -> clamp v == v.
Proof. intros H0 H1. unfold clamp, Math_max, Math_min. repeat Qle_case; lra. Qed.

Lemma clamp_compat (a b : Q) : a == b -> clamp a == clamp b.
Proof. intros H. unfold clamp, Math_max, Math_min. repeat Qle_case; lra. Qed.

Lemma Math_round_compat (a b : Q) : a == b -> Math_round a = Math_round b.
Proof.
  intros H. unfold Math_round.
  assert (E : a + (1 # 2) == b + (1 # 2)) by lra.
  now rewrite (Qfloor_comp _ _ E).
Qed.

(** [Math.round] moves a value by at most one half. *)
Lemma Math_round_error (x : Q) :
  x - (1 # 2) < Math_round x /\ Math_round x <= x + (1 # 2).
Proof.
  unfold Math_round.
  pose proof (Qfloor_le (x + (1 # 2))) as Hle.
  pose proof (Qlt_floor (x + (1 # 2))) as Hlt.
  rewrite inject_Z_plus in Hlt. change (inject_Z 1) with 1 in Hlt.
  split; lra.
Qed.

Lemma Math_round_mono (a b : Q) : a <= b -> Math_round a <= Math_round b.
Proof.
  intros H. unfold Math_round. rewrite <- Zle_Qle.
  apply Qfloor_resp_le. lra.
Qed.

Lemma Math_round_Z (z : Z) : Math_round (inject_Z z) = inject_Z z.
Proof.
  unfold Math_round. f_equal.
  pose proof (Qfloor_le (inject_Z z + (1 # 2))) as Hle.
  pose proof (Qlt_floor (inject_Z z + (1 # 2))) as Hlt.
  set (f := Qfloor (inject_Z z + (1 # 2))) in *.
  rewrite inject_Z_plus in Hlt. change (inject_Z 1) with 1 in Hlt.
  assert (H1 : inject_Z f < inject_Z z + 1) by lra.
  assert (H2 : inject_Z z < inject_Z f + 1) by lra.
  change 1 with (inject_Z 1) in H1, H2.
  rewrite <- inject_Z_plus in H1, H2.
  rewrite <- Zlt_Qlt in H1, H2. lia.
Qed.

(** [round2] moves a value by at most half a hundredth. *)
Lemma round2_error (x : Q) :
  x - (1 # 200) < round2 x /\ round2 x <= x + (1 # 200).
Proof.
  unfold round2. pose proof (Math_round_error (x * 100)) as [H1 H2].
  set (r := Math_round (x * 100)) in *.
  assert (E : r / 100 == r * (1 # 100)) by (field).
  rewrite E. split; lra.
Qed.

Lemma round2_range (x : Q) : 0 <= x -> x <= 100 -> 0 <= round2 x /\ round2 x <= 100.
Proof.
  intros H0 H1. unfold round2.
  assert (L : Math_round (inject_Z 0) <= Math_round (x * 100)).
  { apply Math_round_mono. change (inject_Z 0) with 0. lra. }
  assert (U : Math_round (x * 100) <= Math_round (inject_Z 10000)).
  { apply Math_round_mono. change (inject_Z 10000) with 10000. lra. }
  rewrite Math_round_Z in L, U.
  change (inject_Z 0) with 0 in L. change (inject_Z 10000) with 10000 in U.
  set (r := Math_round (x * 100)) in *.
  assert (E : r / 100 == r * (1 # 100)) by (field).
  rewrite E. split; lra.
Qed.

Lemma round2_compat (a b : Q) : a == b -> round2 a = round2 b.
Proof.
  intros H. unfold round2. f_equal. apply Math_round_compat. now rewrite H.
Qed.

End PrimitiveFacts.

(** ** [interpolate] *)

Section InterpolateFacts.
Import HealthScore.

Lemma last_nonempty_default {A} (l : list A) (a d d' : A) :
  List.last (a :: l) d = List.last (a :: l) d'.
Proof.
  revert a. induction l as [| b l IH]; intros a; [reflexivity |].
  change (List.last (a :: b :: l) d) with (List.last (b :: l) d).
  change (List.last (a :: b :: l) d') with (List.last (b :: l) d').
  apply IH.
Qed.

Lemma ascending_tail (p : Q * Q) (bps : Breakpoints) :
  ascending (p :: bps) = true -> ascending bps = true.
Proof.
  destruct p as [x0 y0]. destruct bps as [| [x1 y1] r]; [reflexivity |].
  cbn [ascending]. intros H. apply andb_prop in H. tauto.
Qed.

Lemma ascending_head_lt (x0 y0 : Q) (bps : Breakpoints) (j : nat) (xj yj : Q) :
  ascending ((x0, y0) :: bps) = true -> bps !! j = Some (xj, yj) -> x0 < xj.
Proof.
  revert x0 y0 j. induction bps as [| [x1 y1] r IH]; intros x0 y0 j Hasc Hj.
  - discriminate.
  - pose proof (ascending_tail _ _ Hasc) as Htl.
    cbn [ascending] in Hasc. apply andb_prop in Hasc as [Hlt _].
    apply negb_true_iff, Qle_bool_false in Hlt.
    destruct j as [| j]; cbn in Hj.
    + injection Hj as -> ->. exact Hlt.
    + specialize (IH x1 y1 j Htl Hj). lra.
Qed.

Lemma ascending_first_lt_last (p q : Q * Q) (bps : Breakpoints) :
  ascending (p :: q :: bps) = true -> fst p < fst (List.last (p :: q :: bps) p).
Proof.
  intros Hasc. destruct p as [x0 y0].
  assert (Hl : exists j, (q :: bps) !! j = Some (List.last ((x0, y0) :: q :: bps) (x0, y0))).
  { change (List.last ((x0, y0) :: q :: bps) (x0, y0))
      with (List.last (q :: bps) (x0, y0)).
    generalize (x0, y0) as d. generalize q. clear.
    induction bps as [| b r IH]; intros q d.
    - exists 0%nat. reflexivity.
    - destruct (IH b d) as [j Hj]. exists (S j). exact Hj. }
  destruct Hl as [j Hj].
  destruct (List.last ((x0, y0) :: q :: bps) (x0, y0)) as [xl yl] eqn:El.
  cbn [fst]. eapply ascending_head_lt; eauto.
Qed.

(** Whenever the loop reaches a pair, the value lies strictly above the
    pair's first input: the divisor [x1 - x0] of an accepted pair is
    positive, whatever the list. *)
Lemma interpolate_loop_finds (value : Q) (p : Q * Q) (bps : Breakpoints) :
  fst p < value -> value < fst (List.last (p :: bps) p) ->
  exists (i : nat) (x0 y0 x1 y1 : Q),
    (p :: bps) !! i = Some (x0, y0) /\ (p :: bps) !! S i = Some (x1, y1) /\
    x0 < value /\ value <= x1 /\
    interpolate_loop value (p :: bps) = Some (JS.clamp (lerp x0 y0 x1 y1 value)).
Proof.
  revert p. induction bps as [| [x1 y1] r IH]; intros [x0 y0] Hlo Hhi.
  - cbn in Hlo, Hhi. lra.
  - cbn [fst] in Hlo. cbn [interpolate_loop].
    destruct (Qle_bool x0 value && Qle_bool value x1) eqn:E.
    + apply andb_prop in E as [_ E1]. apply Qle_bool_true in E1.
      exists 0%nat, x0, y0, x1, y1. repeat split; auto.
    + assert (Hx1 : x1 < value).
      { apply andb_false_iff in E as [E | E].
        - apply Qle_bool_false in E. lra.
        - now apply Qle_bool_false in E. }
      destruct (IH (x1, y1)) as (i & a0 & b0 & a1 & b1 & H0 & H1 & Hl & Hu & Hr).
      * exact Hx1.
      * change (List.last ((x0, y0) :: (x1, y1) :: r) (x0, y0))
          with (List.last ((x1, y1) :: r) (x0, y0)) in Hhi.
        now rewrite (last_nonempty_default r (x1, y1) (x0, y0) (x1, y1)) in Hhi.
      * exists (S i), a0, b0, a1, b1. repeat split; auto.
Qed.

Lemma interpolate_loop_bracket (value : Q) (bps : Breakpoints) :
  forall (p : Q * Q) (i : nat) (x0 y0 x1 y1 : Q),
    ascending (p :: bps) = true -> fst p < value ->
    (p :: bps) !! i = Some (x0, y0) -> (p :: bps) !! S i = Some (x1, y1) ->
    x0 <= value -> value <= x1 ->
    exists r, interpolate_loop value (p :: bps) = Some r /\
              r == JS.clamp (lerp x0 y0 x1 y1 value).
Proof.
  induction bps as [| [a1 b1] r IH]; intros [a0 b0] i x0 y0 x1 y1 Hasc Hlo Hi HSi Hl Hu.
  - destruct i; discriminate.
  - cbn [fst] in Hlo. cbn [interpolate_loop].
    pose proof (ascending_tail _ _ Hasc) as Htl.
    destruct (Qle_bool a0 value && Qle_bool value a1) eqn:E.
    + apply andb_prop in E as [_ E1]. apply Qle_bool_true in E1.
      eexists; split; [reflexivity |].
      destruct i as [| i].
      * cbn in Hi, HSi. injection Hi as <- <-. injection HSi as <- <-. reflexivity.
      * (* the value sits on the shared breakpoint [a1] *)
        cbn in Hi.
        assert (Ha1 : a1 <= x0).
        { destruct i as [| i]; cbn in Hi.
          - injection Hi as <- <-. lra.
          - pose proof (ascending_head_lt _ _ _ _ _ _ Htl Hi). lra. }
        assert (Hv : value == a1) by lra.
        destruct i as [| i]; cbn in Hi.
        -- injection Hi as <- <-.
           assert (Hx1 : a1 < x1).
           { cbn in HSi. eapply (ascending_head_lt _ _ _ _ _ _ Htl HSi). }
           apply clamp_compat. unfold lerp. rewrite Hv. field. split; lra.
        -- pose proof (ascending_head_lt _ _ _ _ _ _ Htl Hi). lra.
    + assert (Hx1 : a1 < value).
      { apply andb_false_iff in E as [E | E].
        - apply Qle_bool_false in E. lra.
        - now apply Qle_bool_false in E. }
      destruct i as [| i].
      * cbn in HSi. injection HSi as <- <-. lra.
      * apply (IH (a1, b1) i x0 y0 x1 y1); auto.
Qed.



(** The division of [interpolate] is never by zero: the loop is entered
    with the value strictly above the first input, and a pair it accepts has
    the value strictly above its first input and at most its second. *)
Lemma interpolate_loop_divisor (value : Q) (bps : Breakpoints) :
  forall (p : Q * Q) (r : Q),
    fst p < value -> interpolate_loop value (p :: bps) = Some r ->
    exists x0 y0 x1 y1, x0 < x1 /\ r = JS.clamp (lerp x0 y0 x1 y1 value).
Proof.
  induction bps as [| [x1 y1] rest IH]; intros [x0 y0] r Hlo Hr.
  - discriminate.
  - cbn [fst] in Hlo. cbn [interpolate_loop] in Hr.
    destruct (Qle_bool x0 value && Qle_bool value x1) eqn:E.
    + injection Hr as <-. apply andb_prop in E as [_ E1]. apply Qle_bool_true in E1.
      exists x0, y0, x1, y1. split; [lra | reflexivity].
    + apply (IH (x1, y1) r); [| exact Hr]. cbn [fst].
      apply andb_false_iff in E as [E | E]; apply Qle_bool_false in E; lra.
Qed.

(** [interpolate] always lands in [0,100], sorted breakpoints or not. *)
Lemma interpolate_loop_range (value : Q) (bps : Breakpoints) (r : Q) :
  interpolate_loop value bps = Some r -> 0 <= r /\ r <= 100.
Proof.
  induction bps as [| [x0 y0] [| [x1 y1] rest] IH]; try discriminate.
  cbn [interpolate_loop].
  destruct (Qle_bool x0 value && Qle_bool value x1).
  - intros [= <-]. apply clamp_range.
  - exact IH.
Qed.

Lemma interpolate_range (value : Q) (bps : Breakpoints) :
  0 <= interpolate value bps /\ interpolate value bps <= 100.
Proof.
  unfold interpolate. destruct bps as [| first rest]; [lra |].
  destruct (Qle_bool value (fst first)); [apply clamp_range |].
  destruct (Qle_bool _ value); [apply clamp_range |].
  destruct (interpolate_loop value (first :: rest)) eqn:E.
  - eapply interpolate_loop_range; eauto.
  - apply clamp_range.
Qed.

End InterpolateFacts.

(** ** Objects *)

Section ObjFacts.
Context {V : Type}.

Lemma keys_set (k : string) (v : V) (o : Obj.t V) :
  (Obj.keys (Obj.set k v o) = Obj.keys o) ∨
  ((k ∉ Obj.keys o) ∧ Obj.keys (Obj.set k v o) = Obj.keys o ++ [k]).
Proof.
  unfold Obj.keys. induction o as [| [k' v'] r IH]; simpl.
  - right. split; [apply not_elem_of_nil | reflexivity].
  - destruct (String.eqb k k') eqn:E.
    + apply String.eqb_eq in E as ->. now left.
    + apply String.eqb_neq in E. simpl.
      destruct IH as [-> | [Hn ->]]; [now left |].
      right. split; [| reflexivity].
      rewrite not_elem_of_cons. auto.
Qed.

Lemma keys_spread_NoDup (a : Obj.t V) (b : option (Obj.t V)) :
  NoDup (Obj.keys a) -> NoDup (Obj.keys (Obj.spread a b)).
Proof.
  destruct b as [b |]; [| auto]. cbn.
  revert a. induction b as [| [k v] b IH]; intros a Ha; [exact Ha |].
  cbn. apply IH.
  destruct (keys_set k v a) as [-> | [Hn ->]]; [exact Ha |].
  apply NoDup_app. repeat split; auto.
  - intros x Hx Hk. apply list_elem_of_singleton in Hk as ->. contradiction.
  - apply NoDup_singleton.
Qed.

Lemma keys_spread_incl (P : string -> Prop) (a : Obj.t V) (b : option (Obj.t V)) :
  Forall P (Obj.keys a) -> Forall P (Obj.keys (default [] b)) ->
  Forall P (Obj.keys (Obj.spread a b)).
Proof.
  destruct b as [b |]; [| auto]. cbn.
  revert a. induction b as [| [k v] b IH]; intros a Ha Hb; [exact Ha |].
  cbn in *. apply Forall_cons in Hb as [Hk Hb]. apply IH; [| exact Hb].
  destruct (keys_set k v a) as [-> | [_ ->]]; [exact Ha |].
  apply Forall_app. split; [exact Ha |]. now constructor.
Qed.

Lemma get_set (k k' : string) (v : V) (o : Obj.t V) :
  Obj.get (Obj.set k v o) k' = if String.eqb k' k then Some v else Obj.get o k'.
Proof.
  induction o as [| [k0 v0] r IH]; cbn.
  - reflexivity.
  - destruct (String.eqb k k0) eqn:E; cbn.
    + apply String.eqb_eq in E as ->. now destruct (String.eqb k' k0).
    + destruct (String.eqb k' k0) eqn:E'; [| exact IH].
      apply String.eqb_eq in E' as ->.
      rewrite String.eqb_sym in E. now rewrite E.
Qed.

Lemma get_In (o : Obj.t V) (k : string) (v : V) :
  NoDup (Obj.keys o) -> (k, v) ∈ o -> Obj.get o k = Some v.
Proof.
  induction o as [| [k' v'] r IH]; intros Hnd Hin.
  - now apply elem_of_nil in Hin.
  - cbn in Hnd. apply NoDup_cons in Hnd as [Hk' Hnd].
    apply elem_of_cons in Hin as [[= -> ->] | Hin]; cbn.
    + now rewrite String.eqb_refl.
    + destruct (String.eqb k k') eqn:E; [| auto].
      apply String.eqb_eq in E as ->. exfalso. apply Hk'.
      apply list_elem_of_fmap. now exists (k', v).
Qed.

Lemma get_keyed (f : string -> V) (ks : list string) (k : string) :
  k ∈ ks -> Obj.get (map (fun key => (key, f key)) ks) k = Some (f k).
Proof.
  induction ks as [| k' r IH]; intros Hin.
  - now apply elem_of_nil in Hin.
  - cbn. destruct (String.eqb k k') eqn:E.
    + now apply String.eqb_eq in E as ->.
    + apply String.eqb_neq in E.
      apply elem_of_cons in Hin as [-> | Hin]; [contradiction | auto].
Qed.

End ObjFacts.

(** ** Sums of possibly-[NaN] numbers *)

Section NumberFacts.
Import Number.

Lemma fold_add_Fin {A} (f : A -> number) (g : A -> Q) (l : list A) (a : Q) :
  Forall (fun x => f x = Fin (g x)) l ->
  fold_left (fun sum x => add sum (f x)) l (Fin a)
  = Fin (fold_left (fun sum x => sum + g x) l a).
Proof.
  revert a. induction l as [| x l IH]; intros a Hl; [reflexivity |].
  apply Forall_cons in Hl as [Hx Hl]. cbn. rewrite Hx. cbn. now apply IH.
Qed.

Lemma fold_add_NaN {A} (f : A -> number) (l : list A) :
  fold_left (fun sum x => add sum (f x)) l NaN = NaN.
Proof. induction l as [| x l IH]; [reflexivity | exact IH]. Qed.

(** A sum that has a [NaN] term is [NaN]. *)
Lemma fold_add_has_NaN {A} (f : A -> number) (l : list A) (a : number) (x : A) :
  x ∈ l -> f x = NaN -> fold_left (fun sum x => add sum (f x)) l a = NaN.
Proof.
  revert a. induction l as [| y l IH]; intros a Hin Hx.
  - now apply elem_of_nil in Hin.
  - cbn. apply elem_of_cons in Hin as [<- | Hin].
    + rewrite Hx. destruct a; apply fold_add_NaN.
    + now apply IH.
Qed.

Lemma fold_plus_shift {A} (g : A -> Q) (l : list A) (a : Q) :
  fold_left (fun sum x => sum + g x) l a
  == a + fold_left (fun sum x => sum + g x) l 0.
Proof.
  revert a. induction l as [| x l IH]; intros a; cbn; [lra |].
  rewrite (IH (a + g x)), (IH (0 + g x)). lra.
Qed.

Lemma fold_plus_ext {A} (g h : A -> Q) (l : list A) (a b : Q) :
  a == b -> Forall (fun x => g x == h x) l ->
  fold_left (fun sum x => sum + g x) l a == fold_left (fun sum x => sum + h x) l b.
Proof.
  revert a b. induction l as [| x l IH]; intros a b Hab Hl; [exact Hab |].
  apply Forall_cons in Hl as [Hx Hl]. cbn. apply IH; [| exact Hl].
  now rewrite Hab, Hx.
Qed.

Lemma fold_left_over_map {A B C} (f : C -> B -> C) (g : A -> B) (l : list A) (c : C) :
  fold_left f (map g l) c = fold_left (fun acc x => f acc (g x)) l c.
Proof. revert c. induction l as [| x l IH]; intros c; [reflexivity | apply IH]. Qed.

Lemma fold_plus_zero {A} (g : A -> Q) (l : list A) :
  Forall (fun x => g x == 0) l -> fold_left (fun sum x => sum + g x) l 0 == 0.
Proof.
  induction l as [| x l IH]; intros Hl; cbn; [reflexivity |].
  apply Forall_cons in Hl as [Hx Hl].
  rewrite fold_plus_shift, (IH Hl), Hx. lra.
Qed.

Lemma fold_plus_scale {A} (g : A -> Q) (c : Q) (l : list A) (a : Q) :
  fold_left (fun sum x => sum + g x * c) l a
  == a + c * fold_left (fun sum x => sum + g x) l 0.
Proof.
  revert a. induction l as [| x l IH]; intros a; cbn; [lra |].
  rewrite IH, (fold_plus_shift g l (0 + g x)). lra.
Qed.

Lemma len_cons {A} (x : A) (l : list A) : JS.len (x :: l) == JS.len l + 1.
Proof.
  unfold JS.len. cbn [length]. rewrite Nat2Z.inj_succ, <- Z.add_1_r.
  now rewrite inject_Z_plus.
Qed.

(** Summing values rounded to 2 decimals moves the sum by at most half a
    hundredth per term. *)
Lemma fold_round2_error {A} (g : A -> Q) (l : list A) (a b : Q) :
  let rounded := fold_left (fun sum x => sum + JS.round2 (g x)) l a in
  let exact := fold_left (fun sum x => sum + g x) l b in
  (a - b) - (1 # 200) * JS.len l <= rounded - exact /\
  rounded - exact <= (a - b) + (1 # 200) * JS.len l.
Proof.
  revert a b. induction l as [| x l IH]; intros a b; cbn zeta.
  - cbn [fold_left]. change (JS.len []) with 0. split; lra.
  - cbn [fold_left]. rewrite len_cons.
    specialize (IH (a + JS.round2 (g x)) (b + g x)). cbn zeta in IH.
    pose proof (round2_error (g x)) as [? ?]. destruct IH as [? ?]. split; lra.
Qed.

End NumberFacts.

(** ** The composite score and its band *)

Section CompositeFacts.
Import HealthScore Number.

Variable input : HealthScoreInput.
Variable customWeights : option (Obj.t Q).
Variable customBreakpoints : option (Obj.t Breakpoints).

Abbreviation keys := (Obj.keys (weights customWeights)).
Abbreviation score := (componentScore input customBreakpoints).
Abbreviation known := (fun k : string => k ∈ component_names).
Abbreviation weightValue := (HealthScore.weightValue customWeights).

Lemma scoreOf_known (k : string) :
  k ∈ component_names ->
  scoreOf input customBreakpoints k = Fin (score k) /\ 0 <= score k /\ score k <= 100.
Proof.
  intros Hk. unfold component_names in Hk.
  repeat (apply elem_of_cons in Hk as [-> | Hk]);
    [ change (score "growth") with (growthScore input customBreakpoints)
    | change (score "attendance") with (attendanceScore input customBreakpoints)
    | change (score "retention") with (retentionScore input customBreakpoints)
    | change (score "momentum") with (momentumScore input customBreakpoints)
    | change (score "diversity") with (diversityScore input customBreakpoints)
    | change (score "youth") with (youthScore input customBreakpoints)
    | now apply elem_of_nil in Hk ];
    (split; [reflexivity |]);
    first [ apply interpolate_range | apply clamp_range ].
Qed.

Lemma scoreOf_unknown (k : string) :
  k ∉ component_names -> scoreOf input customBreakpoints k = NaN.
Proof.
  intros Hk. unfold scoreOf, componentScores. cbn [Obj.get].
  unfold component_names in Hk.
  repeat (rewrite not_elem_of_cons in Hk;
          let Hne := fresh "Hne" in
          destruct Hk as [Hne Hk]; apply String.eqb_neq in Hne; rewrite Hne).
  reflexivity.
Qed.

Lemma weights_NoDup : NoDup keys.
Proof.
  apply keys_spread_NoDup. apply (bool_decide_unpack _). vm_compute. reflexivity.
Qed.

Lemma weights_known :
  Forall known (Obj.keys (default [] customWeights)) -> Forall known keys.
Proof.
  intros H. apply keys_spread_incl; [| exact H].
  apply (bool_decide_unpack _). vm_compute. reflexivity.
Qed.

Lemma weightOf_entry (k : string) (w : Q) :
  (k, w) ∈ weights customWeights -> weightOf customWeights k = Fin w.
Proof.
  intros Hin. unfold weightOf. now rewrite (get_In _ _ _ weights_NoDup Hin).
Qed.

Lemma weightOf_key (k : string) :
  k ∈ keys -> exists w, (k, w) ∈ weights customWeights /\ weightOf customWeights k = Fin w.
Proof.
  intros Hk. apply list_elem_of_fmap in Hk as ([k' w] & -> & Hin).
  exists w. split; [exact Hin | now apply weightOf_entry].
Qed.

Lemma weightOf_value (k : string) :
  k ∈ keys -> weightOf customWeights k = Fin (weightValue k).
Proof.
  intros Hk. destruct (weightOf_key k Hk) as (w & Hin & Hw).
  unfold weightValue. rewrite Hw. unfold weightOf in Hw.
  destruct (Obj.get (weights customWeights) k); [| discriminate].
  cbn in *. congruence.
Qed.

Lemma fold_weighted (f : string -> Q) (l : Obj.t Q) (h : string -> Q) (a : Q) :
  (forall k w, (k, w) ∈ l -> h k == w) ->
  fold_left (fun sum k => sum + f k * h k) (Obj.keys l) a == a + weighted_sum f l.
Proof.
  revert a. induction l as [| [k w] r IH]; intros a Hh; cbn; [lra |].
  rewrite IH.
  - rewrite (Hh k w); [lra | apply elem_of_cons; now left].
  - intros k' w' Hin. apply Hh. apply elem_of_cons. now right.
Qed.

(** With every weight key among the six components, the weighted sum is
    finite and is the sum of score times weight over the weight map. *)
Lemma compositeScore_known :
  Forall known keys ->
  exists c, compositeScore input customWeights customBreakpoints = Fin c /\
            c == weighted_sum score (weights customWeights).
Proof.
  intros Hknown. unfold compositeScore.
  rewrite (fold_add_Fin
             (fun key => mul (scoreOf input customBreakpoints key)
                             (weightOf customWeights key))
             (fun key => score key * weightValue key)).
  - eexists; split; [reflexivity |].
    rewrite fold_weighted; [lra |].
    intros k w Hin. unfold weightValue.
    now rewrite (get_In _ _ _ weights_NoDup Hin).
  - rewrite Forall_forall in Hknown |- *. intros k Hk.
    destruct (scoreOf_known k (Hknown k Hk)) as [-> _].
    now rewrite (weightOf_value k Hk).
Qed.

(** A weight key outside the six components makes the weighted sum [NaN]. *)
Lemma compositeScore_unknown (k : string) :
  k ∈ keys -> k ∉ component_names ->
  compositeScore input customWeights customBreakpoints = NaN.
Proof.
  intros Hk Hn. unfold compositeScore.
  apply (fold_add_has_NaN
           (fun key => mul (scoreOf input customBreakpoints key)
                           (weightOf customWeights key)) _ _ k Hk).
  now rewrite (scoreOf_unknown k Hn).
Qed.

Lemma getBand_Fin (s : Q) :
  (80 <= s -> getBand (Fin s) = thriving) /\
  (65 <= s -> s < 80 -> getBand (Fin s) = healthy) /\
  (50 <= s -> s < 65 -> getBand (Fin s) = stable) /\
  (35 <= s -> s < 50 -> getBand (Fin s) = concerning) /\
  (s < 35 -> getBand (Fin s) = critical).
Proof.
  unfold getBand, geb. repeat Qle_case; repeat split; intros; try reflexivity; lra.
Qed.

End CompositeFacts.

Section CompositeTheorems.
Import HealthScore Number.




End CompositeTheorems.

(** ** Sensitivity *)

Section SensitivityFacts.
Import HealthScore Number.

Variable input : HealthScoreInput.
Variable customWeights : option (Obj.t Q).
Variable customBreakpoints : option (Obj.t Breakpoints).

Abbreviation keys := (Obj.keys (weights customWeights)).
Abbreviation known := (fun k : string => k ∈ component_names).
Abbreviation delta :=
  (fun key => delta_of (upper input customWeights customBreakpoints key)
                       (lower input customWeights customBreakpoints key)).
Abbreviation total := (totalDelta input customWeights customBreakpoints).

Lemma totalDelta_fold :
  total = fold_left (fun sum key => add sum (delta key)) keys (Fin 0).
Proof.
  unfold totalDelta, deltas, Obj.values.
  rewrite map_map, fold_left_over_map. reflexivity.
Qed.

Lemma totalDelta_Fin_inv (t : Q) :
  total = Fin t ->
  Forall (fun key => delta key = Fin (fin_value (delta key))) keys /\
  t = fold_left (fun sum key => sum + fin_value (delta key)) keys 0.
Proof.
  intros Ht.
  assert (Hall : Forall (fun key => delta key = Fin (fin_value (delta key))) keys).
  { rewrite Forall_forall. intros key Hin.
    destruct (delta key) eqn:E; [reflexivity |]. exfalso.
    rewrite totalDelta_fold in Ht.
    rewrite (fold_add_has_NaN (fun key => delta key) _ _ key Hin E) in Ht.
    discriminate. }
  split; [exact Hall |].
  rewrite totalDelta_fold in Ht.
  rewrite (fold_add_Fin (fun key => delta key) (fun key => fin_value (delta key))) in Ht
    by exact Hall.
  now injection Ht as <-.
Qed.

Lemma sensitivity_values :
  Obj.values (sensitivity_map input customWeights customBreakpoints)
  = map (fun key =>
           if gtb total (Fin 0)
           then round2 (mul (div (delta key) total) (Fin 100))
           else Fin 0) keys.
Proof.
  unfold sensitivity_map, Obj.values. rewrite map_map. cbn [snd].
  apply map_ext_in. intros key Hin. apply list_elem_of_In in Hin.
  unfold deltas. now rewrite (get_keyed (fun key => delta key) _ _ Hin).
Qed.

(** A sum of products with weights that are all 0 is 0. *)
Lemma fold_mul_zero_weights (f : string -> number) :
  (forall k, k ∈ keys -> exists q, f k = Fin q) ->
  (forall k w, (k, w) ∈ weights customWeights -> w == 0) ->
  exists u,
    fold_left (fun sum k => add sum (mul (f k) (weightOf customWeights k))) keys (Fin 0)
    = Fin u /\ u == 0.
Proof.
  intros Hf Hzero.
  rewrite (fold_add_Fin (fun k => mul (f k) (weightOf customWeights k))
             (fun k => fin_value (f k) * weightValue customWeights k)).
  - eexists; split; [reflexivity |]. apply fold_plus_zero.
    rewrite Forall_forall. intros k Hk.
    destruct (weightOf_key customWeights k Hk) as (w & Hin & Hw).
    rewrite (weightOf_value customWeights k Hk) in Hw. injection Hw as ->.
    rewrite (Hzero k w Hin). lra.
  - rewrite Forall_forall. intros k Hk.
    destruct (Hf k Hk) as [q ->].
    now rewrite (weightOf_value customWeights k Hk).
Qed.

Lemma delta_zero_weights (key : string) :
  Forall known keys ->
  (forall k w, (k, w) ∈ weights customWeights -> w == 0) ->
  exists d, delta key = Fin d /\ d == 0.
Proof.
  intros Hknown Hzero. rewrite Forall_forall in Hknown.
  destruct (fold_mul_zero_weights
              (fun k => if String.eqb k key
                        then Math_min (Fin 100) (add (scoreOf input customBreakpoints k) (Fin 10))
                        else scoreOf input customBreakpoints k))
    as (u & Hu & Hu0); [| exact Hzero |].
  { intros k Hk. destruct (scoreOf_known input customBreakpoints k (Hknown k Hk)) as [-> _].
    destruct (String.eqb k key); eexists; reflexivity. }
  destruct (fold_mul_zero_weights
              (fun k => if String.eqb k key
                        then Math_max (Fin 0) (sub (scoreOf input customBreakpoints k) (Fin 10))
                        else scoreOf input customBreakpoints k))
    as (l & Hl & Hl0); [| exact Hzero |].
  { intros k Hk. destruct (scoreOf_known input customBreakpoints k (Hknown k Hk)) as [-> _].
    destruct (String.eqb k key); eexists; reflexivity. }
  unfold upper, lower. rewrite Hu, Hl.
  exists (Qabs (u - l)). split; [reflexivity |].
  assert (E : u - l == 0) by lra. now rewrite E.
Qed.

Lemma totalDelta_zero_weights :
  Forall known keys ->
  (forall k w, (k, w) ∈ weights customWeights -> w == 0) ->
  exists t, total = Fin t /\ t == 0.
Proof.
  intros Hknown Hzero. rewrite totalDelta_fold.
  rewrite (fold_add_Fin (fun key => delta key) (fun key => fin_value (delta key))).
  - eexists; split; [reflexivity |]. apply fold_plus_zero.
    rewrite Forall_forall. intros key _.
    destruct (delta_zero_weights key Hknown Hzero) as (d & -> & Hd). exact Hd.
  - rewrite Forall_forall. intros key _.
    now destruct (delta_zero_weights key Hknown Hzero) as (d & -> & _).
Qed.

(** A weight key outside the six components makes every delta, and the
    total, [NaN]. *)
Lemma totalDelta_unknown (k : string) :
  k ∈ keys -> k ∉ component_names -> total = NaN.
Proof.
  intros Hk Hn. rewrite totalDelta_fold.
  apply (fold_add_has_NaN (fun key => delta key) _ _ k Hk).
  unfold delta_of, upper.
  rewrite (fold_add_has_NaN
             (fun k0 => mul (if String.eqb k0 k
                             then Math_min (Fin 100)
                                    (add (scoreOf input customBreakpoints k0) (Fin 10))
                             else scoreOf input customBreakpoints k0)
                            (weightOf customWeights k0)) _ _ k Hk); [reflexivity |].
  rewrite (scoreOf_unknown input customBreakpoints k Hn).
  now destruct (String.eqb k k).
Qed.

Lemma totalDelta_not_positive_zero_weights :
  (forall k w, (k, w) ∈ weights customWeights -> w == 0) ->
  gtb total (Fin 0) = false.
Proof.
  intros Hzero.
  destruct (decide (Forall known keys)) as [Hknown | Hunknown].
  - destruct (totalDelta_zero_weights Hknown Hzero) as (t & -> & Ht).
    cbn. apply negb_false_iff, Qle_bool_iff. lra.
  - apply not_Forall_Exists in Hunknown; [| intros k; apply _].
    apply Exists_exists in Hunknown as (k & Hk & Hn).
    now rewrite (totalDelta_unknown k Hk Hn).
Qed.

End SensitivityFacts.


Section SensitivityTheorems.
Import HealthScore Number.




End SensitivityTheorems.

(** ** The monthly weights *)

Section LookupFacts.
Import Forecast.

Lemma annual_fold_None (annualData : list AnnualData.t) (acc : gmap Z AnnualData.t) (y : Z) :
  fold_left (fun lookup d => <[AnnualData.year d := d]> lookup) annualData acc !! y = None
  <-> acc !! y = None /\ y ∉ map AnnualData.year annualData.
Proof.
  revert acc. induction annualData as [| d l IH]; intros acc; cbn [fold_left map].
  - split; [intros H; split; [exact H | apply not_elem_of_nil] | tauto].
  - rewrite IH, not_elem_of_cons, lookup_insert_None. split.
    + intros [[H1 H2] H3]. repeat split; auto.
    + intros [H1 [H2 H3]]. repeat split; auto.
Qed.

Lemma buildAnnualLookup_None (annualData : list AnnualData.t) (y : Z) :
  buildAnnualLookup annualData !! y = None <-> y ∉ map AnnualData.year annualData.
Proof.
  unfold buildAnnualLookup. rewrite annual_fold_None, lookup_empty. tauto.
Qed.

Lemma monthlyStep_None (acc : gmap Z (list Q)) (d : MonthlyData.t) (y : Z) :
  monthlyStep acc d !! y = None <-> acc !! y = None /\ MonthlyData.year d <> y.
Proof.
  unfold monthlyStep. rewrite lookup_alter_None.
  destruct (acc !! MonthlyData.year d) eqn:E.
  - split.
    + intros H. split; [exact H |]. intros Heq. rewrite Heq in E. congruence.
    + tauto.
  - rewrite lookup_insert_None. tauto.
Qed.

Lemma monthly_fold_None (monthlyData : list MonthlyData.t) (acc : gmap Z (list Q)) (y : Z) :
  fold_left monthlyStep monthlyData acc !! y = None
  <-> acc !! y = None /\ y ∉ map MonthlyData.year monthlyData.
Proof.
  revert acc. induction monthlyData as [| d l IH]; intros acc; cbn [fold_left map].
  - split; [intros H; split; [exact H | apply not_elem_of_nil] | tauto].
  - rewrite IH, not_elem_of_cons, monthlyStep_None. split.
    + intros [[H1 H2] H3]. repeat split; auto.
    + intros [H1 [H2 H3]]. repeat split; auto.
Qed.

(** A year has a monthly array exactly when it has a monthly record. *)
Lemma buildMonthlyLookup_None (monthlyData : list MonthlyData.t) (y : Z) :
  buildMonthlyLookup monthlyData !! y = None <-> y ∉ map MonthlyData.year monthlyData.
Proof.
  unfold buildMonthlyLookup. rewrite monthly_fold_None, lookup_empty. tauto.
Qed.

Lemma add_at_other (index : Z) (count : Q) (slots : list Q) (m : nat) :
  index <> Z.of_nat m -> nth m (add_at index count slots) 0 = nth m slots 0.
Proof.
  intros Hne. unfold add_at.
  destruct ((0 <=? index)%Z && (index <? Z.of_nat (length slots))%Z) eqn:E;
    [| reflexivity].
  apply andb_prop in E as [E0 _]. apply Z.leb_le in E0.
  rewrite !nth_lookup, list_lookup_alter_ne; [reflexivity | lia].
Qed.

Lemma monthlyStep_zero (acc : gmap Z (list Q)) (d : MonthlyData.t) (y : Z) (m : nat) :
  (forall slots, acc !! y = Some slots -> nth m slots 0 = 0) ->
  (MonthlyData.year d =? y)%Z && (MonthlyData.month d - 1 =? Z.of_nat m)%Z = false ->
  forall slots, monthlyStep acc d !! y = Some slots -> nth m slots 0 = 0.
Proof.
  intros Hacc Hd slots. unfold monthlyStep.
  destruct (decide (MonthlyData.year d = y)) as [Heq | Hne].
  - rewrite Heq in Hd |- *.
    rewrite Z.eqb_refl in Hd. cbn [andb] in Hd. apply Z.eqb_neq in Hd.
    rewrite lookup_alter_eq.
    destruct (acc !! y) as [slots0 |] eqn:E.
    + rewrite E. cbn. intros [= <-]. rewrite add_at_other by exact Hd. now apply Hacc.
    + assert (Hz : nth m (replicate 12 0) 0 = 0).
      { rewrite nth_lookup. destruct (replicate 12 0 !! m) eqn:Er; [| reflexivity].
        apply lookup_replicate_1 in Er as [-> _]. reflexivity. }
      rewrite lookup_insert_eq. cbn. intros [= <-].
      rewrite add_at_other by exact Hd. exact Hz.
  - rewrite lookup_alter_ne by exact Hne.
    destruct (acc !! MonthlyData.year d); [apply Hacc |].
    rewrite lookup_insert_ne by exact Hne. apply Hacc.
Qed.

Lemma monthly_fold_zero (monthlyData : list MonthlyData.t) (acc : gmap Z (list Q))
    (y : Z) (m : nat) :
  (forall slots, acc !! y = Some slots -> nth m slots 0 = 0) ->
  has_month_record monthlyData y m = false ->
  forall slots, fold_left monthlyStep monthlyData acc !! y = Some slots -> nth m slots 0 = 0.
Proof.
  revert acc. induction monthlyData as [| d l IH]; intros acc Hacc Hno; cbn [fold_left].
  - exact Hacc.
  - cbn [has_month_record existsb] in Hno. apply orb_false_iff in Hno as [Hd Hl].
    apply IH; [| exact Hl]. now apply monthlyStep_zero.
Qed.

(** A month of a recorded year that has no record of its own counts 0. *)
Lemma buildMonthlyLookup_zero (monthlyData : list MonthlyData.t) (y : Z) (m : nat)
    (slots : list Q) :
  buildMonthlyLookup monthlyData !! y = Some slots ->
  has_month_record monthlyData y m = false ->
  nth m slots 0 = 0.
Proof.
  intros Hs Hno. unfold buildMonthlyLookup in Hs.
  eapply monthly_fold_zero; [| exact Hno | exact Hs].
  intros slots0 H. rewrite lookup_empty in H. discriminate.
Qed.

End LookupFacts.

Section FractionFacts.
Import Forecast.

Lemma fold_alter_notin {A} (g : nat -> A -> A) (ms : list nat) (l : list A) (i : nat) :
  i ∉ ms -> fold_left (fun acc m => alter (g m) m acc) ms l !! i = l !! i.
Proof.
  revert l. induction ms as [| m ms IH]; intros l Hi; [reflexivity |].
  apply not_elem_of_cons in Hi as [Hne Hi]. cbn [fold_left].
  rewrite IH by exact Hi. now apply list_lookup_alter_ne.
Qed.

Lemma fold_alter_in {A} (g : nat -> A -> A) (ms : list nat) (l : list A) (i : nat) :
  NoDup ms -> i ∈ ms ->
  fold_left (fun acc m => alter (g m) m acc) ms l !! i = g i <$> l !! i.
Proof.
  revert l. induction ms as [| m ms IH]; intros l Hnd Hi.
  - now apply elem_of_nil in Hi.
  - apply NoDup_cons in Hnd as [Hm Hnd]. cbn [fold_left].
    destruct (decide (i = m)) as [-> | Hne].
    + rewrite fold_alter_notin by exact Hm. apply list_lookup_alter_eq.
    + apply elem_of_cons in Hi as [-> | Hi]; [contradiction |].
      rewrite IH by assumption. now rewrite list_lookup_alter_ne.
Qed.

Lemma fold_alter_pair {A} (g1 g2 : nat -> A -> A) (ms : list nat) (fr : list A * list A) :
  fold_left (fun fr m => (alter (g1 m) m (fst fr), alter (g2 m) m (snd fr))) ms fr
  = (fold_left (fun acc m => alter (g1 m) m acc) ms (fst fr),
     fold_left (fun acc m => alter (g2 m) m acc) ms (snd fr)).
Proof.
  revert fr. induction ms as [| m ms IH]; intros [l1 l2]; [reflexivity |].
  cbn [fold_left fst snd]. now rewrite IH.
Qed.

(** One reference year pushes one fraction on the list of every month. *)
Lemma push_fractions_lookup (annual : AnnualData.t) (monthly : list Q)
    (fr : list (list Q) * list (list Q)) (m : nat) :
  (m < 12)%nat ->
  fst (push_fractions annual monthly fr) !! m
  = (fun l => l ++ [fraction_of m (annual, monthly)]) <$> fst fr !! m /\
  snd (push_fractions annual monthly fr) !! m
  = (fun l => l ++ [entry_fraction_of m (annual, monthly)]) <$> snd fr !! m.
Proof.
  intros Hm. unfold push_fractions.
  rewrite (fold_alter_pair
             (fun m l => l ++ [nth m monthly 0 / AnnualData.tournaments annual])
             (fun m l => l ++ [if negb (Qle_bool (AnnualData.entries annual) 0)
                               then nth m monthly 0 / AnnualData.tournaments annual
                               else 0])).
  cbn [fst snd].
  assert (Hin : m ∈ seq 0 12) by (apply elem_of_seq; lia).
  rewrite !fold_alter_in by (auto using NoDup_seq). split; reflexivity.
Qed.

Lemma reference_fold (annualData : list AnnualData.t) (monthlyData : list MonthlyData.t)
    (years : list Z) (fr : list (list Q) * list (list Q)) (m : nat) :
  (m < 12)%nat ->
  let result :=
    fold_left (referenceStep (buildAnnualLookup annualData) (buildMonthlyLookup monthlyData))
              years fr in
  let points := omap (contributing_point annualData monthlyData) years in
  fst result !! m = (fun l => l ++ map (fraction_of m) points) <$> fst fr !! m /\
  snd result !! m = (fun l => l ++ map (entry_fraction_of m) points) <$> snd fr !! m.
Proof.
  intros Hm. cbv zeta. revert fr. induction years as [| y years IH]; intros fr.
  - cbn. split.
    + destruct (fst fr !! m); cbn; [now rewrite app_nil_r | reflexivity].
    + destruct (snd fr !! m); cbn; [now rewrite app_nil_r | reflexivity].
  - cbn [fold_left].
    change (omap (contributing_point annualData monthlyData) (y :: years))
      with (match contributing_point annualData monthlyData y with
            | Some p => p :: omap (contributing_point annualData monthlyData) years
            | None => omap (contributing_point annualData monthlyData) years
            end).
    destruct (IH (referenceStep (buildAnnualLookup annualData)
                    (buildMonthlyLookup monthlyData) fr y)) as [IH1 IH2].
    rewrite IH1, IH2. clear IH IH1 IH2.
    unfold referenceStep, contributing_point.
    destruct (buildAnnualLookup annualData !! y) as [annual |]; [| split; reflexivity].
    destruct (buildMonthlyLookup monthlyData !! y) as [monthly |]; [| split; reflexivity].
    destruct (Qeq_bool (AnnualData.tournaments annual) 0); [split; reflexivity |].
    destruct (push_fractions_lookup annual monthly fr m Hm) as [-> ->].
    split.
    + destruct (fst fr !! m); cbn; [now rewrite <- app_assoc | reflexivity].
    + destruct (snd fr !! m); cbn; [now rewrite <- app_assoc | reflexivity].
Qed.

Lemma collect_fractions_spec (annualData : list AnnualData.t)
    (monthlyData : list MonthlyData.t) (referenceYears : list Z) (m : nat) :
  (m < 12)%nat ->
  let points := contributing annualData monthlyData referenceYears in
  fst (collect_fractions annualData monthlyData referenceYears) !! m
  = Some (map (fraction_of m) points) /\
  snd (collect_fractions annualData monthlyData referenceYears) !! m
  = Some (map (entry_fraction_of m) points).
Proof.
  intros Hm. cbv zeta. unfold collect_fractions, contributing.
  destruct (reference_fold annualData monthlyData referenceYears
              (replicate 12 [], replicate 12 []) m Hm) as [-> ->].
  cbn [fst snd]. now rewrite lookup_replicate_2 by exact Hm.
Qed.

End FractionFacts.

Section WeightsTheorems.
Import Forecast.

Variable Math_sqrt : Q -> Q.

(** C6 (as amended).  For every month index [m], the tournament weight, the
    entry weight and the weight standard deviation of that month are the
    mean and the population standard deviation of one fraction per
    contributing reference year.  A reference year contributes to no month
    when it has no annual record, no monthly record at all, or a zero annual
    tournament total; otherwise it contributes to every month, and a month of
    that year without a record of its own contributes the fraction 0. *)
Theorem monthly_weights_spec (annualData : list AnnualData.t)
    (monthlyData : list MonthlyData.t) (referenceYears : option (list Z)) (m : nat) :
  (m < 12)%nat ->
  let points :=
    contributing annualData monthlyData
      (default DEFAULT_REFERENCE_YEARS referenceYears) in
  let w := computeMonthlyWeights Math_sqrt annualData monthlyData referenceYears in
  tournament_weights w !! m = Some (mean (map (fraction_of m) points)) /\
  entry_weights w !! m = Some (mean (map (entry_fraction_of m) points)) /\
  weight_std w !! m = Some (stddev Math_sqrt (map (fraction_of m) points)) /\
  (forall year,
     contributing_point annualData monthlyData year = None <->
     year ∉ map AnnualData.year annualData \/
     year ∉ map MonthlyData.year monthlyData \/
     exists annual, buildAnnualLookup annualData !! year = Some annual /\
                    AnnualData.tournaments annual == 0) /\
  (forall year annual monthly,
     contributing_point annualData monthlyData year = Some (annual, monthly) ->
     has_month_record monthlyData year m = false ->
     nth m monthly 0 = 0 /\ fraction_of m (annual, monthly) == 0).
Proof.
  intros Hm points w.
  destruct (collect_fractions_spec annualData monthlyData
              (default DEFAULT_REFERENCE_YEARS referenceYears) m Hm) as [Ht He].
  fold points in Ht, He.
  split; [| split; [| split; [| split]]].
  - unfold w, computeMonthlyWeights. cbn [tournament_weights].
    change (map mean ?l) with (mean <$> l). now rewrite list_lookup_fmap, Ht.
  - unfold w, computeMonthlyWeights. cbn [entry_weights].
    change (map mean ?l) with (mean <$> l). now rewrite list_lookup_fmap, He.
  - unfold w, computeMonthlyWeights. cbn [weight_std].
    change (map (stddev Math_sqrt) ?l) with (stddev Math_sqrt <$> l).
    now rewrite list_lookup_fmap, Ht.
  - intros year. unfold contributing_point.
    rewrite <- buildAnnualLookup_None, <- buildMonthlyLookup_None.
    destruct (buildAnnualLookup annualData !! year) as [annual |] eqn:Ea;
      [| split; auto].
    destruct (buildMonthlyLookup monthlyData !! year) as [monthly |] eqn:Em;
      [| split; auto].
    destruct (Qeq_bool (AnnualData.tournaments annual) 0) eqn:Et.
    + apply Qeq_bool_iff in Et. split; [| reflexivity].
      intros _. right. right. now exists annual.
    + split; [discriminate |].
      intros [H | [H | (a & [= <-] & H)]]; try discriminate.
      apply Qeq_bool_iff in H. congruence.
  - intros year annual monthly Hc Hno. unfold contributing_point in Hc.
    destruct (buildAnnualLookup annualData !! year) as [a |]; [| discriminate].
    destruct (buildMonthlyLookup monthlyData !! year) as [mo |] eqn:Em; [| discriminate].
    destruct (Qeq_bool (AnnualData.tournaments a) 0); [discriminate |].
    injection Hc as <- <-.
    pose proof (buildMonthlyLookup_zero monthlyData year m mo Em Hno) as Hz.
    split; [exact Hz |]. unfold fraction_of. cbn [fst snd]. rewrite Hz.
    unfold Qdiv. apply Qmult_0_l.
Qed.

End WeightsTheorems.

Section WeightsExamples.
Import Forecast.

Lemma monthly_weights_spec_witness :
  (1 < 12)%nat /\
  tournament_weights
    (computeMonthlyWeights sqrt_floor sample_annual sample_monthly (Some [2022; 2024]%Z))
    !! 1%nat
  = Some (mean (map (fraction_of 1)
                    (contributing sample_annual sample_monthly [2022; 2024]%Z))).
Proof.
  assert (H : (1 < 12)%nat) by lia.
  split; [exact H |].
  exact (proj1 (monthly_weights_spec sqrt_floor sample_annual sample_monthly
                  (Some [2022; 2024]%Z) 1 H)).
Defined.

(** C6 as stated fails: 2024 has a January record only, yet it puts a
    fraction (0) on February's list, halving February's weight; skipping it
    for February would leave one fraction and the weight 0.10. *)
Lemma february_not_skipped :
  has_month_record sample_monthly 2024 1 = false /\
  fst (collect_fractions sample_annual sample_monthly [2022; 2024]%Z) !! 1%nat
  = Some [0.10; 0 # 150] /\
  fractions_skipping_missing_months sample_annual sample_monthly [2022; 2024]%Z 1
  = [0.10] /\
  (exists w,
     tournament_weights
       (computeMonthlyWeights sqrt_floor sample_annual sample_monthly (Some [2022; 2024]%Z))
       !! 1%nat = Some w /\
     w == 0.05 /\
     ~ w == mean (fractions_skipping_missing_months sample_annual sample_monthly
                    [2022; 2024]%Z 1)).
Proof.
  split; [reflexivity |]. split; [vm_compute; reflexivity |].
  split; [vm_compute; reflexivity |].
  exists (1500 # 30000). split; [vm_compute; reflexivity |].
  split; [reflexivity |]. intros E. vm_compute in E. discriminate E.
Qed.

End WeightsExamples.

(** ** The forecast engine: suppression and point projections *)

Section ForecastFacts.
Import Forecast.

Variable Math_sqrt : Q -> Q.

Lemma sum_cons (x : Q) (l : list Q) : JS.sum (x :: l) == x + JS.sum l.
Proof.
  unfold JS.sum. cbn [fold_left].
  change (fold_left Qplus l (0 + x))
    with (fold_left (fun sum v => sum + (fun v => v) v) l (0 + x)).
  rewrite fold_plus_shift. change (fold_left (fun sum v => sum + v) l 0)
    with (fold_left Qplus l 0). lra.
Qed.

(** The cumulative weight of the code is the sum of the first
    [completedMonths] monthly weights. *)
Lemma cumulativeWeight_sum_first (completedMonths : Z) (weights : list Q) :
  (0 <= completedMonths)%Z ->
  cumulativeWeight completedMonths weights
  == sum_first (Z.to_nat completedMonths) weights.
Proof.
  intros Hpos. unfold cumulativeWeight, JS.slice0.
  destruct (completedMonths <? 0)%Z eqn:E; [apply Z.ltb_lt in E; lia |].
  generalize (Z.to_nat completedMonths) as n. clear.
  intros n. revert weights. induction n as [| n IH]; intros [| x l]; try reflexivity.
  cbn [take sum_first]. now rewrite sum_cons, IH.
Qed.

Lemma computeForecast_early (ytdTournaments ytdEntries : Q) (completedMonths : Z)
    (monthlyWeights : MonthlyWeights) (annualData : list AnnualData.t)
    (monthlyData : list MonthlyData.t) (targetYear : Z) :
  (completedMonths < 2)%Z ->
  computeForecast Math_sqrt ytdTournaments ytdEntries completedMonths monthlyWeights
    annualData monthlyData targetYear
  = emptyResult targetYear completedMonths.
Proof.
  intros H. unfold computeForecast. apply Z.ltb_lt in H. now rewrite H.
Qed.

Lemma computeForecast_degenerate (ytdTournaments ytdEntries : Q) (completedMonths : Z)
    (monthlyWeights : MonthlyWeights) (annualData : list AnnualData.t)
    (monthlyData : list MonthlyData.t) (targetYear : Z) :
  cumulativeWeight completedMonths (tournament_weights monthlyWeights) < 0.001
  \/ cumulativeWeight completedMonths (entry_weights monthlyWeights) < 0.001 ->
  computeForecast Math_sqrt ytdTournaments ytdEntries completedMonths monthlyWeights
    annualData monthlyData targetYear
  = emptyResult targetYear completedMonths.
Proof.
  intros H. unfold computeForecast.
  destruct (completedMonths <? 2)%Z; [reflexivity |].
  destruct (Qle_bool 0.001 (cumulativeWeight completedMonths (tournament_weights monthlyWeights)))
    eqn:ET; [| reflexivity].
  destruct (Qle_bool 0.001 (cumulativeWeight completedMonths (entry_weights monthlyWeights)))
    eqn:EE; [| reflexivity].
  apply Qle_bool_true in ET, EE. destruct H; lra.
Qed.

(** Past both guards the result is assembled from the projections, the two
    sets of confidence bounds and the trend line. *)
Lemma computeForecast_projects (ytdTournaments ytdEntries : Q) (completedMonths : Z)
    (monthlyWeights : MonthlyWeights) (annualData : list AnnualData.t)
    (monthlyData : list MonthlyData.t) (targetYear : Z) :
  (2 <= completedMonths)%Z ->
  0.001 <= cumulativeWeight completedMonths (tournament_weights monthlyWeights) ->
  0.001 <= cumulativeWeight completedMonths (entry_weights monthlyWeights) ->
  let cumT := cumulativeWeight completedMonths (tournament_weights monthlyWeights) in
  let cumE := cumulativeWeight completedMonths (entry_weights monthlyWeights) in
  let ratios :=
    backTestRatios annualData monthlyData completedMonths cumT cumE targetYear in
  let u := relativeUncertainty Math_sqrt completedMonths monthlyWeights cumT in
  let boundsT := confidenceBounds Math_sqrt (ytdTournaments / cumT) (fst ratios) u in
  let boundsE := confidenceBounds Math_sqrt (ytdEntries / cumE) (snd ratios) u in
  computeForecast Math_sqrt ytdTournaments ytdEntries completedMonths monthlyWeights
    annualData monthlyData targetYear
  = {| target_year := targetYear;
       months_of_data := completedMonths;
       projected_tournaments := JS.Math_round (ytdTournaments / cumT);
       projected_entries := JS.Math_round (ytdEntries / cumE);
       ci_68_low_tournaments := fst (fst (fst boundsT));
       ci_68_high_tournaments := snd (fst (fst boundsT));
       ci_95_low_tournaments := snd (fst boundsT);
       ci_95_high_tournaments := snd boundsT;
       ci_68_low_entries := fst (fst (fst boundsE));
       ci_68_high_entries := snd (fst (fst boundsE));
       ci_95_low_entries := snd (fst boundsE);
       ci_95_high_entries := snd boundsE;
       method := seasonal_ratio;
       trend_reference := Some (computeTrendLine annualData Tournaments targetYear) |}.
Proof.
  intros Hcm HT HE cumT cumE ratios u boundsT boundsE.
  subst boundsT boundsE u ratios cumT cumE. unfold computeForecast.
  destruct (completedMonths <? 2)%Z eqn:E; [apply Z.ltb_lt in E; lia |].
  apply Qle_bool_iff in HT, HE. cbv zeta. rewrite HT, HE. cbn [negb orb].
  destruct (confidenceBounds Math_sqrt (ytdTournaments / _) _ _) as [[[? ?] ?] ?].
  destruct (confidenceBounds Math_sqrt (ytdEntries / _) _ _) as [[[? ?] ?] ?].
  reflexivity.
Qed.




End ForecastFacts.

(** ** The forecast engine: confidence bands *)

Section ConfidenceFacts.
Import Forecast.

Variable Math_sqrt : Q -> Q.

(** The back-test loop collects the ratios of the qualifying years, in the
    order of [annualData]. *)
Lemma backTest_fold (annualData : list AnnualData.t) (monthlyData : list MonthlyData.t)
    (completedMonths : Z) (cumT cumE : Q) (years : list Z) (ts es : list Q) :
  fold_left
    (backTestStep (buildAnnualLookup annualData) (buildMonthlyLookup monthlyData)
       completedMonths cumT cumE) years (ts, es)
  = (ts ++ tournament_ratios
             (omap (qualifying_point annualData monthlyData completedMonths) years) cumT,
     es ++ entry_ratios
             (omap (qualifying_point annualData monthlyData completedMonths) years) cumE).
Proof.
  revert ts es. induction years as [| y years IH]; intros ts es.
  - cbn. now rewrite !app_nil_r.
  - cbn [fold_left].
    destruct (backTestStep (buildAnnualLookup annualData) (buildMonthlyLookup monthlyData)
                completedMonths cumT cumE (ts, es) y) as [ts' es'] eqn:Estep.
    rewrite IH. clear IH.
    change (omap (qualifying_point annualData monthlyData completedMonths) (y :: years))
      with (match qualifying_point annualData monthlyData completedMonths y with
            | Some p => p :: omap (qualifying_point annualData monthlyData completedMonths) years
            | None => omap (qualifying_point annualData monthlyData completedMonths) years
            end).
    unfold backTestStep in Estep. unfold qualifying_point.
    destruct (buildAnnualLookup annualData !! y) as [annual |];
      [| now injection Estep as <- <-].
    destruct (buildMonthlyLookup monthlyData !! y) as [monthly |];
      [| now injection Estep as <- <-].
    destruct (Qeq_bool (AnnualData.tournaments annual) 0);
      [now injection Estep as <- <- |].
    cbn [orb]. cbv zeta in Estep |- *.
    destruct (Qeq_bool (JS.sum (JS.slice0 completedMonths monthly)) 0);
      [now injection Estep as <- <- |].
    cbn [fst snd] in Estep. injection Estep as <- <-.
    unfold tournament_ratios, entry_ratios. cbn [map List.filter fst snd].
    destruct (negb (Qle_bool (AnnualData.entries annual) 0)); cbn [map];
      now rewrite <- !app_assoc.
Qed.

Lemma backTestRatios_spec (annualData : list AnnualData.t)
    (monthlyData : list MonthlyData.t) (completedMonths : Z) (cumT cumE : Q)
    (targetYear : Z) :
  let points := qualifying annualData monthlyData completedMonths targetYear in
  backTestRatios annualData monthlyData completedMonths cumT cumE targetYear
  = (tournament_ratios points cumT, entry_ratios points cumE).
Proof. cbv zeta. unfold backTestRatios. now rewrite backTest_fold. Qed.

(** What it takes to qualify. *)
Lemma qualifying_spec (annualData : list AnnualData.t) (monthlyData : list MonthlyData.t)
    (completedMonths targetYear : Z) (annual : AnnualData.t) (ytd : Q) :
  (annual, ytd) ∈ qualifying annualData monthlyData completedMonths targetYear <->
  exists (year : Z) (monthly : list Q),
    year ∈ map AnnualData.year annualData /\
    year <> 2020%Z /\ year <> 2021%Z /\ year <> targetYear /\
    buildAnnualLookup annualData !! year = Some annual /\
    buildMonthlyLookup monthlyData !! year = Some monthly /\
    ytd = JS.sum (JS.slice0 completedMonths monthly) /\
    ~ AnnualData.tournaments annual == 0 /\ ~ ytd == 0.
Proof.
  unfold qualifying, backTestYears. rewrite list_elem_of_omap. split.
  - intros (year & Hin & Hq). apply list_elem_of_filter in Hin as [(H0 & H1 & Ht) Hin].
    unfold qualifying_point in Hq.
    destruct (buildAnnualLookup annualData !! year) as [a |] eqn:Ea; [| discriminate].
    destruct (buildMonthlyLookup monthlyData !! year) as [m |] eqn:Em; [| discriminate].
    cbv zeta in Hq.
    destruct (Qeq_bool (AnnualData.tournaments a) 0) eqn:Et; [discriminate |].
    destruct (Qeq_bool (JS.sum (JS.slice0 completedMonths m)) 0) eqn:Ey; [discriminate |].
    cbn in Hq. injection Hq as <- <-.
    exists year, m. repeat split; auto.
    + intros E. apply Qeq_bool_iff in E. congruence.
    + intros E. apply Qeq_bool_iff in E. congruence.
  - intros (year & m & Hin & H0 & H1 & Ht & Ea & Em & -> & Hnt & Hny).
    exists year. split.
    + apply list_elem_of_filter. auto.
    + unfold qualifying_point. rewrite Ea, Em. cbv zeta.
      destruct (Qeq_bool (AnnualData.tournaments annual) 0) eqn:Et;
        [apply Qeq_bool_iff in Et; contradiction |].
      destruct (Qeq_bool (JS.sum (JS.slice0 completedMonths m)) 0) eqn:Ey;
        [apply Qeq_bool_iff in Ey; contradiction |].
      reflexivity.
Qed.

(** The divisors of a back-test ratio are nonzero for a qualifying year. *)
Lemma ratio_divisors (ytd cumulativeWeight : Q) :
  ~ ytd == 0 -> 0.001 <= cumulativeWeight ->
  ~ cumulativeWeight == 0 /\ ~ ytd / cumulativeWeight == 0.
Proof.
  intros Hy Hc. split; [lra |]. intros E. apply Hy.
  assert (Hne : ~ cumulativeWeight == 0) by lra.
  rewrite <- (Qmult_div_r ytd cumulativeWeight Hne).
  rewrite E. ring.
Qed.

(** [stddev] is the population standard deviation. *)
Lemma stddev_population (values : list Q) :
  (2 <= length values)%nat ->
  stddev Math_sqrt values
  = Math_sqrt (JS.sum (map (fun v => (v - mean values) ^ 2) values) / JS.len values).
Proof.
  intros H. unfold stddev. apply Nat.ltb_ge in H. rewrite H. cbv zeta.
  unfold JS.sum. now rewrite fold_left_over_map.
Qed.

Lemma relativeUncertainty_spec (completedMonths : Z) (monthlyWeights : MonthlyWeights)
    (cumT : Q) :
  (0 <= completedMonths)%Z ->
  relativeUncertainty Math_sqrt completedMonths monthlyWeights cumT
  = Math_sqrt (JS.sum (map (fun s => s * s)
                           (take (Z.to_nat completedMonths) (weight_std monthlyWeights))))
    / cumT.
Proof.
  intros H. unfold relativeUncertainty, JS.slice0, JS.sum.
  destruct (completedMonths <? 0)%Z eqn:E; [apply Z.ltb_lt in E; lia |].
  now rewrite fold_left_over_map.
Qed.

Lemma confidenceBounds_ratio (projected : Q) (ratios : list Q) (u : Q) :
  (2 <= length ratios)%nat ->
  confidenceBounds Math_sqrt projected ratios u
  = (JS.Math_round (projected * (mean ratios - stddev Math_sqrt ratios)),
     JS.Math_round (projected * (mean ratios + stddev Math_sqrt ratios)),
     JS.Math_round (projected * (mean ratios - 2 * stddev Math_sqrt ratios)),
     JS.Math_round (projected * (mean ratios + 2 * stddev Math_sqrt ratios))).
Proof. intros H. unfold confidenceBounds. apply Nat.leb_le in H. now rewrite H. Qed.

Lemma confidenceBounds_fallback (projected : Q) (ratios : list Q) (u : Q) :
  (length ratios < 2)%nat ->
  confidenceBounds Math_sqrt projected ratios u
  = (JS.Math_round (projected * (1 - u)), JS.Math_round (projected * (1 + u)),
     JS.Math_round (projected * (1 - 2 * u)), JS.Math_round (projected * (1 + 2 * u))).
Proof. intros H. unfold confidenceBounds. apply Nat.leb_gt in H. now rewrite H. Qed.


End ConfidenceFacts.

(** ** The trend line *)

Section TrendFacts.
Import Forecast.

Lemma eligibleYears_two (annualData : list AnnualData.t) (a b : AnnualData.t) :
  filter (fun d => AnnualData.year d ≠ 2020%Z ∧ AnnualData.year d ≠ 2021%Z) annualData
  = [a; b] ->
  eligibleYears annualData = [a; b] \/ eligibleYears annualData = [b; a].
Proof.
  intros Hf. unfold eligibleYears. rewrite Hf.
  cbn [JS.sort_by JS.insert_by].
  destruct (Qle_bool (inject_Z (AnnualData.year b - AnnualData.year a)) 0);
    unfold JS.slice0; change (4 <? 0)%Z with false; change (Z.to_nat 4) with 4%nat;
    cbn [firstn JS.sort_by JS.insert_by];
    match goal with
    | |- context [Qle_bool ?c 0] => destruct (Qle_bool c 0)
    end; auto.
Qed.

Lemma Qeq_bool_false (x y : Q) : ~ x == y -> Qeq_bool x y = false.
Proof.
  intros H. destruct (Qeq_bool x y) eqn:E; [| reflexivity].
  apply Qeq_bool_iff in E. contradiction.
Qed.

(** The least-squares line of two years with distinct abscissas passes
    through both points. *)
Lemma regression_two_points (p q : AnnualData.t) (metric : Metric) (targetYear : Z) :
  AnnualData.year p <> AnnualData.year q ->
  let t := regression [p; q] metric targetYear in
  slope t * inject_Z (AnnualData.year p) + intercept t == metric_of p metric /\
  slope t * inject_Z (AnnualData.year q) + intercept t == metric_of q metric /\
  (~ metric_of p metric == metric_of q metric -> r_squared t == 1) /\
  (metric_of p metric == metric_of q metric -> r_squared t = 0).
Proof.
  intros Hne.
  assert (Hx : ~ inject_Z (AnnualData.year p) == inject_Z (AnnualData.year q)).
  { intros E. apply Hne. now apply inject_Z_injective. }
  unfold regression.
  cbn [map length seq fold_left at_index nth].
  unfold mean. cbn [length Nat.eqb]. unfold JS.sum, JS.len. cbn [fold_left length].
  change (inject_Z (Z.of_nat 2)) with 2.
  set (xp := inject_Z (AnnualData.year p)) in *.
  set (xq := inject_Z (AnnualData.year q)) in *.
  set (yp := metric_of p metric). set (yq := metric_of q metric).
  set (xm := (0 + xp + xq) / 2). set (ym := (0 + yp + yq) / 2).
  set (num := 0 + (xp - xm) * (yp - ym) + (xq - xm) * (yq - ym)).
  set (den := 0 + (xp - xm) ^ 2 + (xq - xm) ^ 2).
  assert (Hden : den == (xp - xq) * (xp - xq) / 2) by (unfold den, xm; field).
  assert (Hden0 : ~ den == 0).
  { rewrite Hden. intros E.
    assert (E' : (xp - xq) * (xp - xq) == 0).
    { set (sq := (xp - xq) * (xp - xq)) in *.
      assert (Hh : sq / 2 == sq * (1 # 2)) by field. lra. }
    apply Qmult_integral in E'. destruct E'; apply Hx; lra. }
  rewrite (Qeq_bool_false _ _ Hden0). cbn [negb].
  set (sl := num / den). set (ic := ym - sl * xm).
  assert (Hsl : sl * (xq - xp) == yq - yp).
  { unfold sl. rewrite Hden. unfold num, xm, ym. field.
    intros E. apply Hx. lra. }
  assert (E1 : sl * xp + ic == yp).
  { unfold ic, xm, ym. 
    assert (H2 : sl * xp + ((0 + yp + yq) / 2 - sl * ((0 + xp + xq) / 2))
                 == (yp + yq) / 2 - sl * (xq - xp) / 2) by field.
    rewrite H2. 
    assert (H3 : sl * (xq - xp) / 2 == (yq - yp) / 2) by (rewrite Hsl; reflexivity).
    rewrite H3. field. }
  assert (E2 : sl * xq + ic == yq).
  { unfold ic, xm, ym.
    assert (H2 : sl * xq + ((0 + yp + yq) / 2 - sl * ((0 + xp + xq) / 2))
                 == (yp + yq) / 2 + sl * (xq - xp) / 2) by field.
    rewrite H2.
    assert (H3 : sl * (xq - xp) / 2 == (yq - yp) / 2) by (rewrite Hsl; reflexivity).
    rewrite H3. field. }
  cbn [slope intercept r_squared].
  set (ssRes := 0 + (yp - (sl * xp + ic)) ^ 2 + (yq - (sl * xq + ic)) ^ 2).
  set (ssTot := 0 + (yp - ym) ^ 2 + (yq - ym) ^ 2).
  assert (Hres : ssRes == 0) by (unfold ssRes; rewrite E1, E2; field).
  assert (Htot : ssTot == (yp - yq) * (yp - yq) / 2) by (unfold ssTot, ym; field).
  split; [exact E1 |]. split; [exact E2 |]. split.
  - intros Hy.
    assert (Htot0 : ~ ssTot == 0).
    { rewrite Htot. intros E.
      assert (E' : (yp - yq) * (yp - yq) == 0).
      { set (sq := (yp - yq) * (yp - yq)) in *.
        assert (Hh : sq / 2 == sq * (1 # 2)) by field. lra. }
      apply Qmult_integral in E'. destruct E'; apply Hy; lra. }
    rewrite (Qeq_bool_false _ _ Htot0). cbn [negb]. rewrite Hres. field. exact Htot0.
  - intros Hy.
    assert (Htot0 : ssTot == 0) by (rewrite Htot, Hy; field).
    apply Qeq_bool_iff in Htot0. now rewrite Htot0.
Qed.




End TrendFacts.

Section ForecastWitnesses.
Import Forecast.





End ForecastWitnesses.

(** ** Calibration *)

Section CalibrationFacts.
Import Calibration.

Lemma insert_by_elem {A} (cmp : A -> A -> Q) (x y : A) (l : list A) :
  y ∈ JS.insert_by cmp x l <-> y = x \/ y ∈ l.
Proof.
  induction l as [| z l IH]; cbn [JS.insert_by].
  - rewrite list_elem_of_singleton, elem_of_nil. tauto.
  - destruct (Qle_bool (cmp x z) 0).
    + now rewrite elem_of_cons.
    + rewrite !elem_of_cons, IH. tauto.
Qed.

(** Sorting keeps the elements. *)
Lemma sort_by_elem {A} (cmp : A -> A -> Q) (y : A) (l : list A) :
  y ∈ JS.sort_by cmp l <-> y ∈ l.
Proof.
  induction l as [| x l IH]; cbn [JS.sort_by]; [reflexivity |].
  now rewrite insert_by_elem, elem_of_cons, IH.
Qed.

Lemma ranked_elem (results : list VersionResult) (r : VersionResult) :
  r ∈ rankedVersions results <-> r ∈ results /\ exists m, mae r = Some m.
Proof.
  unfold rankedVersions. rewrite sort_by_elem, list_elem_of_In, filter_In.
  rewrite <- list_elem_of_In. unfold has_mae.
  destruct (mae r) as [m |]; split; intros [H1 H2]; split; eauto.
  - discriminate.
  - destruct H2 as [m H2]. discriminate.
Qed.

(** The loop over the observations counts the matched periods. *)
Lemma match_fold_count (versionScores : list ShadowScore.t)
    (observations : list Observation.t) (acc : Q * nat) :
  snd (fold_left (matchStep versionScores) observations acc)
  = (snd acc + length (matchedPeriods versionScores observations))%nat.
Proof.
  revert acc. induction observations as [| obs l IH]; intros acc; cbn [fold_left].
  - cbn. lia.
  - rewrite IH. unfold matchStep, matchedPeriods. cbn [List.filter].
    destruct (0 <? length (matchingScores versionScores obs))%nat; cbn [snd length]; lia.
Qed.

Lemma versionResult_matched (observations : list Observation.t)
    (shadowScores : list ShadowScore.t) (version : MethodologyVersion.t) :
  let versionScores :=
    filter (fun s => ShadowScore.methodology_version s
                     = MethodologyVersion.version_number version) shadowScores in
  let r := versionResult observations shadowScores version in
  observations_matched r = length (matchedPeriods versionScores observations) /\
  (observations_matched r = 0%nat <-> mae r = None).
Proof.
  cbv zeta. unfold versionResult.
  pose proof (match_fold_count
                (filter (fun s => ShadowScore.methodology_version s
                                  = MethodologyVersion.version_number version) shadowScores)
                observations (0, 0%nat)) as Hc.
  destruct (fold_left _ observations (0, 0%nat)) as [totalError matchCount].
  cbn [snd] in Hc. cbn [observations_matched mae]. split; [lia |].
  destruct matchCount as [| k]; cbn; split; auto; discriminate.
Qed.

(** C9.  With fewer than 3 observations (none, one or two, or a null result
    set) calibration answers with the count-deficiency error and the number
    of observations, computes no result for any version and writes no MAE.
    Otherwise, every version is given a result; a version whose shadow
    scores fall in no observation period has a null MAE, is not among the
    ranked versions, and gets no MAE written; the recommendation is read off
    the head of the ranking, all of whose members have an MAE. *)
Theorem calibration_spec (observations : option (list Observation.t))
    (versions : option (list MethodologyVersion.t))
    (shadowScores : option (list ShadowScore.t)) :
  let count := length (default [] observations) in
  let results :=
    map (versionResult (default [] observations) (default [] shadowScores))
        (default [] versions) in
  ((count < 3)%nat ->
   POST true observations versions shadowScores = (NeedObservations count, [])) /\
  ((3 <= count)%nat ->
   (exists recommendation,
      POST true observations versions shadowScores
      = (Calibrated results recommendation count, updates results) /\
      recommendation
      = match rankedVersions results with
        | best :: _ => LowestMAE (version_number best) (mae_value best)
        | [] => InsufficientShadowScores
        end) /\
   (forall r, r ∈ rankedVersions results -> exists m, mae r = Some m) /\
   (forall version, version ∈ default [] versions ->
      let versionScores :=
        filter (fun s => ShadowScore.methodology_version s
                         = MethodologyVersion.version_number version)
               (default [] shadowScores) in
      let r := versionResult (default [] observations) (default [] shadowScores) version in
      r ∈ results /\
      (matchedPeriods versionScores (default [] observations) = [] ->
       observations_matched r = 0%nat /\ mae r = None /\
       (r ∉ rankedVersions results) /\
       (forall m, {| for_version := version_number r; backtest_mae := m |} ∈ updates results ->
          exists r', r' ∈ results /\ version_number r' = version_number r /\
                     mae r' = Some m)))).
Proof.
  intros count results. split.
  - intros Hlt. subst count results. unfold POST. cbn [negb].
    destruct observations as [obs |]; [| reflexivity].
    change (default [] (Some obs)) with obs in *. apply Nat.ltb_lt in Hlt. now rewrite Hlt.
  - intros Hge. split; [| split].
    + subst count results. unfold POST. cbn [negb].
      destruct observations as [obs |]; [| cbn in Hge; lia].
      change (default [] (Some obs)) with obs in *. apply Nat.ltb_ge in Hge. rewrite Hge.
      eexists. split; reflexivity.
    + intros r Hr. now apply ranked_elem in Hr as [_ Hm].
    + intros version Hv versionScores r.
      assert (Hin : r ∈ results).
      { unfold results. apply list_elem_of_fmap. now exists version. }
      split; [exact Hin |]. intros Hnone.
      destruct (versionResult_matched (default [] observations) (default [] shadowScores)
                  version) as [Hcount Hmae].
      fold versionScores r in Hcount, Hmae.
      rewrite Hnone in Hcount. cbn [length] in Hcount.
      split; [exact Hcount |]. split; [now apply Hmae |]. split.
      * intros Hr. apply ranked_elem in Hr as [_ [m Hm]].
        apply Hmae in Hcount. congruence.
      * intros m Hu. unfold updates in Hu.
        apply list_elem_of_In, in_flat_map in Hu as (r' & Hr' & Hu).
        apply list_elem_of_In in Hr'.
        destruct (mae r') as [m' |] eqn:Em; [| now destruct Hu].
        destruct Hu as [Hu | []]. injection Hu as Hv' ->.
        exists r'. auto.
Qed.

Lemma calibration_spec_witness :
  POST true (Some (take 2 sample_observations)) (Some sample_versions) (Some sample_scores)
  = (NeedObservations 2, []) /\
  (exists recommendation,
     POST true (Some sample_observations) (Some sample_versions) (Some sample_scores)
     = (Calibrated
          (map (versionResult sample_observations sample_scores) sample_versions)
          recommendation 3,
        updates (map (versionResult sample_observations sample_scores) sample_versions))).
Proof.
  split.
  - apply (proj1 (calibration_spec (Some (take 2 sample_observations))
                    (Some sample_versions) (Some sample_scores))).
    cbn. lia.
  - destruct (proj2 (calibration_spec (Some sample_observations)
                       (Some sample_versions) (Some sample_scores)))
      as [(recommendation & Hpost & _) _].
    + cbn. lia.
    + exists recommendation. exact Hpost.
Defined.

End CalibrationFacts.

(** ** More on [interpolate] and [getBand] *)

Section InterpolateShape.
Import HealthScore Number.

Lemma clamp_mono (a b : Q) : a <= b -> JS.clamp a <= JS.clamp b.
Proof. intros H. unfold JS.clamp, JS.Math_max, JS.Math_min. repeat Qle_case; lra. Qed.

Lemma ascending_lookup_lt (bps : Breakpoints) (i j : nat) (xi yi xj yj : Q) :
  ascending bps = true -> (i < j)%nat ->
  bps !! i = Some (xi, yi) -> bps !! j = Some (xj, yj) -> xi < xj.
Proof.
  revert i j. induction bps as [| [x0 y0] rest IH]; intros i j Hasc Hij Hi Hj.
  - discriminate.
  - destruct j as [| j]; [lia |]. cbn in Hj.
    destruct i as [| i]; cbn in Hi.
    + injection Hi as <- <-. eapply ascending_head_lt; eauto.
    + apply (IH i j); auto; [now apply ascending_tail in Hasc | lia].
Qed.

Lemma nondecreasing_tail (p : Q * Q) (bps : Breakpoints) :
  nondecreasing_outputs (p :: bps) = true -> nondecreasing_outputs bps = true.
Proof.
  destruct p as [x0 y0]. destruct bps as [| [x1 y1] r]; [reflexivity |].
  cbn [nondecreasing_outputs]. intros H. apply andb_prop in H. tauto.
Qed.

Lemma nondecreasing_lookup_le (bps : Breakpoints) (i j : nat) (xi yi xj yj : Q) :
  nondecreasing_outputs bps = true -> (i <= j)%nat ->
  bps !! i = Some (xi, yi) -> bps !! j = Some (xj, yj) -> yi <= yj.
Proof.
  revert i j xi yi. induction bps as [| [x0 y0] rest IH]; intros i j xi yi Hnd Hij Hi Hj.
  - discriminate.
  - pose proof (nondecreasing_tail _ _ Hnd) as Htl.
    destruct i as [| i]; cbn in Hi.
    + injection Hi as <- <-.
      destruct j as [| j]; cbn in Hj; [injection Hj as <- <-; lra |].
      destruct rest as [| [x1 y1] rest']; [discriminate |].
      cbn [nondecreasing_outputs] in Hnd. apply andb_prop in Hnd as [H01 _].
      apply Qle_bool_true in H01.
      assert (H1j : y1 <= yj) by (apply (IH 0%nat j x1 y1); auto; lia).
      lra.
    + destruct j as [| j]; [lia |]. cbn in Hj.
      apply (IH i j xi yi); auto. lia.
Qed.

Lemma last_lookup {A} (l : list A) (a d : A) :
  (a :: l) !! length l = Some (List.last (a :: l) d).
Proof.
  revert a. induction l as [| b l IH]; intros a; [reflexivity |].
  change (List.last (a :: b :: l) d) with (List.last (b :: l) d).
  cbn [length]. apply (IH b).
Qed.

(** Between two breakpoints the segment stays between their outputs and
    rises with the value. *)
Lemma lerp_between (x0 y0 x1 y1 v : Q) :
  x0 < x1 -> x0 <= v -> v <= x1 -> y0 <= y1 ->
  y0 <= lerp x0 y0 x1 y1 v /\ lerp x0 y0 x1 y1 v <= y1.
Proof.
  intros Hx Hl Hu Hy. unfold lerp.
  set (t := (v - x0) / (x1 - x0)).
  assert (Ht0 : 0 <= t).
  { unfold t. apply Qle_shift_div_l; lra. }
  assert (Ht1 : t <= 1).
  { unfold t. apply Qle_shift_div_r; lra. }
  split; nra.
Qed.

Lemma lerp_mono (x0 y0 x1 y1 v v' : Q) :
  x0 < x1 -> y0 <= y1 -> v <= v' ->
  lerp x0 y0 x1 y1 v <= lerp x0 y0 x1 y1 v'.
Proof.
  intros Hx Hy Hv. unfold lerp.
  assert (Ht : (v - x0) / (x1 - x0) <= (v' - x0) / (x1 - x0)).
  { unfold Qdiv. apply Qmult_le_compat_r; [lra |].
    apply Qlt_le_weak, Qinv_lt_0_compat. lra. }
  nra.
Qed.

(** The three ways [interpolate] answers on a non-empty list. *)
Lemma interpolate_cases (value : Q) (p : Q * Q) (rest : Breakpoints) :
  let final := List.last (p :: rest) p in
  (value <= fst p /\ interpolate value (p :: rest) = JS.clamp (snd p)) \/
  (fst p < value /\ fst final <= value /\
   interpolate value (p :: rest) = JS.clamp (snd final)) \/
  (fst p < value /\ value < fst final /\
   exists (i : nat) (x0 y0 x1 y1 : Q),
     (p :: rest) !! i = Some (x0, y0) /\ (p :: rest) !! S i = Some (x1, y1) /\
     x0 < value /\ value <= x1 /\
     interpolate value (p :: rest) = JS.clamp (lerp x0 y0 x1 y1 value)).
Proof.
  cbv zeta. cbn [interpolate].
  destruct (Qle_bool value (fst p)) eqn:E0;
    [apply Qle_bool_true in E0 | apply Qle_bool_false in E0].
  - left. auto.
  - right.
    destruct (Qle_bool (fst (List.last (p :: rest) p)) value) eqn:E1;
      [apply Qle_bool_true in E1 | apply Qle_bool_false in E1].
    + left. auto.
    + right. split; [exact E0 |]. split; [exact E1 |].
      destruct (interpolate_loop_finds value p rest E0 E1)
        as (i & x0 & y0 & x1 & y1 & Hi & HSi & Hl & Hu & Hr).
      exists i, x0, y0, x1, y1. rewrite Hr. auto.
Qed.

(** With outputs that never decrease, every result lies between the first
    and the last output (clamped). *)
Lemma interpolate_between_ends (value : Q) (p : Q * Q) (rest : Breakpoints) :
  ascending (p :: rest) = true -> nondecreasing_outputs (p :: rest) = true ->
  JS.clamp (snd p) <= interpolate value (p :: rest) /\
  interpolate value (p :: rest) <= JS.clamp (snd (List.last (p :: rest) p)).
Proof.
  intros Hasc Hnd.
  pose proof (last_lookup rest p p) as Hlast.
  destruct (List.last (p :: rest) p) as [xl yl] eqn:El. destruct p as [xf yf].
  assert (Hends : yf <= yl).
  { apply (nondecreasing_lookup_le ((xf, yf) :: rest) 0 (length rest) xf yf xl yl);
      auto; lia. }
  pose proof (interpolate_cases value (xf, yf) rest) as Hc. cbv zeta in Hc.
  rewrite El in Hc. cbn [fst snd] in *.
  destruct Hc as [[_ ->] | [(_ & _ & ->) | (_ & _ & i & x0 & y0 & x1 & y1 & Hi & HSi & Hl & Hu & ->)]].
  - split; [lra | now apply clamp_mono].
  - split; [now apply clamp_mono | lra].
  - assert (Hx : x0 < x1) by lra.
    assert (Hy : y0 <= y1).
    { apply (nondecreasing_lookup_le ((xf, yf) :: rest) i (S i) x0 y0 x1 y1); auto. }
    destruct (lerp_between x0 y0 x1 y1 value Hx ltac:(lra) Hu Hy) as [Hlo Hhi].
    assert (Hf : yf <= y0).
    { apply (nondecreasing_lookup_le ((xf, yf) :: rest) 0 i xf yf x0 y0); auto. lia. }
    assert (Hl1 : y1 <= yl).
    { apply (nondecreasing_lookup_le ((xf, yf) :: rest) (S i) (length rest) x1 y1 xl yl);
        auto.
      apply lookup_lt_Some in HSi. cbn [length] in HSi. lia. }
    split; apply clamp_mono; lra.
Qed.






(** X4.  a higher composite never gets a worse band, and [NaN] gets the
    worst one. *)
Theorem getBand_monotone (s s' : Q) :
  s <= s' ->
  (band_rank (getBand (Fin s)) <= band_rank (getBand (Fin s')))%nat /\
  getBand NaN = critical.
Proof.
  intros H. split; [| reflexivity].
  unfold getBand, geb. repeat Qle_case; cbn [band_rank]; try lia; lra.
Qed.

Lemma getBand_monotone_witness :
  (band_rank (getBand (Fin 49.99)) <= band_rank (getBand (Fin 50)))%nat.
Proof. apply (getBand_monotone 49.99 50). lra. Defined.

End InterpolateShape.

(** ** Merged configuration and the shape of the result *)

Section MergeFacts.
Context {V : Type}.

Lemma get_None (o : Obj.t V) (k : string) : k ∉ Obj.keys o -> Obj.get o k = None.
Proof.
  unfold Obj.keys. induction o as [| [k' v] r IH]; intros Hk; [reflexivity |].
  cbn in Hk |- *. apply not_elem_of_cons in Hk as [Hne Hk].
  apply String.eqb_neq in Hne. rewrite Hne. now apply IH.
Qed.

Lemma get_fold_set (b a : Obj.t V) (k : string) :
  NoDup (Obj.keys b) ->
  Obj.get (fold_left (fun acc kv => Obj.set (fst kv) (snd kv) acc) b a) k
  = match Obj.get b k with Some v => Some v | None => Obj.get a k end.
Proof.
  revert a. induction b as [| [k0 v0] b IH]; intros a Hnd; [reflexivity |].
  cbn in Hnd. apply NoDup_cons in Hnd as [Hk0 Hnd].
  cbn [fold_left fst snd Obj.get]. rewrite (IH _ Hnd), get_set.
  destruct (String.eqb k k0) eqn:E; [| reflexivity].
  apply String.eqb_eq in E as ->. now rewrite (get_None b k0 Hk0).
Qed.

Lemma keys_fold_set (b a : Obj.t V) :
  exists extra,
    Obj.keys (fold_left (fun acc kv => Obj.set (fst kv) (snd kv) acc) b a)
    = Obj.keys a ++ extra /\
    forall k, k ∈ extra <-> k ∈ Obj.keys b /\ k ∉ Obj.keys a.
Proof.
  revert a. induction b as [| [k0 v0] b IH]; intros a.
  - exists []. cbn. rewrite app_nil_r. split; [reflexivity |].
    intros k. rewrite !elem_of_nil. tauto.
  - cbn [fold_left fst snd]. destruct (IH (Obj.set k0 v0 a)) as (extra & Hk & Hex).
    destruct (keys_set k0 v0 a) as [Hsame | [Hnew Happ]].
    + exists extra. rewrite Hk, Hsame. split; [reflexivity |].
      intros k. rewrite Hex, Hsame. cbn. rewrite elem_of_cons.
      assert (Hin : k0 ∈ Obj.keys a).
      { rewrite <- Hsame. unfold Obj.keys.
        clear. induction a as [| [k' v'] r IHa]; cbn.
        - apply elem_of_cons. now left.
        - destruct (String.eqb k0 k'); cbn; apply elem_of_cons; auto. }
      split; [tauto |]. intros [[-> | H] Hn]; [contradiction | tauto].
    + exists (k0 :: extra). rewrite Hk, Happ, <- app_assoc. split; [reflexivity |].
      intros k. rewrite elem_of_cons, Hex, Happ, elem_of_app, list_elem_of_singleton.
      cbn. rewrite elem_of_cons. split.
      * intros [-> | [H1 H2]]; [tauto |]. split; [tauto |]. intros H. apply H2. now left.
      * intros [[-> | H1] H2]; [now left |].
        destruct (decide (k = k0)) as [-> | Hne]; [now left |].
        right. split; [exact H1 |]. intros [H | H]; [contradiction | contradiction].
Qed.

End MergeFacts.

Section ResultShape.
Import HealthScore Number.

(** X5.  an override replaces a default weight or breakpoint list key by
    key: a key the override names takes the override's value, every other
    key keeps its default, and no default key is ever lost. *)
Theorem overrides_merge_per_key (customWeights : option (Obj.t Q))
    (customBreakpoints : option (Obj.t Breakpoints)) (k : string) :
  NoDup (Obj.keys (default [] customWeights)) ->
  NoDup (Obj.keys (default [] customBreakpoints)) ->
  Obj.get (weights customWeights) k
  = match Obj.get (default [] customWeights) k with
    | Some w => Some w
    | None => Obj.get DEFAULT_WEIGHTS k
    end /\
  Obj.get (breakpoints customBreakpoints) k
  = match Obj.get (default [] customBreakpoints) k with
    | Some b => Some b
    | None => Obj.get DEFAULT_BREAKPOINTS k
    end /\
  (k ∈ component_names ->
   is_Some (Obj.get (weights customWeights) k) /\
   is_Some (Obj.get (breakpoints customBreakpoints) k)).
Proof.
  intros Hw Hb.
  assert (Ew : Obj.get (weights customWeights) k
               = match Obj.get (default [] customWeights) k with
                 | Some w => Some w
                 | None => Obj.get DEFAULT_WEIGHTS k
                 end).
  { unfold weights, Obj.spread. destruct customWeights as [cw |]; [| reflexivity].
    now apply get_fold_set. }
  assert (Eb : Obj.get (breakpoints customBreakpoints) k
               = match Obj.get (default [] customBreakpoints) k with
                 | Some b => Some b
                 | None => Obj.get DEFAULT_BREAKPOINTS k
                 end).
  { unfold breakpoints, Obj.spread. destruct customBreakpoints as [cb |]; [| reflexivity].
    now apply get_fold_set. }
  split; [exact Ew |]. split; [exact Eb |].
  intros Hk. rewrite Ew, Eb.
  assert (Hd : is_Some (Obj.get DEFAULT_WEIGHTS k) /\ is_Some (Obj.get DEFAULT_BREAKPOINTS k)).
  { unfold component_names in Hk.
    repeat (apply elem_of_cons in Hk as [-> | Hk]); try (split; eexists; reflexivity).
    now apply elem_of_nil in Hk. }
  destruct Hd as [Hdw Hdb].
  split.
  - destruct (Obj.get (default [] customWeights) k); [eexists; reflexivity | exact Hdw].
  - destruct (Obj.get (default [] customBreakpoints) k); [eexists; reflexivity | exact Hdb].
Qed.

Lemma overrides_merge_per_key_witness :
  Obj.get (weights (Some heavy_growth_weights)) "growth" = Some 5 /\
  Obj.get (weights (Some heavy_growth_weights)) "youth" = Some 0.10.
Proof.
  assert (Hw : NoDup (Obj.keys (default [] (Some heavy_growth_weights)))).
  { apply (bool_decide_unpack _). vm_compute. reflexivity. }
  assert (Hb : NoDup (Obj.keys (default [] (None : option (Obj.t Breakpoints)))))
    by constructor.
  split.
  - exact (proj1 (overrides_merge_per_key (Some heavy_growth_weights) None "growth" Hw Hb)).
  - exact (proj1 (overrides_merge_per_key (Some heavy_growth_weights) None "youth" Hw Hb)).
Defined.


End ResultShape.

(** ** Sensitivity and the composite under usual weights *)

Section SensitivityShape.
Import HealthScore Number.

Variable input : HealthScoreInput.
Variable customWeights : option (Obj.t Q).
Variable customBreakpoints : option (Obj.t Breakpoints).

Abbreviation keys := (Obj.keys (weights customWeights)).
Abbreviation score := (componentScore input customBreakpoints).
Abbreviation known := (fun k : string => k ∈ component_names).
Abbreviation weightValue := (HealthScore.weightValue customWeights).

(** A sum whose terms vanish away from one key that occurs once. *)
Lemma fold_plus_single (g : string -> Q) (ks : list string) (key : string) :
  NoDup ks -> key ∈ ks -> (forall k, k <> key -> g k == 0) ->
  fold_left (fun sum k => sum + g k) ks 0 == g key.
Proof.
  induction ks as [| k ks IH]; intros Hnd Hin Hz.
  - now apply elem_of_nil in Hin.
  - apply NoDup_cons in Hnd as [Hk Hnd]. cbn [fold_left].
    rewrite fold_plus_shift.
    destruct (decide (k = key)) as [-> | Hne].
    + rewrite fold_plus_zero; [lra |].
      rewrite Forall_forall. intros j Hj. apply Hz. intros ->. contradiction.
    + apply elem_of_cons in Hin as [-> | Hin]; [contradiction |].
      rewrite (Hz k Hne), (IH Hnd Hin Hz). lra.
Qed.

Lemma fold_plus_minus {A} (g h : A -> Q) (l : list A) (a b : Q) :
  fold_left (fun sum x => sum + g x) l a - fold_left (fun sum x => sum + h x) l b
  == (a - b) + fold_left (fun sum x => sum + (g x - h x)) l 0.
Proof.
  revert a b. induction l as [| x l IH]; intros a b; cbn [fold_left]; [lra |].
  rewrite IH, (fold_plus_shift (fun x => g x - h x) l (0 + (g x - h x))). lra.
Qed.

Lemma nudge_span_range (s : Q) : 0 <= s -> s <= 100 -> 10 <= nudge_span s /\ nudge_span s <= 20.
Proof.
  intros H0 H1. unfold nudge_span, JS.Math_min, JS.Math_max. repeat Qle_case; lra.
Qed.

Lemma delta_known (key : string) :
  Forall known keys -> key ∈ keys ->
  exists d,
    delta_of (upper input customWeights customBreakpoints key)
             (lower input customWeights customBreakpoints key) = Fin d /\
    d == Qabs (weightValue key) * nudge_span (score key).
Proof.
  intros Hknown Hkey. rewrite Forall_forall in Hknown.
  set (up := fun k => if String.eqb k key then JS.Math_min 100 (score k + 10) else score k).
  set (lo := fun k => if String.eqb k key then JS.Math_max 0 (score k - 10) else score k).
  assert (Hu : upper input customWeights customBreakpoints key
               = Fin (fold_left (fun sum k => sum + up k * weightValue k) keys 0)).
  { unfold upper. apply fold_add_Fin. rewrite Forall_forall. intros k Hk.
    destruct (scoreOf_known input customBreakpoints k (Hknown k Hk)) as [-> _].
    rewrite (weightOf_value customWeights k Hk). unfold up.
    now destruct (String.eqb k key). }
  assert (Hl : lower input customWeights customBreakpoints key
               = Fin (fold_left (fun sum k => sum + lo k * weightValue k) keys 0)).
  { unfold lower. apply fold_add_Fin. rewrite Forall_forall. intros k Hk.
    destruct (scoreOf_known input customBreakpoints k (Hknown k Hk)) as [-> _].
    rewrite (weightOf_value customWeights k Hk). unfold lo.
    now destruct (String.eqb k key). }
  rewrite Hu, Hl. eexists. split; [reflexivity |].
  rewrite fold_plus_minus.
  rewrite (fold_plus_single
             (fun k => up k * weightValue k - lo k * weightValue k) keys key
             (weights_NoDup customWeights) Hkey).
  - unfold up, lo. rewrite String.eqb_refl.
    destruct (scoreOf_known input customBreakpoints key (Hknown key Hkey)) as (_ & H0 & H1).
    destruct (nudge_span_range (score key) H0 H1) as [Hs _].
    assert (E : 0 - 0 + (JS.Math_min 100 (score key + 10) * weightValue key
                         - JS.Math_max 0 (score key - 10) * weightValue key)
                == weightValue key * nudge_span (score key))
      by (unfold nudge_span; ring).
    rewrite E, Qabs_Qmult. rewrite (Qabs_pos (nudge_span (score key))); [reflexivity | lra].
  - intros k Hne. unfold up, lo. apply String.eqb_neq in Hne. rewrite Hne. ring.
Qed.

Lemma fin_value_delta_nonneg (a b : number) : 0 <= fin_value (delta_of a b).
Proof.
  unfold delta_of, Math_abs, sub, lift1, lift2.
  destruct a, b; cbn [fin_value]; try lra; apply Qabs_nonneg.
Qed.

Lemma fold_plus_nonneg {A} (g : A -> Q) (l : list A) (a : Q) :
  0 <= a -> (forall x, 0 <= g x) -> 0 <= fold_left (fun sum x => sum + g x) l a.
Proof.
  revert a. induction l as [| x l IH]; intros a Ha Hg; [exact Ha |].
  cbn [fold_left]. apply IH; [| exact Hg]. specialize (Hg x). lra.
Qed.

Lemma fold_plus_term_le {A} (g : A -> Q) (l : list A) (x : A) :
  (forall y, 0 <= g y) -> x ∈ l -> g x <= fold_left (fun sum y => sum + g y) l 0.
Proof.
  intros Hg. induction l as [| y l IH]; intros Hin.
  - now apply elem_of_nil in Hin.
  - cbn [fold_left]. rewrite fold_plus_shift.
    apply elem_of_cons in Hin as [<- | Hin].
    + pose proof (fold_plus_nonneg g l 0 ltac:(lra) Hg). lra.
    + specialize (IH Hin). specialize (Hg y). lra.
Qed.

End SensitivityShape.

Section SensitivityTheoremsMore.
Import HealthScore Number.



Lemma sensitivity_values_in_range (input : HealthScoreInput) (customWeights : option (Obj.t Q))
    (customBreakpoints : option (Obj.t Breakpoints)) (methodologyVersion : option Z) :
  Forall (in_range 0 100)
    (Obj.values (sensitivity (computeHealthScore input customWeights customBreakpoints
                                methodologyVersion))).
Proof.
  cbn [computeHealthScore sensitivity]. rewrite sensitivity_values.
  rewrite Forall_forall. intros v Hv. apply list_elem_of_fmap in Hv as (key & -> & Hkey).
  destruct (gtb (totalDelta input customWeights customBreakpoints) (Fin 0)) eqn:Hpos;
    [| cbn; lra].
  destruct (totalDelta input customWeights customBreakpoints) as [t |] eqn:Ht;
    [| discriminate].
  assert (Htpos : 0 < t).
  { cbn in Hpos. apply negb_true_iff in Hpos. now apply Qle_bool_false. }
  destruct (totalDelta_Fin_inv input customWeights customBreakpoints t Ht) as [Hfin Hsum].
  rewrite Forall_forall in Hfin. rewrite (Hfin key Hkey). cbn.
  set (d := fun key =>
              fin_value (delta_of (upper input customWeights customBreakpoints key)
                                  (lower input customWeights customBreakpoints key))) in *.
  assert (Hd0 : 0 <= d key) by apply fin_value_delta_nonneg.
  assert (Hdt : d key <= t).
  { rewrite Hsum. apply (fold_plus_term_le d); [| exact Hkey].
    intros y. apply fin_value_delta_nonneg. }
  change (fin_value (delta_of (upper input customWeights customBreakpoints key)
                              (lower input customWeights customBreakpoints key)))
    with (d key).
  assert (Hq0 : 0 <= d key / t) by (apply Qle_shift_div_l; lra).
  assert (Hq1 : d key / t <= 1) by (apply Qle_shift_div_r; lra).
  apply round2_range; lra.
Qed.




End SensitivityTheoremsMore.

(** ** The lookups of the forecast engine *)

Section LookupTheorems.
Import Forecast.

Lemma add_at_length (index : Z) (count : Q) (slots : list Q) :
  length (add_at index count slots) = length slots.
Proof. unfold add_at. destruct (_ && _); [apply length_alter | reflexivity]. Qed.

Lemma add_at_same (count : Q) (slots : list Q) (m : nat) :
  (m < length slots)%nat ->
  nth m (add_at (Z.of_nat m) count slots) 0 = nth m slots 0 + count.
Proof.
  intros Hm. unfold add_at.
  assert (E : ((0 <=? Z.of_nat m) && (Z.of_nat m <? Z.of_nat (length slots)))%Z = true).
  { apply andb_true_intro. split; [apply Z.leb_le | apply Z.ltb_lt]; lia. }
  rewrite E, Nat2Z.id, !nth_lookup, list_lookup_alter_eq.
  destruct (slots !! m) eqn:Es; [reflexivity |].
  apply lookup_ge_None in Es. lia.
Qed.

Lemma sum_snoc (l : list Q) (x : Q) : JS.sum (l ++ [x]) = JS.sum l + x.
Proof. unfold JS.sum. now rewrite fold_left_app. Qed.

Lemma monthly_lookup_shape (monthlyData : list MonthlyData.t) (y : Z) :
  match buildMonthlyLookup monthlyData !! y with
  | None => y ∉ map MonthlyData.year monthlyData
  | Some slots =>
      y ∈ map MonthlyData.year monthlyData /\ length slots = 12%nat /\
      forall m, (m < 12)%nat -> nth m slots 0 = JS.sum (month_counts monthlyData y m)
  end.
Proof.
  unfold buildMonthlyLookup, month_counts.
  induction monthlyData as [| d l IH] using rev_ind.
  - cbn. rewrite lookup_empty. apply not_elem_of_nil.
  - rewrite fold_left_app. cbn [fold_left].
    set (acc := fold_left monthlyStep l ∅) in *.
    unfold monthlyStep.
    assert (Hyears : forall z, z ∈ map MonthlyData.year (l ++ [d])
                               <-> z ∈ map MonthlyData.year l \/ z = MonthlyData.year d).
    { intros z. rewrite map_app, elem_of_app. cbn. rewrite list_elem_of_singleton. tauto. }
    destruct (decide (MonthlyData.year d = y)) as [Hy | Hy].
    + rewrite Hy. rewrite lookup_alter_eq.
      assert (Hslots0 : exists slots0,
                 match acc !! y with None => <[y := replicate 12 0]> acc | Some _ => acc end
                 !! y = Some slots0 /\ length slots0 = 12%nat /\
                 forall m, (m < 12)%nat ->
                   nth m slots0 0
                   = JS.sum (map MonthlyData.event_count
                               (filter (fun d => MonthlyData.year d = y
                                                 ∧ (MonthlyData.month d - 1)%Z = Z.of_nat m) l))).
      { destruct (acc !! y) as [slots0 |] eqn:E.
        - exists slots0. rewrite E. destruct IH as (_ & Hlen & Hsum). auto.
        - exists (replicate 12 0). rewrite lookup_insert_eq.
          split; [reflexivity |]. split; [reflexivity |]. intros m Hm.
          assert (Hnone : filter (fun d => MonthlyData.year d = y
                                           ∧ (MonthlyData.month d - 1)%Z = Z.of_nat m) l = []).
          { clear -IH. induction l as [| e l IHl]; [reflexivity |].
            cbn in IH. apply not_elem_of_cons in IH as [Hne Hl].
            rewrite filter_cons_False; [now apply IHl | intros [H _]; now apply Hne]. }
          rewrite Hnone. change (JS.sum (map MonthlyData.event_count [])) with 0.
          rewrite nth_lookup, lookup_replicate_2 by exact Hm. reflexivity. }
      destruct Hslots0 as (slots0 & -> & Hlen & Hsum). cbn [fmap option_fmap option_map].
      split; [apply Hyears; now right |].
      split; [now rewrite add_at_length |].
      intros m Hm. rewrite filter_app, map_app.
      destruct (decide ((MonthlyData.month d - 1)%Z = Z.of_nat m)) as [Hm' | Hm'].
      * rewrite filter_cons_True by auto. rewrite filter_nil. cbn [map].
        rewrite sum_snoc, <- Hsum by exact Hm.
        rewrite Hm'. apply add_at_same. lia.
      * rewrite filter_cons_False by (intros [_ H]; contradiction).
        rewrite filter_nil. cbn [map]. rewrite app_nil_r, <- Hsum by exact Hm.
        now apply add_at_other.
    + rewrite lookup_alter_ne by exact Hy.
      assert (E : match acc !! MonthlyData.year d with
                  | None => <[MonthlyData.year d := replicate 12 0]> acc
                  | Some _ => acc
                  end !! y = acc !! y).
      { destruct (acc !! MonthlyData.year d); [reflexivity |].
        now apply lookup_insert_ne. }
      rewrite E. destruct (acc !! y) as [slots |].
      * destruct IH as (Hin & Hlen & Hsum).
        split; [apply Hyears; now left |]. split; [exact Hlen |].
        intros m Hm. rewrite filter_app, map_app.
        rewrite filter_cons_False by (intros [H _]; contradiction).
        rewrite filter_nil. cbn [map]. rewrite app_nil_r. now apply Hsum.
      * rewrite Hyears. intros [H | H]; [contradiction | congruence].
Qed.


(** X11.  the annual lookup answers a year with its last record in
    [annualData], and with nothing when the year has no record. *)
Theorem annual_lookup_last_wins (annualData : list AnnualData.t) (y : Z) :
  buildAnnualLookup annualData !! y
  = last (filter (fun d => AnnualData.year d = y) annualData).
Proof.
  unfold buildAnnualLookup.
  induction annualData as [| d l IH] using rev_ind.
  - cbn. now rewrite lookup_empty.
  - rewrite fold_left_app, filter_app. cbn [fold_left].
    destruct (decide (AnnualData.year d = y)) as [Hy | Hy].
    + rewrite Hy, lookup_insert_eq.
      rewrite filter_cons_True by exact Hy. rewrite filter_nil. now rewrite last_snoc.
    + rewrite lookup_insert_ne by exact Hy.
      rewrite filter_cons_False by exact Hy. rewrite filter_nil, app_nil_r. exact IH.
Qed.

End LookupTheorems.

(** ** The shape of the monthly weights *)

Section WeightsShape.
Import Forecast.

Lemma fold_alter_length {A} (g : nat -> A -> A) (ms : list nat) (l : list A) :
  length (fold_left (fun acc m => alter (g m) m acc) ms l) = length l.
Proof.
  revert l. induction ms as [| m ms IH]; intros l; [reflexivity |].
  cbn [fold_left]. now rewrite IH, length_alter.
Qed.

Lemma push_fractions_length (annual : AnnualData.t) (monthly : list Q)
    (fr : list (list Q) * list (list Q)) :
  length (fst (push_fractions annual monthly fr)) = length (fst fr) /\
  length (snd (push_fractions annual monthly fr)) = length (snd fr).
Proof.
  unfold push_fractions.
  rewrite (fold_alter_pair
             (fun m l => l ++ [nth m monthly 0 / AnnualData.tournaments annual])
             (fun m l => l ++ [if negb (Qle_bool (AnnualData.entries annual) 0)
                               then nth m monthly 0 / AnnualData.tournaments annual
                               else 0])).
  cbn [fst snd]. now rewrite !fold_alter_length.
Qed.

Lemma collect_fractions_length (annualData : list AnnualData.t)
    (monthlyData : list MonthlyData.t) (referenceYears : list Z) :
  length (fst (collect_fractions annualData monthlyData referenceYears)) = 12%nat /\
  length (snd (collect_fractions annualData monthlyData referenceYears)) = 12%nat.
Proof.
  unfold collect_fractions.
  assert (H : forall fr,
             length (fst fr) = 12%nat /\ length (snd fr) = 12%nat ->
             length (fst (fold_left (referenceStep (buildAnnualLookup annualData)
                                       (buildMonthlyLookup monthlyData))
                                    referenceYears fr)) = 12%nat /\
             length (snd (fold_left (referenceStep (buildAnnualLookup annualData)
                                       (buildMonthlyLookup monthlyData))
                                    referenceYears fr)) = 12%nat).
  { induction referenceYears as [| y ys IH]; intros fr Hfr; [exact Hfr |].
    cbn [fold_left]. apply IH. unfold referenceStep.
    destruct (buildAnnualLookup annualData !! y) as [annual |]; [| exact Hfr].
    destruct (buildMonthlyLookup monthlyData !! y) as [monthly |]; [| exact Hfr].
    destruct (Qeq_bool (AnnualData.tournaments annual) 0); [exact Hfr |].
    destruct (push_fractions_length annual monthly fr) as [-> ->]. exact Hfr. }
  apply H. cbn [fst snd]. now rewrite !length_replicate.
Qed.

(** The twelve fraction lists, month by month. *)
Lemma collect_fractions_explicit (annualData : list AnnualData.t)
    (monthlyData : list MonthlyData.t) (referenceYears : list Z) :
  let points := contributing annualData monthlyData referenceYears in
  fst (collect_fractions annualData monthlyData referenceYears)
  = map (fun m => map (fraction_of m) points) (seq 0 12) /\
  snd (collect_fractions annualData monthlyData referenceYears)
  = map (fun m => map (entry_fraction_of m) points) (seq 0 12).
Proof.
  cbv zeta.
  destruct (collect_fractions_length annualData monthlyData referenceYears) as [L1 L2].
  split; apply list_eq; intros i.
  - destruct (decide (i < 12)%nat) as [Hi | Hi].
    + rewrite (proj1 (collect_fractions_spec annualData monthlyData referenceYears i Hi)).
      change (map ?f (seq 0 12)) with (f <$> seq 0 12).
      rewrite list_lookup_fmap, lookup_seq_lt by exact Hi. reflexivity.
    + rewrite !(proj2 (lookup_ge_None _ _)); [reflexivity | | lia].
      rewrite length_map, length_seq. lia.
  - destruct (decide (i < 12)%nat) as [Hi | Hi].
    + rewrite (proj2 (collect_fractions_spec annualData monthlyData referenceYears i Hi)).
      change (map ?f (seq 0 12)) with (f <$> seq 0 12).
      rewrite list_lookup_fmap, lookup_seq_lt by exact Hi. reflexivity.
    + rewrite !(proj2 (lookup_ge_None _ _)); [reflexivity | | lia].
      rewrite length_map, length_seq. lia.
Qed.

Lemma fold_plus_add {A} (g h : A -> Q) (l : list A) :
  fold_left (fun sum x => sum + (g x + h x)) l 0
  == fold_left (fun sum x => sum + g x) l 0 + fold_left (fun sum x => sum + h x) l 0.
Proof.
  induction l as [| x l IH]; cbn [fold_left]; [lra |].
  rewrite (fold_plus_shift (fun x => g x + h x)), (fold_plus_shift g), (fold_plus_shift h), IH.
  lra.
Qed.

Lemma fold_plus_swap {A B} (f : A -> B -> Q) (la : list A) (lb : list B) :
  fold_left (fun sum a => sum + fold_left (fun sum b => sum + f a b) lb 0) la 0
  == fold_left (fun sum b => sum + fold_left (fun sum a => sum + f a b) la 0) lb 0.
Proof.
  induction la as [| a la IH]; cbn [fold_left].
  - symmetry. apply fold_plus_zero. rewrite Forall_forall. intros b _. reflexivity.
  - rewrite fold_plus_shift, IH.
    rewrite (fold_plus_ext
               (fun b => fold_left (fun sum a0 => sum + f a0 b) la (0 + f a b))
               (fun b => f a b + fold_left (fun sum a0 => sum + f a0 b) la 0) lb 0 0);
      [| reflexivity |].
    + rewrite fold_plus_add. lra.
    + rewrite Forall_forall. intros b _.
      rewrite (fold_plus_shift (fun a0 => f a0 b)). lra.
Qed.

Lemma fold_plus_ones {A} (l : list A) :
  fold_left (fun sum _ => sum + 1) l 0 == JS.len l.
Proof.
  induction l as [| x l IH]; [reflexivity |].
  cbn [fold_left]. rewrite (fold_plus_shift (fun _ => 1)), IH, len_cons. lra.
Qed.

Lemma sum_of_slots (slots : list Q) :
  length slots = 12%nat ->
  fold_left (fun sum m => sum + nth m slots 0) (seq 0 12) 0 = JS.sum slots.
Proof.
  intros H.
  do 12 (destruct slots as [| ? slots]; [discriminate |]).
  destruct slots; [reflexivity | discriminate].
Qed.

Lemma contributing_elem (annualData : list AnnualData.t) (monthlyData : list MonthlyData.t)
    (referenceYears : list Z) (annual : AnnualData.t) (slots : list Q) :
  (annual, slots) ∈ contributing annualData monthlyData referenceYears ->
  length slots = 12%nat /\ ~ AnnualData.tournaments annual == 0.
Proof.
  unfold contributing. rewrite list_elem_of_omap. intros (y & _ & Hp).
  unfold contributing_point in Hp.
  destruct (buildAnnualLookup annualData !! y) as [a |]; [| discriminate].
  pose proof (monthly_lookup_shape monthlyData y) as Hm.
  destruct (buildMonthlyLookup monthlyData !! y) as [mo |]; [| discriminate].
  destruct (Qeq_bool (AnnualData.tournaments a) 0) eqn:Et; [discriminate |].
  injection Hp as <- <-. split; [tauto |].
  intros E. apply Qeq_bool_iff in E. congruence.
Qed.

Lemma sum_zeros (l : list Q) : Forall (fun v => v = 0) l -> JS.sum l == 0.
Proof.
  induction l as [| x l IH]; intros H; [reflexivity |].
  apply Forall_cons in H as [-> H]. rewrite sum_cons, (IH H). lra.
Qed.

Lemma mean_nonempty (values : list Q) :
  values <> [] -> mean values = JS.sum values / JS.len values.
Proof. intros H. unfold mean. destruct values; [contradiction | reflexivity]. Qed.

Lemma len_pos {A} (l : list A) : l <> [] -> 0 < JS.len l.
Proof.
  intros H. destruct l as [| x l]; [contradiction |].
  unfold JS.len. cbn [length]. change 0 with (inject_Z 0). rewrite <- Zlt_Qlt. lia.
Qed.

(** When every contributing year's twelve counts add up to its annual
    total, the twelve tournament weights add up to 1. *)
Lemma tournament_weights_sum (annualData : list AnnualData.t)
    (monthlyData : list MonthlyData.t) (referenceYears : list Z) :
  let points := contributing annualData monthlyData referenceYears in
  points <> [] ->
  (forall annual slots, (annual, slots) ∈ points ->
     JS.sum slots == AnnualData.tournaments annual) ->
  JS.sum (map mean (fst (collect_fractions annualData monthlyData referenceYears))) == 1.
Proof.
  intros points Hne Hsum.
  rewrite (proj1 (collect_fractions_explicit annualData monthlyData referenceYears)).
  fold points. rewrite map_map. unfold JS.sum. rewrite fold_left_over_map.
  pose proof (len_pos points Hne) as Hn.
  rewrite (fold_plus_ext
             (fun m => mean (map (fraction_of m) points))
             (fun m => fold_left (fun sum p => sum + fraction_of m p) points 0
                       * / JS.len points) (seq 0 12) 0 0); [| reflexivity |].
  - rewrite fold_plus_scale, fold_plus_swap.
    rewrite (fold_plus_ext
               (fun p => fold_left (fun sum m => sum + fraction_of m p) (seq 0 12) 0)
               (fun _ => 1) points 0 0); [| reflexivity |].
    + rewrite fold_plus_ones. field. lra.
    + rewrite Forall_forall. intros [annual slots] Hin.
      destruct (contributing_elem _ _ _ _ _ Hin) as [Hlen Ht].
      unfold fraction_of. cbn [fst snd].
      change (fun sum m => sum + nth m slots 0 / AnnualData.tournaments annual)
        with (fun sum m => sum + (fun m => nth m slots 0) m * / AnnualData.tournaments annual).
      rewrite fold_plus_scale, (sum_of_slots slots Hlen), (Hsum annual slots Hin).
      field. exact Ht.
  - rewrite Forall_forall. intros m _.
    rewrite mean_nonempty by (destruct points; [contradiction | discriminate]).
    unfold JS.sum, JS.len. rewrite fold_left_over_map, length_map. reflexivity.
Qed.

End WeightsShape.

Section WeightsShapeTheorems.
Import Forecast.

Variable Math_sqrt : Q -> Q.

(** X12.  whatever the data and the reference years, the three weight lists
    have one entry per calendar month. *)
Theorem weights_have_twelve_months (annualData : list AnnualData.t)
    (monthlyData : list MonthlyData.t) (referenceYears : option (list Z)) :
  let w := computeMonthlyWeights Math_sqrt annualData monthlyData referenceYears in
  length (tournament_weights w) = 12%nat /\ length (entry_weights w) = 12%nat /\
  length (weight_std w) = 12%nat.
Proof.
  cbv zeta. unfold computeMonthlyWeights.
  cbn [tournament_weights entry_weights weight_std]. rewrite !length_map.
  destruct (collect_fractions_length annualData monthlyData
              (default DEFAULT_REFERENCE_YEARS referenceYears)) as [-> ->].
  auto.
Qed.

(** X13.  when no reference year contributes (no annual record, no monthly
    record or a zero total for each of them), every weight and every
    standard deviation is 0, and a forecast from these weights is the
    suppressed all-zero result whatever the other arguments. *)
Theorem no_reference_data_suppresses (annualData : list AnnualData.t)
    (monthlyData : list MonthlyData.t) (referenceYears : option (list Z)) :
  contributing annualData monthlyData (default DEFAULT_REFERENCE_YEARS referenceYears) = [] ->
  let w := computeMonthlyWeights Math_sqrt annualData monthlyData referenceYears in
  tournament_weights w = replicate 12 0 /\ entry_weights w = replicate 12 0 /\
  weight_std w = replicate 12 0 /\
  forall ytdTournaments ytdEntries completedMonths annualData' monthlyData' targetYear,
    computeForecast Math_sqrt ytdTournaments ytdEntries completedMonths w
      annualData' monthlyData' targetYear
    = emptyResult targetYear completedMonths.
Proof.
  intros Hnone w.
  destruct (collect_fractions_explicit annualData monthlyData
              (default DEFAULT_REFERENCE_YEARS referenceYears)) as [E1 E2].
  cbv zeta in E1, E2. rewrite Hnone in E1, E2.
  assert (Ht : tournament_weights w = replicate 12 0).
  { unfold w, computeMonthlyWeights. cbn [tournament_weights]. rewrite E1. reflexivity. }
  assert (He : entry_weights w = replicate 12 0).
  { unfold w, computeMonthlyWeights. cbn [entry_weights]. rewrite E2. reflexivity. }
  assert (Hs : weight_std w = replicate 12 0).
  { unfold w, computeMonthlyWeights. cbn [weight_std]. rewrite E1. reflexivity. }
  split; [exact Ht |]. split; [exact He |]. split; [exact Hs |].
  intros ytdT ytdE cm ad' md' ty.
  destruct (Z.lt_ge_cases cm 2) as [Hlt | Hge]; [now apply computeForecast_early |].
  apply computeForecast_degenerate. left. rewrite Ht.
  unfold cumulativeWeight. rewrite sum_zeros; [lra |].
  unfold JS.slice0. destruct (cm <? 0)%Z; apply Forall_take, Forall_replicate; reflexivity.
Qed.


Lemma full_year_projects_totals (annualData : list AnnualData.t)
    (monthlyData : list MonthlyData.t) (referenceYears : option (list Z))
    (ytdTournaments ytdEntries : Q) (annualData' : list AnnualData.t)
    (monthlyData' : list MonthlyData.t) (targetYear : Z) :
  let points :=
    contributing annualData monthlyData (default DEFAULT_REFERENCE_YEARS referenceYears) in
  points <> [] ->
  (forall annual slots, (annual, slots) ∈ points ->
     JS.sum slots == AnnualData.tournaments annual /\ 0 < AnnualData.entries annual) ->
  let result :=
    computeForecast Math_sqrt ytdTournaments ytdEntries 12
      (computeMonthlyWeights Math_sqrt annualData monthlyData referenceYears)
      annualData' monthlyData' targetYear in
  projected_tournaments result = JS.Math_round ytdTournaments /\
  projected_entries result = JS.Math_round ytdEntries.
Proof.
  intros points Hne Hyear result.
  set (w := computeMonthlyWeights Math_sqrt annualData monthlyData referenceYears) in *.
  destruct (collect_fractions_explicit annualData monthlyData
              (default DEFAULT_REFERENCE_YEARS referenceYears)) as [E1 E2].
  cbv zeta in E1, E2. fold points in E1, E2.
  assert (Hsame : entry_weights w = tournament_weights w).
  { unfold w, computeMonthlyWeights. cbn [entry_weights tournament_weights].
    rewrite E1, E2. f_equal. apply map_ext_in. intros m _. apply map_ext_in.
    intros [annual slots] Hin. apply list_elem_of_In in Hin.
    destruct (Hyear annual slots Hin) as [_ Hpos].
    unfold entry_fraction_of, fraction_of. cbn [fst snd].
    destruct (Qle_bool (AnnualData.entries annual) 0) eqn:E; [| reflexivity].
    apply Qle_bool_true in E. lra. }
  assert (Hone : cumulativeWeight 12 (tournament_weights w) == 1).
  { unfold cumulativeWeight, JS.slice0. change (12 <? 0)%Z with false.
    change (Z.to_nat 12) with 12%nat.
    unfold w, computeMonthlyWeights. cbn [tournament_weights].
    rewrite (take_ge (map mean _) 12).
    - apply tournament_weights_sum; [exact Hne |].
      intros annual slots Hin. now destruct (Hyear annual slots Hin).
    - rewrite length_map.
      destruct (collect_fractions_length annualData monthlyData
                  (default DEFAULT_REFERENCE_YEARS referenceYears)) as [-> _].
      lia. }
  assert (Hres := computeForecast_projects Math_sqrt ytdTournaments ytdEntries 12 w
                    annualData' monthlyData' targetYear ltac:(lia)).
  cbv zeta in Hres. rewrite Hsame in Hres.
  unfold result. rewrite Hres by lra.
  cbn [projected_tournaments projected_entries].
  split; apply Math_round_compat; rewrite Hone; field.
Qed.

(** X15.  with such weights, and positive annual entries in every
    contributing year, a forecast made with all 12 months completed projects
    the year-to-date totals themselves, rounded. *)
Theorem full_year_projection (annualData : list AnnualData.t)
    (monthlyData : list MonthlyData.t) (referenceYears : option (list Z))
    (ytdTournaments ytdEntries : Q) (annualData' : list AnnualData.t)
    (monthlyData' : list MonthlyData.t) (targetYear : Z) :
  let points :=
    contributing annualData monthlyData (default DEFAULT_REFERENCE_YEARS referenceYears) in
  points <> [] ->
  (forall annual slots, (annual, slots) ∈ points ->
     JS.sum slots == AnnualData.tournaments annual /\ 0 < AnnualData.entries annual) ->
  let result :=
    computeForecast Math_sqrt ytdTournaments ytdEntries 12
      (computeMonthlyWeights Math_sqrt annualData monthlyData referenceYears)
      annualData' monthlyData' targetYear in
  projected_tournaments result = JS.Math_round ytdTournaments /\
  projected_entries result = JS.Math_round ytdEntries.
Proof.
  apply (full_year_projects_totals annualData monthlyData referenceYears ytdTournaments
           ytdEntries annualData' monthlyData' targetYear).
Qed.

End WeightsShapeTheorems.

Section WeightsShapeWitnesses.
Import Forecast.

Lemma no_reference_data_suppresses_witness :
  contributing sample_annual [] (default DEFAULT_REFERENCE_YEARS None) = [] /\
  computeForecast sqrt_floor 50 300 6
    (computeMonthlyWeights sqrt_floor sample_annual [] None)
    sample_annual sample_monthly 2025
  = emptyResult 2025 6.
Proof.
  assert (H : contributing sample_annual [] (default DEFAULT_REFERENCE_YEARS None) = [])
    by reflexivity.
  split; [exact H |].
  exact (proj2 (proj2 (proj2 (no_reference_data_suppresses sqrt_floor sample_annual []
                                None H)))
           50 300 6%Z sample_annual sample_monthly 2025%Z).
Defined.

Lemma full_year_points :
  contributing full_year_annual full_year_monthly
    (default DEFAULT_REFERENCE_YEARS (Some [2022%Z]))
  = [({| AnnualData.year := 2022; AnnualData.tournaments := 120;
         AnnualData.entries := 600 |},
      [10; 10; 10; 10; 10; 10; 10; 10; 10; 10; 10; 10])].
Proof. vm_compute. reflexivity. Qed.


Lemma full_year_projection_witness :
  projected_tournaments
    (computeForecast sqrt_floor 131 700 12
       (computeMonthlyWeights sqrt_floor full_year_annual full_year_monthly (Some [2022%Z]))
       full_year_annual full_year_monthly 2025)
  = JS.Math_round 131.
Proof.
  apply (full_year_projection sqrt_floor full_year_annual full_year_monthly
           (Some [2022%Z]) 131 700 full_year_annual full_year_monthly 2025).
  - rewrite full_year_points. discriminate.
  - intros annual slots Hin. rewrite full_year_points in Hin.
    apply list_elem_of_singleton in Hin. injection Hin as -> ->.
    split; [reflexivity |]. cbn. lra.
Defined.

End WeightsShapeWitnesses.

(** ** The shape of a forecast *)

Section ForecastShape.
Import Forecast.

Variable Math_sqrt : Q -> Q.

Lemma sum_between (values : list Q) (lo hi : Q) :
  Forall (fun v => lo <= v /\ v <= hi) values ->
  lo * JS.len values <= JS.sum values /\ JS.sum values <= hi * JS.len values.
Proof.
  induction values as [| x l IH]; intros H.
  - change (JS.len []) with 0. change (JS.sum []) with 0. split; lra.
  - apply Forall_cons in H as [[Hlo Hhi] H]. destruct (IH H) as [IHlo IHhi].
    rewrite sum_cons, len_cons. split; lra.
Qed.

Lemma mean_bounds (values : list Q) (lo hi : Q) :
  values <> [] -> Forall (fun v => lo <= v /\ v <= hi) values ->
  lo <= mean values /\ mean values <= hi.
Proof.
  intros Hne H. rewrite (mean_nonempty values Hne).
  pose proof (len_pos values Hne) as Hlen.
  destruct (sum_between values lo hi H) as [Hlo Hhi].
  split.
  - apply Qle_shift_div_l; [exact Hlen | exact Hlo].
  - apply Qle_shift_div_r; [exact Hlen | exact Hhi].
Qed.


Hypothesis Math_sqrt_nonneg : forall q, 0 <= q -> 0 <= Math_sqrt q.

Lemma square_nonneg (x : Q) : 0 <= x ^ 2.
Proof. change (x ^ 2) with (x * x). nra. Qed.

Lemma stddev_nonneg (values : list Q) : 0 <= stddev Math_sqrt values.
Proof.
  unfold stddev. destruct (length values <? 2)%nat eqn:E; [lra |].
  apply Nat.ltb_ge in E. cbv zeta. apply Math_sqrt_nonneg.
  assert (Hne : values <> []) by (intros ->; cbn in E; lia).
  pose proof (len_pos values Hne) as Hlen.
  apply Qle_shift_div_l; [exact Hlen |]. rewrite Qmult_0_l.
  apply (fold_plus_nonneg (fun v => (v - mean values) ^ 2)); [lra |].
  intros v. apply square_nonneg.
Qed.

Lemma relativeUncertainty_nonneg (completedMonths : Z) (monthlyWeights : MonthlyWeights)
    (cumT : Q) :
  0 < cumT -> 0 <= relativeUncertainty Math_sqrt completedMonths monthlyWeights cumT.
Proof.
  intros H. unfold relativeUncertainty. cbv zeta.
  apply Qle_shift_div_l; [exact H |]. rewrite Qmult_0_l.
  apply Math_sqrt_nonneg. apply (fold_plus_nonneg (fun s => s * s)); [lra |].
  intros s. nra.
Qed.

Lemma confidenceBounds_nested (projected : Q) (ratios : list Q) (u : Q) :
  0 <= projected -> 0 <= u ->
  let b := confidenceBounds Math_sqrt projected ratios u in
  snd (fst b) <= fst (fst (fst b)) /\ fst (fst (fst b)) <= snd (fst (fst b)) /\
  snd (fst (fst b)) <= snd b.
Proof.
  intros Hp Hu. cbv zeta. unfold confidenceBounds.
  pose proof (stddev_nonneg ratios) as Hs.
  destruct (2 <=? length ratios)%nat; cbv zeta; cbn [fst snd];
    repeat split; apply Math_round_mono; nra.
Qed.

Lemma confidenceBounds_fallback_around (projected : Q) (ratios : list Q) (u : Q) :
  0 <= projected -> 0 <= u -> (length ratios < 2)%nat ->
  let b := confidenceBounds Math_sqrt projected ratios u in
  fst (fst (fst b)) <= JS.Math_round projected /\
  JS.Math_round projected <= snd (fst (fst b)).
Proof.
  intros Hp Hu Hlen. cbv zeta. rewrite confidenceBounds_fallback by exact Hlen.
  cbn [fst snd]. split; apply Math_round_mono; nra.
Qed.

Lemma quotient_nonneg (a b : Q) : 0 <= a -> 0.001 <= b -> 0 <= a / b.
Proof.
  intros Ha Hb. apply Qle_shift_div_l; [lra |]. rewrite Qmult_0_l. exact Ha.
Qed.

(** X17.  with a square root that is non-negative on non-negative numbers
    and non-negative year-to-date totals, the bounds of every forecast are
    nested for both metrics: 95% low <= 68% low <= 68% high <= 95% high. *)
Theorem forecast_intervals_nested (ytdTournaments ytdEntries : Q) (completedMonths : Z)
    (monthlyWeights : MonthlyWeights) (annualData : list AnnualData.t)
    (monthlyData : list MonthlyData.t) (targetYear : Z) :
  0 <= ytdTournaments -> 0 <= ytdEntries ->
  let result :=
    computeForecast Math_sqrt ytdTournaments ytdEntries completedMonths monthlyWeights
      annualData monthlyData targetYear in
  (ci_95_low_tournaments result <= ci_68_low_tournaments result /\
   ci_68_low_tournaments result <= ci_68_high_tournaments result /\
   ci_68_high_tournaments result <= ci_95_high_tournaments result) /\
  (ci_95_low_entries result <= ci_68_low_entries result /\
   ci_68_low_entries result <= ci_68_high_entries result /\
   ci_68_high_entries result <= ci_95_high_entries result).
Proof.
  intros HT HE result. subst result.
  destruct (Z.lt_ge_cases completedMonths 2) as [Hlt | Hge].
  { rewrite computeForecast_early by exact Hlt. cbn. repeat split; lra. }
  destruct (Qlt_le_dec (cumulativeWeight completedMonths (tournament_weights monthlyWeights))
              0.001) as [Hlow | HcT].
  { rewrite computeForecast_degenerate by (left; exact Hlow). cbn. repeat split; lra. }
  destruct (Qlt_le_dec (cumulativeWeight completedMonths (entry_weights monthlyWeights))
              0.001) as [Hlow | HcE].
  { rewrite computeForecast_degenerate by (right; exact Hlow). cbn. repeat split; lra. }
  pose proof (computeForecast_projects Math_sqrt ytdTournaments ytdEntries completedMonths
                monthlyWeights annualData monthlyData targetYear Hge HcT HcE) as Hres.
  cbv zeta in Hres. rewrite Hres.
  cbn [ci_95_low_tournaments ci_68_low_tournaments ci_68_high_tournaments
       ci_95_high_tournaments ci_95_low_entries ci_68_low_entries ci_68_high_entries
       ci_95_high_entries].
  split; apply confidenceBounds_nested;
    try (apply quotient_nonneg; assumption);
    apply relativeUncertainty_nonneg; lra.
Qed.

(** X18.  past both guards, when fewer than two back-test ratios of a
    metric exist, the 68% interval of that metric contains its point
    projection. *)
Theorem fallback_interval_contains_projection (ytdTournaments ytdEntries : Q)
    (completedMonths : Z) (monthlyWeights : MonthlyWeights)
    (annualData : list AnnualData.t) (monthlyData : list MonthlyData.t) (targetYear : Z) :
  0 <= ytdTournaments -> 0 <= ytdEntries -> (2 <= completedMonths)%Z ->
  let cumT := cumulativeWeight completedMonths (tournament_weights monthlyWeights) in
  let cumE := cumulativeWeight completedMonths (entry_weights monthlyWeights) in
  0.001 <= cumT -> 0.001 <= cumE ->
  let points := qualifying annualData monthlyData completedMonths targetYear in
  let result :=
    computeForecast Math_sqrt ytdTournaments ytdEntries completedMonths monthlyWeights
      annualData monthlyData targetYear in
  ((length points < 2)%nat ->
   ci_68_low_tournaments result <= projected_tournaments result /\
   projected_tournaments result <= ci_68_high_tournaments result) /\
  ((length (entry_ratios points cumE) < 2)%nat ->
   ci_68_low_entries result <= projected_entries result /\
   projected_entries result <= ci_68_high_entries result).
Proof.
  intros HT HE Hge cumT cumE HcT HcE points result. subst result.
  pose proof (computeForecast_projects Math_sqrt ytdTournaments ytdEntries completedMonths
                monthlyWeights annualData monthlyData targetYear Hge HcT HcE) as Hres.
  cbv zeta in Hres. rewrite Hres. clear Hres.
  cbn [ci_68_low_tournaments ci_68_high_tournaments ci_68_low_entries ci_68_high_entries
       projected_tournaments projected_entries].
  fold cumT cumE.
  pose proof (backTestRatios_spec annualData monthlyData completedMonths cumT cumE
                targetYear) as Hspec.
  fold points in Hspec. rewrite Hspec. cbn [fst snd].
  split; intros Hlen; apply confidenceBounds_fallback_around;
    try (apply quotient_nonneg; assumption);
    try (apply relativeUncertainty_nonneg; lra).
  - unfold tournament_ratios. now rewrite length_map.
  - exact Hlen.
Qed.

End ForecastShape.

Section ForecastShapeMore.
Import Forecast.

Lemma Math_round_integer (x : Q) : exists z, JS.Math_round x = inject_Z z.
Proof. unfold JS.Math_round. eauto. Qed.

Lemma confidenceBounds_integers (Math_sqrt : Q -> Q) (projected : Q) (ratios : list Q)
    (u : Q) :
  let b := confidenceBounds Math_sqrt projected ratios u in
  (exists z, fst (fst (fst b)) = inject_Z z) /\ (exists z, snd (fst (fst b)) = inject_Z z) /\
  (exists z, snd (fst b) = inject_Z z) /\ (exists z, snd b = inject_Z z).
Proof.
  cbv zeta. unfold confidenceBounds.
  destruct (2 <=? length ratios)%nat; cbv zeta; cbn [fst snd];
    repeat split; apply Math_round_integer.
Qed.

Lemma computeTrendLine_integer (Math_sqrt : Q -> Q) (annualData : list AnnualData.t)
    (metric : Metric) (targetYear : Z) :
  exists z, projected_value (computeTrendLine annualData metric targetYear) = inject_Z z.
Proof.
  unfold computeTrendLine.
  destruct (length (eligibleYears annualData) <? 2)%nat.
  - exists 0%Z. reflexivity.
  - unfold regression. cbv zeta. cbn [projected_value]. apply Math_round_integer.
Qed.

(** Whatever [Math.sqrt] returns and whatever the inputs, the two
    projections and the eight bounds of a forecast are whole numbers, and so
    is the projected value of its trend reference. *)
Lemma forecast_counts_are_integers (Math_sqrt : Q -> Q) (ytdTournaments ytdEntries : Q)
    (completedMonths : Z) (monthlyWeights : MonthlyWeights)
    (annualData : list AnnualData.t) (monthlyData : list MonthlyData.t) (targetYear : Z) :
  let result :=
    computeForecast Math_sqrt ytdTournaments ytdEntries completedMonths monthlyWeights
      annualData monthlyData targetYear in
  Forall (fun count => exists z, count = inject_Z z)
    [projected_tournaments result; projected_entries result;
     ci_68_low_tournaments result; ci_68_high_tournaments result;
     ci_95_low_tournaments result; ci_95_high_tournaments result;
     ci_68_low_entries result; ci_68_high_entries result;
     ci_95_low_entries result; ci_95_high_entries result] /\
  match trend_reference result with
  | Some trend => exists z, projected_value trend = inject_Z z
  | None => True
  end.
Proof.
  cbv zeta.
  assert (Hempty : forall ty cm,
            Forall (fun count => exists z, count = inject_Z z)
              [projected_tournaments (emptyResult ty cm); projected_entries (emptyResult ty cm);
               ci_68_low_tournaments (emptyResult ty cm);
               ci_68_high_tournaments (emptyResult ty cm);
               ci_95_low_tournaments (emptyResult ty cm);
               ci_95_high_tournaments (emptyResult ty cm);
               ci_68_low_entries (emptyResult ty cm); ci_68_high_entries (emptyResult ty cm);
               ci_95_low_entries (emptyResult ty cm); ci_95_high_entries (emptyResult ty cm)] /\
            match trend_reference (emptyResult ty cm) with
            | Some trend => exists z, projected_value trend = inject_Z z
            | None => True
            end).
  { intros ty cm. cbn. split; [| exact I].
    repeat constructor; exists 0%Z; reflexivity. }
  destruct (Z.lt_ge_cases completedMonths 2) as [Hlt | Hge].
  { rewrite computeForecast_early by exact Hlt. apply Hempty. }
  destruct (Qlt_le_dec (cumulativeWeight completedMonths (tournament_weights monthlyWeights))
              0.001) as [Hlow | HcT].
  { rewrite computeForecast_degenerate by (left; exact Hlow). apply Hempty. }
  destruct (Qlt_le_dec (cumulativeWeight completedMonths (entry_weights monthlyWeights))
              0.001) as [Hlow | HcE].
  { rewrite computeForecast_degenerate by (right; exact Hlow). apply Hempty. }
  pose proof (computeForecast_projects Math_sqrt ytdTournaments ytdEntries completedMonths
                monthlyWeights annualData monthlyData targetYear Hge HcT HcE) as Hres.
  cbv zeta in Hres. rewrite Hres. clear Hres.
  cbn [projected_tournaments projected_entries ci_95_low_tournaments ci_68_low_tournaments
       ci_68_high_tournaments ci_95_high_tournaments ci_95_low_entries ci_68_low_entries
       ci_68_high_entries ci_95_high_entries trend_reference].
  split; [| apply (computeTrendLine_integer Math_sqrt)].
  match goal with
  | |- context [confidenceBounds Math_sqrt (ytdTournaments / ?c) ?r ?u] =>
      pose proof (confidenceBounds_integers Math_sqrt (ytdTournaments / c) r u)
        as (T1 & T2 & T3 & T4)
  end.
  match goal with
  | |- context [confidenceBounds Math_sqrt (ytdEntries / ?c) ?r ?u] =>
      pose proof (confidenceBounds_integers Math_sqrt (ytdEntries / c) r u)
        as (E1 & E2 & E3 & E4)
  end.
  cbv zeta in T1, T2, T3, T4, E1, E2, E3, E4.
  repeat (apply Forall_cons; split); try assumption;
    try apply Math_round_integer. apply Forall_nil. exact I.
Qed.

Lemma sqrt_floor_nonneg (q : Q) : 0 <= q -> 0 <= sqrt_floor q.
Proof.
  intros _. unfold sqrt_floor. change 0 with (inject_Z 0). rewrite <- Zle_Qle.
  apply Z.sqrt_nonneg.
Qed.


Lemma forecast_intervals_nested_witness :
  ci_95_low_tournaments
    (computeForecast sqrt_floor 50 300 2 sample_weights sample_annual sample_monthly 2025)
  <= ci_68_low_tournaments
       (computeForecast sqrt_floor 50 300 2 sample_weights sample_annual sample_monthly 2025).
Proof.
  pose proof (forecast_intervals_nested sqrt_floor sqrt_floor_nonneg 50 300 2 sample_weights
                sample_annual sample_monthly 2025) as H.
  cbv zeta in H. destruct H as [[H _] _]; [lra | lra | exact H].
Defined.

Lemma fallback_interval_contains_projection_witness :
  ci_68_low_tournaments
    (computeForecast sqrt_floor 50 300 6
       (computeMonthlyWeights sqrt_floor full_year_annual full_year_monthly (Some [2022%Z]))
       full_year_annual full_year_monthly 2025)
  <= projected_tournaments
       (computeForecast sqrt_floor 50 300 6
          (computeMonthlyWeights sqrt_floor full_year_annual full_year_monthly
             (Some [2022%Z]))
          full_year_annual full_year_monthly 2025).
Proof.
  pose proof (fallback_interval_contains_projection sqrt_floor sqrt_floor_nonneg 50 300 6
                (computeMonthlyWeights sqrt_floor full_year_annual full_year_monthly
                   (Some [2022%Z]))
                full_year_annual full_year_monthly 2025) as H.
  cbv zeta in H.
  destruct H as [HT _].
  - lra.
  - lra.
  - lia.
  - apply Qle_bool_iff. vm_compute. reflexivity.
  - apply Qle_bool_iff. vm_compute. reflexivity.
  - apply HT. vm_compute. lia.
Defined.

End ForecastShapeMore.

(** ** Sorting, the eligible years and the trend line *)

Section SortFacts.
Context {A : Type} (cmp : A -> A -> Q).

Lemma insert_by_length (x : A) (l : list A) :
  length (JS.insert_by cmp x l) = S (length l).
Proof.
  induction l as [| y l IH]; cbn [JS.insert_by]; [reflexivity |].
  destruct (Qle_bool (cmp x y) 0); cbn [length]; [reflexivity | now rewrite IH].
Qed.

Lemma sort_by_length (l : list A) : length (JS.sort_by cmp l) = length l.
Proof.
  induction l as [| x l IH]; cbn [JS.sort_by]; [reflexivity |].
  rewrite insert_by_length. cbn [length]. now rewrite IH.
Qed.

Hypothesis cmp_total : forall x y, 0 < cmp x y -> cmp y x <= 0.
Hypothesis cmp_trans : forall x y z, cmp x y <= 0 -> cmp y z <= 0 -> cmp x z <= 0.

Lemma insert_by_sorted (x : A) (l : list A) :
  StronglySorted (fun a b => cmp a b <= 0) l ->
  StronglySorted (fun a b => cmp a b <= 0) (JS.insert_by cmp x l).
Proof.
  induction l as [| y l IH]; intros Hs; cbn [JS.insert_by].
  - apply SSorted_cons; [constructor | constructor].
  - apply StronglySorted_inv in Hs as [Hl Hy].
    destruct (Qle_bool (cmp x y) 0) eqn:E.
    + apply Qle_bool_true in E. apply SSorted_cons.
      * now apply SSorted_cons.
      * apply Forall_cons. split; [exact E |].
        rewrite Forall_forall in Hy |- *. intros z Hz. exact (cmp_trans _ _ _ E (Hy z Hz)).
    + apply Qle_bool_false in E. apply SSorted_cons; [now apply IH |].
      rewrite Forall_forall in Hy |- *. intros z Hz.
      apply insert_by_elem in Hz as [-> | Hz]; [now apply cmp_total | now apply Hy].
Qed.

Lemma sort_by_sorted (l : list A) :
  StronglySorted (fun a b => cmp a b <= 0) (JS.sort_by cmp l).
Proof.
  induction l as [| x l IH]; cbn [JS.sort_by]; [constructor |].
  now apply insert_by_sorted.
Qed.

End SortFacts.

Section TrendShape.
Import Forecast.

Lemma StronglySorted_weaken {A} (R R' : A -> A -> Prop) (l : list A) :
  (forall a b, R a b -> R' a b) -> StronglySorted R l -> StronglySorted R' l.
Proof.
  intros HR. induction 1 as [| a l Hl IH Ha]; [constructor |].
  apply SSorted_cons; [exact IH |].
  rewrite Forall_forall in Ha |- *. intros b Hb. apply HR, Ha, Hb.
Qed.

Lemma year_difference_le (a b : Z) : inject_Z (a - b) <= 0 <-> (a <= b)%Z.
Proof. change 0 with (inject_Z 0). rewrite <- Zle_Qle. lia. Qed.

Lemma year_difference_lt (a b : Z) : 0 < inject_Z (a - b) <-> (b < a)%Z.
Proof. change 0 with (inject_Z 0). rewrite <- Zlt_Qlt. lia. Qed.

Lemma by_year_sorted (key : AnnualData.t -> AnnualData.t -> Z) (l : list AnnualData.t) :
  (forall a b, (0 < key a b -> key b a <= 0)%Z) ->
  (forall a b c, (key a b <= 0 -> key b c <= 0 -> key a c <= 0)%Z) ->
  StronglySorted (fun a b => (key a b <= 0)%Z)
    (JS.sort_by (fun a b => inject_Z (key a b)) l).
Proof.
  intros Htotal Htrans.
  apply (StronglySorted_weaken (fun a b => inject_Z (key a b) <= 0)).
  - intros a b H. change 0 with (inject_Z 0) in H. now rewrite <- Zle_Qle in H.
  - apply sort_by_sorted.
    + intros x y H. change 0 with (inject_Z 0) in H |- *.
      rewrite <- Zlt_Qlt in H. rewrite <- Zle_Qle. now apply Htotal.
    + intros x y z H1 H2. change 0 with (inject_Z 0) in H1, H2 |- *.
      rewrite <- Zle_Qle in H1, H2 |- *. now apply (Htrans x y z).
Qed.

Lemma eligible_years_shape (annualData : list AnnualData.t) :
  let candidates :=
    filter (fun d => AnnualData.year d ≠ 2020%Z ∧ AnnualData.year d ≠ 2021%Z) annualData in
  let eligible := eligibleYears annualData in
  length eligible = Nat.min 4 (length candidates) /\
  (forall d, d ∈ eligible ->
     d ∈ annualData /\ AnnualData.year d <> 2020%Z /\ AnnualData.year d <> 2021%Z) /\
  StronglySorted (fun a b => (AnnualData.year a <= AnnualData.year b)%Z) eligible /\
  (forall d d', d ∈ eligible -> d' ∈ candidates -> d' ∉ eligible ->
     (AnnualData.year d' <= AnnualData.year d)%Z).
Proof.
  intros candidates eligible.
  set (recent := JS.sort_by (fun a b => inject_Z (AnnualData.year b - AnnualData.year a))
                   candidates).
  assert (He : eligible
               = JS.sort_by (fun a b => inject_Z (AnnualData.year a - AnnualData.year b))
                   (take 4 recent)) by reflexivity.
  assert (Hin : forall d, d ∈ eligible <-> d ∈ take 4 recent).
  { intros d. rewrite He. apply sort_by_elem. }
  assert (Hrecent : forall d, d ∈ recent <-> d ∈ candidates).
  { intros d. apply sort_by_elem. }
  split; [| split; [| split]].
  - rewrite He, sort_by_length, length_take. unfold recent. now rewrite sort_by_length.
  - intros d Hd. apply Hin in Hd.
    assert (Hd' : d ∈ recent).
    { rewrite <- (take_drop 4 recent). apply elem_of_app. now left. }
    apply Hrecent in Hd'. unfold candidates in Hd'.
    apply list_elem_of_filter in Hd' as [[H20 H21] Hd']. auto.
  - rewrite He.
    apply (StronglySorted_weaken
             (fun a b => (AnnualData.year a - AnnualData.year b <= 0)%Z)); [intros; lia |].
    apply (by_year_sorted (fun a b => (AnnualData.year a - AnnualData.year b)%Z));
      intros; lia.
  - intros d d' Hd Hd' Hnot. apply Hin in Hd.
    assert (Hdrop : d' ∈ drop 4 recent).
    { apply Hrecent in Hd'. rewrite <- (take_drop 4 recent) in Hd'.
      apply elem_of_app in Hd' as [Hd' | Hd']; [| exact Hd'].
      exfalso. apply Hnot. now apply Hin. }
    assert (Hs : StronglySorted
                   (fun a b => (AnnualData.year b - AnnualData.year a <= 0)%Z)
                   (take 4 recent ++ drop 4 recent)).
    { rewrite take_drop.
      apply (by_year_sorted (fun a b => (AnnualData.year b - AnnualData.year a)%Z));
        intros; lia. }
    pose proof (StronglySorted_app_1_elem_of _ _ _ d d' Hs Hd Hdrop) as H.
    cbv beta in H. lia.
Qed.

(** X19.  the years the trend line is fitted on are at most four records of
    the annual data, none of 2020 or 2021, in ascending order of year; all
    candidates are kept when there are at most four, and a candidate that is
    left out is no more recent than any that is kept. *)
Theorem eligible_years_spec (annualData : list AnnualData.t) :
  let candidates :=
    filter (fun d => AnnualData.year d ≠ 2020%Z ∧ AnnualData.year d ≠ 2021%Z) annualData in
  let eligible := eligibleYears annualData in
  length eligible = Nat.min 4 (length candidates) /\
  (forall d, d ∈ eligible ->
     d ∈ annualData /\ AnnualData.year d <> 2020%Z /\ AnnualData.year d <> 2021%Z) /\
  StronglySorted (fun a b => (AnnualData.year a <= AnnualData.year b)%Z) eligible /\
  (forall d d', d ∈ eligible -> d' ∈ candidates -> d' ∉ eligible ->
     (AnnualData.year d' <= AnnualData.year d)%Z).
Proof. apply eligible_years_shape. Qed.

(** With fewer than two records outside 2020 and 2021 the trend line
    of either metric is the all-zero line. *)
Lemma trend_line_zero_below_two (annualData : list AnnualData.t) (metric : Metric)
    (targetYear : Z) :
  (length (filter (fun d => AnnualData.year d ≠ 2020%Z ∧ AnnualData.year d ≠ 2021%Z)
             annualData) < 2)%nat ->
  computeTrendLine annualData metric targetYear
  = {| slope := 0; intercept := 0; r_squared := 0; projected_value := 0 |}.
Proof.
  intros Hlen. unfold computeTrendLine.
  destruct (eligible_years_shape annualData) as [Hl _]. cbv zeta in Hl.
  destruct (length (eligibleYears annualData) <? 2)%nat eqn:E; [reflexivity |].
  apply Nat.ltb_ge in E. lia.
Qed.

Lemma fold_by_index {A} (G : Q -> Q -> Q) (f h : A -> Q) (l : list A) (a : Q) :
  fold_left (fun acc i => acc + G (at_index (map f l) i) (at_index (map h l) i))
            (seq 0 (length l)) a
  = fold_left (fun acc d => acc + G (f d) (h d)) l a.
Proof.
  revert a. induction l as [| x l IH]; intros a; [reflexivity |].
  cbn [length]. rewrite <- cons_seq, <- seq_shift. cbn [fold_left].
  rewrite fold_left_over_map. exact (IH _).
Qed.

(** The sums of the regression, written over the eligible records. *)
Lemma regression_sums (eligible : list AnnualData.t) (metric : Metric) (targetYear : Z) :
  let x := fun d => inject_Z (AnnualData.year d) in
  let y := fun d => metric_of d metric in
  let xMean := mean (map x eligible) in
  let yMean := mean (map y eligible) in
  let Sxy := fold_left (fun acc d => acc + (x d - xMean) * (y d - yMean)) eligible 0 in
  let Sxx := fold_left (fun acc d => acc + (x d - xMean) ^ 2) eligible 0 in
  let Syy := fold_left (fun acc d => acc + (y d - yMean) ^ 2) eligible 0 in
  let s := if negb (Qeq_bool Sxx 0) then Sxy / Sxx else 0 in
  let residual :=
    fold_left (fun acc d => acc + (y d - (s * x d + (yMean - s * xMean))) ^ 2) eligible 0 in
  regression eligible metric targetYear
  = {| slope := s;
       intercept := yMean - s * xMean;
       r_squared := if negb (Qeq_bool Syy 0) then 1 - residual / Syy else 0;
       projected_value := JS.Math_round (s * inject_Z targetYear + (yMean - s * xMean)) |}.
Proof.
  intros x y xMean yMean Sxy Sxx Syy s residual.
  unfold regression. cbv zeta. rewrite !length_map.
  fold x y. fold xMean yMean.
  pose proof (fold_by_index (fun u v => (u - xMean) * (v - yMean)) x y eligible 0) as H1.
  pose proof (fold_by_index (fun u _ => (u - xMean) ^ 2) x y eligible 0) as H2.
  cbv beta in H1, H2. rewrite H1, H2. fold Sxy Sxx. fold s.
  pose proof (fold_by_index (fun u v => (v - (s * u + (yMean - s * xMean))) ^ 2)
                x y eligible 0) as H3.
  cbv beta in H3. rewrite H3. fold residual.
  rewrite fold_left_over_map. fold Syy. reflexivity.
Qed.

Lemma residual_expand {A} (a b : A -> Q) (s : Q) (l : list A) :
  fold_left (fun acc d => acc + (b d - s * a d) ^ 2) l 0
  == fold_left (fun acc d => acc + b d ^ 2) l 0
     - 2 * s * fold_left (fun acc d => acc + a d * b d) l 0
     + s * s * fold_left (fun acc d => acc + a d ^ 2) l 0.
Proof.
  induction l as [| d l IH]; cbn [fold_left]; [ring |].
  rewrite (fold_plus_shift (fun d => (b d - s * a d) ^ 2)),
    (fold_plus_shift (fun d => b d ^ 2)), (fold_plus_shift (fun d => a d * b d)),
    (fold_plus_shift (fun d => a d ^ 2)), IH.
  ring.
Qed.

Lemma squares_nonneg {A} (g : A -> Q) (l : list A) :
  0 <= fold_left (fun acc d => acc + g d ^ 2) l 0.
Proof.
  apply (fold_plus_nonneg (fun d => g d ^ 2)); [lra |].
  intros d. change (g d ^ 2) with (g d * g d). nra.
Qed.

Lemma regression_r_squared_range (eligible : list AnnualData.t) (metric : Metric)
    (targetYear : Z) :
  0 <= r_squared (regression eligible metric targetYear) /\
  r_squared (regression eligible metric targetYear) <= 1.
Proof.
  rewrite regression_sums. cbv zeta. cbn [r_squared].
  pose (x := fun d => inject_Z (AnnualData.year d)).
  pose (y := fun d => metric_of d metric).
  pose (xMean := mean (map x eligible)). pose (yMean := mean (map y eligible)).
  pose (Sxy := fold_left (fun acc d => acc + (x d - xMean) * (y d - yMean)) eligible 0).
  pose (Sxx := fold_left (fun acc d => acc + (x d - xMean) ^ 2) eligible 0).
  pose (Syy := fold_left (fun acc d => acc + (y d - yMean) ^ 2) eligible 0).
  pose (s := if negb (Qeq_bool Sxx 0) then Sxy / Sxx else 0).
  pose (residual :=
          fold_left (fun acc d => acc + (y d - (s * x d + (yMean - s * xMean))) ^ 2)
            eligible 0).
  change (0 <= (if negb (Qeq_bool Syy 0) then 1 - residual / Syy else 0) /\
          (if negb (Qeq_bool Syy 0) then 1 - residual / Syy else 0) <= 1).
  destruct (Qeq_bool Syy 0) eqn:Ey; cbn [negb]; [split; lra |].
  assert (Hyy : 0 < Syy).
  { pose proof (squares_nonneg (fun d => y d - yMean) eligible) as H.
    change (0 <= Syy) in H.
    destruct (Qeq_dec Syy 0) as [E | E]; [| lra].
    apply Qeq_bool_iff in E. congruence. }
  assert (Hxx : 0 <= Sxx) by apply (squares_nonneg (fun d => x d - xMean) eligible).
  assert (Hres : 0 <= residual)
    by apply (squares_nonneg (fun d => y d - (s * x d + (yMean - s * xMean))) eligible).
  assert (Hexp : residual == Syy - 2 * s * Sxy + s * s * Sxx).
  { unfold residual.
    rewrite (fold_plus_ext
               (fun d => (y d - (s * x d + (yMean - s * xMean))) ^ 2)
               (fun d => ((y d - yMean) - s * (x d - xMean)) ^ 2) eligible 0 0);
      [| reflexivity |].
    - apply (residual_expand (fun d => x d - xMean) (fun d => y d - yMean) s eligible).
    - rewrite Forall_forall. intros d _. ring. }
  assert (Hle : residual <= Syy).
  { rewrite Hexp. unfold s. destruct (Qeq_bool Sxx 0) eqn:Ex; cbn [negb].
    - lra.
    - assert (Hne : ~ Sxx == 0) by (intros E; apply Qeq_bool_iff in E; congruence).
      assert (Hs : Sxy / Sxx * Sxx == Sxy) by (field; exact Hne).
      set (t := Sxy / Sxx) in *.
      assert (Ht : 0 <= t * t * Sxx) by nra.
      assert (Hq : - 2 * t * Sxy + t * t * Sxx == - (t * t * Sxx)).
      { rewrite <- Hs. ring. }
      lra. }
  split.
  - assert (residual / Syy <= 1) by (apply Qle_shift_div_r; lra). lra.
  - assert (0 <= residual / Syy).
    { apply Qle_shift_div_l; [exact Hyy |]. lra. }
    lra.
Qed.

(** X20.  the coefficient of determination of every trend line lies between
    0 and 1, whatever the annual data, the metric and the target year. *)
Theorem trend_r_squared_range (annualData : list AnnualData.t) (metric : Metric)
    (targetYear : Z) :
  0 <= r_squared (computeTrendLine annualData metric targetYear) /\
  r_squared (computeTrendLine annualData metric targetYear) <= 1.
Proof.
  unfold computeTrendLine.
  destruct (length (eligibleYears annualData) <? 2)%nat.
  - cbn [r_squared]. split; lra.
  - apply regression_r_squared_range.
Qed.

(** X21.  when the metric has the same value [c] in every eligible year,
    the trend line is flat: slope 0, coefficient of determination 0 (not 1),
    and with two or more eligible years an intercept of [c] and a projected
    value of [c] rounded, whatever the target year. *)
Theorem trend_constant_metric (annualData : list AnnualData.t) (metric : Metric)
    (targetYear : Z) (c : Q) :
  Forall (fun d => metric_of d metric == c) (eligibleYears annualData) ->
  let t := computeTrendLine annualData metric targetYear in
  slope t == 0 /\ r_squared t = 0 /\
  ((2 <= length (eligibleYears annualData))%nat ->
   intercept t == c /\ projected_value t = JS.Math_round c).
Proof.
  intros Hc t. subst t. unfold computeTrendLine.
  destruct (length (eligibleYears annualData) <? 2)%nat eqn:E.
  { apply Nat.ltb_lt in E. cbn [slope r_squared]. repeat split; try reflexivity; lia. }
  apply Nat.ltb_ge in E.
  set (eligible := eligibleYears annualData) in *.
  rewrite regression_sums. cbv zeta. cbn [slope r_squared intercept projected_value].
  pose (x := fun d => inject_Z (AnnualData.year d)).
  pose (y := fun d => metric_of d metric).
  pose (xMean := mean (map x eligible)). pose (yMean := mean (map y eligible)).
  pose (Sxy := fold_left (fun acc d => acc + (x d - xMean) * (y d - yMean)) eligible 0).
  pose (Sxx := fold_left (fun acc d => acc + (x d - xMean) ^ 2) eligible 0).
  pose (Syy := fold_left (fun acc d => acc + (y d - yMean) ^ 2) eligible 0).
  pose (s := if negb (Qeq_bool Sxx 0) then Sxy / Sxx else 0).
  pose (residual :=
          fold_left (fun acc d => acc + (y d - (s * x d + (yMean - s * xMean))) ^ 2)
            eligible 0).
  change (s == 0 /\
          (if negb (Qeq_bool Syy 0) then 1 - residual / Syy else 0) = 0 /\
          ((2 <= length eligible)%nat ->
           yMean - s * xMean == c /\
           JS.Math_round (s * inject_Z targetYear + (yMean - s * xMean))
           = JS.Math_round c)).
  assert (Hmean : yMean == c).
  { assert (Hne : map y eligible <> []).
    { intros E0. apply (f_equal (@length Q)) in E0. rewrite length_map in E0.
      change (length eligible = 0%nat) in E0. lia. }
    destruct (mean_bounds (map y eligible) c c Hne) as [H1 H2];
      [| change (mean (map y eligible)) with yMean in H1, H2; lra].
    rewrite Forall_forall. intros v Hv. apply list_elem_of_fmap in Hv as (d & -> & Hd).
    rewrite Forall_forall in Hc. specialize (Hc d Hd). unfold y. lra. }
  assert (Hy : forall d, d ∈ eligible -> y d - yMean == 0).
  { intros d Hd. rewrite Forall_forall in Hc. specialize (Hc d Hd). unfold y. lra. }
  assert (Hxy : Sxy == 0).
  { apply fold_plus_zero. rewrite Forall_forall. intros d Hd. rewrite (Hy d Hd). ring. }
  assert (Hyy : Syy == 0).
  { apply (fold_plus_zero (fun d => (y d - yMean) ^ 2)). rewrite Forall_forall.
    intros d Hd. rewrite (Hy d Hd). ring. }
  assert (Hs : s == 0).
  { unfold s. destruct (negb (Qeq_bool Sxx 0)); [| reflexivity].
    unfold Qdiv. rewrite Hxy. ring. }
  split; [exact Hs |]. split.
  { apply Qeq_bool_iff in Hyy. now rewrite Hyy. }
  intros _. split.
  - rewrite Hs, Hmean. ring.
  - apply Math_round_compat. rewrite Hs, Hmean. ring.
Qed.

Lemma trend_constant_metric_witness :
  projected_value (computeTrendLine flat_annual Tournaments 2030) = JS.Math_round 100.
Proof.
  pose proof (trend_constant_metric flat_annual Tournaments 2030 100) as H.
  cbv zeta in H. destruct H as (_ & _ & H).
  - repeat constructor.
  - apply H. vm_compute. lia.
Defined.

End TrendShape.

(** ** More on the calibration route *)

Section CalibrationShape.
Import Calibration.

Lemma ranked_sorted (results : list VersionResult) :
  StronglySorted (fun a b => mae_value a - mae_value b <= 0) (rankedVersions results).
Proof.
  unfold rankedVersions. apply sort_by_sorted.
  - intros x y H. lra.
  - intros x y z H1 H2. lra.
Qed.

Lemma POST_calibrated (authorized : bool) (observations : option (list Observation.t))
    (versions : option (list MethodologyVersion.t))
    (shadowScores : option (list ShadowScore.t)) (results : list VersionResult)
    (recommendation : Recommendation) (count : nat) (written : list Update) :
  POST authorized observations versions shadowScores
  = (Calibrated results recommendation count, written) ->
  authorized = true /\ (3 <= length (default [] observations))%nat /\
  count = length (default [] observations) /\
  results = map (versionResult (default [] observations) (default [] shadowScores))
                (default [] versions) /\
  recommendation = match rankedVersions results with
                   | best :: _ => LowestMAE (version_number best) (mae_value best)
                   | [] => InsufficientShadowScores
                   end /\
  written = updates results.
Proof.
  unfold POST. destruct authorized; cbn [negb]; [| discriminate].
  destruct observations as [obs |]; [| discriminate].
  change (default [] (Some obs)) with obs.
  destruct (length obs <? 3)%nat eqn:E; [discriminate |].
  apply Nat.ltb_ge in E. intros H. injection H as <- <- <- <-.
  split; [reflexivity |]. split; [exact E |]. repeat split; reflexivity.
Qed.

(** X22.  when calibration recommends a version, that version has a result
    with the recommended MAE, and no version with an MAE has a lower one. *)
Theorem recommendation_has_lowest_mae (authorized : bool)
    (observations : option (list Observation.t))
    (versions : option (list MethodologyVersion.t))
    (shadowScores : option (list ShadowScore.t)) (results : list VersionResult)
    (version : Z) (lowest : Q) (count : nat) (written : list Update) :
  POST authorized observations versions shadowScores
  = (Calibrated results (LowestMAE version lowest) count, written) ->
  (exists r, r ∈ results /\ version_number r = version /\ mae r = Some lowest) /\
  (forall r m, r ∈ results -> mae r = Some m -> lowest <= m).
Proof.
  intros H. apply POST_calibrated in H as (_ & _ & _ & _ & Hrec & _).
  pose proof (ranked_sorted results) as Hs.
  pose proof (ranked_elem results) as Hel.
  destruct (rankedVersions results) as [| best rest]; [discriminate |].
  injection Hrec as -> ->.
  destruct (proj1 (Hel best) ltac:(left)) as [Hbest [m0 Hm0]].
  assert (Hv : mae_value best = m0) by (unfold mae_value; now rewrite Hm0).
  split.
  - exists best. rewrite Hv. auto.
  - intros r m Hr Hm.
    assert (Hin : r ∈ best :: rest) by (apply Hel; eauto).
    assert (Hmr : mae_value r = m) by (unfold mae_value; now rewrite Hm).
    apply elem_of_cons in Hin as [-> | Hin].
    + rewrite Hmr. lra.
    + apply StronglySorted_inv in Hs as [_ Hall].
      rewrite Forall_forall in Hall. specialize (Hall r Hin). cbv beta in Hall.
      rewrite Hmr in Hall. lra.
Qed.

Lemma recommendation_has_lowest_mae_witness :
  exists r,
    r ∈ map (versionResult sample_observations sample_scores) sample_versions /\
    version_number r = 1%Z /\ mae r = Some 4.
Proof.
  refine (proj1 (recommendation_has_lowest_mae true (Some sample_observations)
                   (Some sample_versions) (Some sample_scores)
                   (map (versionResult sample_observations sample_scores) sample_versions)
                   1%Z 4 3%nat
                   (updates (map (versionResult sample_observations sample_scores)
                               sample_versions)) _)).
  vm_compute. reflexivity.
Defined.

Lemma matched_is_sublist (versionScores : list ShadowScore.t)
    (observations : list Observation.t) :
  (length (matchedPeriods versionScores observations) <= length observations)%nat.
Proof. unfold matchedPeriods. apply filter_length_le. Qed.

Lemma match_fold_error (versionScores : list ShadowScore.t)
    (observations : list Observation.t) (acc : Q * nat) :
  0 <= fst acc -> 0 <= fst (fold_left (matchStep versionScores) observations acc).
Proof.
  revert acc. induction observations as [| obs l IH]; intros acc Hacc; [exact Hacc |].
  cbn [fold_left]. apply IH. unfold matchStep. cbv zeta.
  destruct (0 <? length (matchingScores versionScores obs))%nat; [| exact Hacc].
  cbn [fst].
  match goal with |- 0 <= _ + Qabs ?e => pose proof (Qabs_nonneg e) end. lra.
Qed.

Lemma count_pos (n : nat) : (0 < n)%nat -> 0 < inject_Z (Z.of_nat n).
Proof. intros H. change 0 with (inject_Z 0). rewrite <- Zlt_Qlt. lia. Qed.

(** X23.  in the result of any version, the number of matched observations
    is at most the number of observations, the number of shadow scores at
    most the number read, and a mean absolute error is never negative. *)
Theorem version_result_bounds (observations : list Observation.t)
    (shadowScores : list ShadowScore.t) (version : MethodologyVersion.t) :
  let r := versionResult observations shadowScores version in
  (observations_matched r <= length observations)%nat /\
  (total_shadow_scores r <= length shadowScores)%nat /\
  (forall m, mae r = Some m -> 0 <= m).
Proof.
  intros r.
  destruct (versionResult_matched observations shadowScores version) as [Hcount _].
  cbv zeta in Hcount. fold r in Hcount.
  split; [rewrite Hcount; apply matched_is_sublist |]. split.
  - subst r. unfold versionResult.
    destruct (fold_left _ observations (0, 0%nat)) as [totalError matchCount].
    cbn [total_shadow_scores]. apply length_filter.
  - subst r. unfold versionResult.
    pose proof (match_fold_error
                  (filter (fun s => ShadowScore.methodology_version s
                                    = MethodologyVersion.version_number version)
                          shadowScores)
                  observations (0, 0%nat) ltac:(cbn; lra)) as Herr.
    destruct (fold_left _ observations (0, 0%nat)) as [totalError matchCount].
    cbn [fst] in Herr. cbn [mae].
    destruct (0 <? matchCount)%nat eqn:E; [| discriminate].
    apply Nat.ltb_lt in E. intros m Hm. injection Hm as <-.
    apply Qle_shift_div_l; [now apply count_pos |]. lra.
Qed.

(** X24.  nothing is written without a calibration: every update of
    [backtest_mae] that the route issues comes from an authorized request
    with at least 3 observations, is for a version of the versions table, and
    carries the MAE of that version's result. *)
Theorem updates_only_for_scored_versions (authorized : bool)
    (observations : option (list Observation.t))
    (versions : option (list MethodologyVersion.t))
    (shadowScores : option (list ShadowScore.t)) (u : Update) :
  u ∈ snd (POST authorized observations versions shadowScores) ->
  authorized = true /\ (3 <= length (default [] observations))%nat /\
  exists version,
    version ∈ default [] versions /\
    for_version u = MethodologyVersion.version_number version /\
    mae (versionResult (default [] observations) (default [] shadowScores) version)
    = Some (backtest_mae u).
Proof.
  unfold POST. destruct authorized; cbn [negb snd]; [| intros H; inversion H].
  destruct observations as [obs |]; [| cbn [snd]; intros H; inversion H].
  change (default [] (Some obs)) with obs.
  destruct (length obs <? 3)%nat eqn:E; [cbn [snd]; intros H; inversion H |].
  apply Nat.ltb_ge in E. cbn [snd]. unfold updates. intros Hu.
  apply list_elem_of_In, in_flat_map in Hu as (r & Hr & Hu).
  apply in_map_iff in Hr as (version & <- & Hv). apply list_elem_of_In in Hv.
  split; [reflexivity |]. split; [exact E |]. exists version. split; [exact Hv |].
  destruct (mae (versionResult obs (default [] shadowScores) version)) as [m |] eqn:Em;
    [| now destruct Hu].
  destruct Hu as [<- | []]. cbn [for_version backtest_mae].
  split; [| reflexivity].
  unfold versionResult.
  destruct (fold_left _ obs (0, 0%nat)) as [totalError matchCount]. reflexivity.
Qed.

Lemma updates_only_for_scored_versions_witness :
  exists version,
    version ∈ sample_versions /\
    1%Z = MethodologyVersion.version_number version /\
    mae (versionResult sample_observations sample_scores version) = Some 4.
Proof.
  refine (proj2 (proj2 (updates_only_for_scored_versions true (Some sample_observations)
                          (Some sample_versions) (Some sample_scores)
                          {| for_version := 1; backtest_mae := 4 |} _))).
  vm_compute. apply list_elem_of_here.
Defined.

End CalibrationShape.

Section CalibrationRange.
Import Calibration.

Lemma average_in_range (scores : list ShadowScore.t) :
  scores <> [] ->
  Forall (fun s => 0 <= ShadowScore.composite_score s /\
                   ShadowScore.composite_score s <= 100) scores ->
  let avgScore :=
    fold_left (fun sum s => sum + ShadowScore.composite_score s) scores 0
    / JS.len scores in
  0 <= avgScore /\ avgScore <= 100.
Proof.
  intros Hne Hall. cbv zeta.
  pose proof (len_pos scores Hne) as Hlen.
  destruct (sum_between (map ShadowScore.composite_score scores) 0 100) as [Hlo Hhi].
  { rewrite Forall_forall in Hall. rewrite Forall_forall. intros v Hv.
    apply list_elem_of_fmap in Hv as (s & -> & Hs). now apply Hall. }
  unfold JS.sum in Hlo, Hhi. rewrite fold_left_over_map in Hlo, Hhi.
  unfold JS.len in Hlo, Hhi. rewrite length_map in Hlo, Hhi.
  fold (JS.len scores) in Hlo, Hhi.
  split.
  - apply Qle_shift_div_l; [exact Hlen | lra].
  - apply Qle_shift_div_r; [exact Hlen | exact Hhi].
Qed.

Lemma match_fold_bound (versionScores : list ShadowScore.t)
    (observations : list Observation.t) (acc : Q * nat) :
  Forall (fun s => 0 <= ShadowScore.composite_score s /\
                   ShadowScore.composite_score s <= 100) versionScores ->
  Forall (fun obs => 0 <= Observation.observed_score obs /\
                     Observation.observed_score obs <= 100) observations ->
  fst acc <= 100 * inject_Z (Z.of_nat (snd acc)) ->
  let final := fold_left (matchStep versionScores) observations acc in
  fst final <= 100 * inject_Z (Z.of_nat (snd final)).
Proof.
  intros Hscores. revert acc.
  induction observations as [| obs l IH]; intros acc Hobs Hacc; [exact Hacc |].
  apply Forall_cons in Hobs as [[Ho0 Ho100] Hobs].
  cbv zeta. cbn [fold_left]. apply (IH _ Hobs). unfold matchStep. cbv zeta.
  destruct (0 <? length (matchingScores versionScores obs))%nat eqn:E; [| exact Hacc].
  apply Nat.ltb_lt in E. cbn [fst snd].
  assert (Hne : matchingScores versionScores obs <> []).
  { intros E0. rewrite E0 in E. cbn in E. lia. }
  assert (Hsub : Forall (fun s => 0 <= ShadowScore.composite_score s /\
                                  ShadowScore.composite_score s <= 100)
                   (matchingScores versionScores obs)).
  { rewrite Forall_forall in Hscores |- *. intros s Hs. apply Hscores.
    unfold matchingScores in Hs. now apply list_elem_of_filter in Hs as [_ Hs]. }
  destruct (average_in_range _ Hne Hsub) as [Ha0 Ha100]. cbv zeta in Ha0, Ha100.
  match goal with
  | |- _ + Qabs ?e <= _ =>
      assert (Habs : Qabs e <= 100) by (apply Qabs_case; intros _; lra)
  end.
  rewrite Nat2Z.inj_succ, <- Z.add_1_r, inject_Z_plus.
  change (inject_Z 1) with 1. lra.
Qed.

(** X25.  when every shadow score and every observed score is a percentage
    (between 0 and 100), so is every mean absolute error. *)
Theorem mae_is_a_percentage (observations : list Observation.t)
    (shadowScores : list ShadowScore.t) (version : MethodologyVersion.t) (m : Q) :
  Forall (fun s => 0 <= ShadowScore.composite_score s /\
                   ShadowScore.composite_score s <= 100) shadowScores ->
  Forall (fun obs => 0 <= Observation.observed_score obs /\
                     Observation.observed_score obs <= 100) observations ->
  mae (versionResult observations shadowScores version) = Some m ->
  0 <= m /\ m <= 100.
Proof.
  intros Hscores Hobs. unfold versionResult.
  set (versionScores :=
         filter (fun s => ShadowScore.methodology_version s
                          = MethodologyVersion.version_number version) shadowScores).
  assert (Hsub : Forall (fun s => 0 <= ShadowScore.composite_score s /\
                                  ShadowScore.composite_score s <= 100) versionScores).
  { rewrite Forall_forall in Hscores |- *. intros s Hs. apply Hscores.
    unfold versionScores in Hs. now apply list_elem_of_filter in Hs as [_ Hs]. }
  pose proof (match_fold_error versionScores observations (0, 0%nat) ltac:(cbn; lra))
    as Herr.
  pose proof (match_fold_bound versionScores observations (0, 0%nat) Hsub Hobs
                ltac:(cbn [fst snd]; change (inject_Z (Z.of_nat 0)) with 0; lra))
    as Hbound.
  cbv zeta in Hbound.
  destruct (fold_left _ observations (0, 0%nat)) as [totalError matchCount].
  cbn [fst snd] in Herr, Hbound. cbn [mae].
  destruct (0 <? matchCount)%nat eqn:E; [| discriminate].
  apply Nat.ltb_lt in E. intros Hm. injection Hm as <-.
  pose proof (count_pos matchCount E) as Hpos.
  split.
  - apply Qle_shift_div_l; [exact Hpos | lra].
  - apply Qle_shift_div_r; [exact Hpos | exact Hbound].
Qed.

Lemma mae_is_a_percentage_witness : 0 <= 4 /\ 4 <= 100.
Proof.
  apply (mae_is_a_percentage sample_observations sample_scores
           {| MethodologyVersion.version_number := 1; MethodologyVersion.description := "v1";
              MethodologyVersion.is_active := true |} 4).
  - repeat constructor; cbn; lra.
  - repeat constructor; cbn; lra.
  - vm_compute. reflexivity.
Defined.

End CalibrationRange.

(** ** The top influencer of a result *)

Section BreakdownFacts.
Import HealthScore Number Breakdown.

Lemma topStep_cases (acc : option string * option Q) (k : string) (v : number) :
  (forall m0, snd acc = Some m0 ->
     exists m1, snd (topStep acc (k, v)) = Some m1 /\ m0 <= m1) /\
  (forall a, v = Fin a ->
     exists m1, snd (topStep acc (k, v)) = Some m1 /\ Qabs a <= m1) /\
  (topStep acc (k, v) = acc \/
   exists a, v = Fin a /\ topStep acc (k, v) = (Some k, Some (Qabs a)) /\
             forall m0, snd acc = Some m0 -> m0 < Qabs a).
Proof.
  unfold topStep. cbn [fst snd]. destruct v as [a |]; cbn [Math_abs lift1].
  - destruct acc as [mk [mv |]]; cbn [snd].
    + destruct (Qle_bool (Qabs a) mv) eqn:E; cbn [negb snd].
      * apply Qle_bool_true in E. split; [| split].
        -- intros m0 H. injection H as <-. exists mv. split; [reflexivity | lra].
        -- intros a' H. injection H as <-. exists mv. auto.
        -- now left.
      * apply Qle_bool_false in E. split; [| split].
        -- intros m0 H. injection H as <-. exists (Qabs a). split; [reflexivity | lra].
        -- intros a' H. injection H as <-. exists (Qabs a). split; [reflexivity | lra].
        -- right. exists a. split; [reflexivity |]. split; [reflexivity |].
           intros m0 H. now injection H as <-.
    + split; [| split].
      * intros m0 H. discriminate.
      * intros a' H. injection H as <-. exists (Qabs a). split; [reflexivity | lra].
      * right. exists a. split; [reflexivity |]. split; [reflexivity |].
        intros m0 H. discriminate.
  - split; [| split].
    + intros m0 H. exists m0. split; [exact H | lra].
    + intros a H. discriminate.
    + now left.
Qed.

Lemma top_fold (l : Obj.t number) (acc : option string * option Q) :
  let res := fold_left topStep l acc in
  (forall m0, snd acc = Some m0 -> exists m, snd res = Some m /\ m0 <= m) /\
  (forall k v, (k, Fin v) ∈ l -> exists m, snd res = Some m /\ Qabs v <= m) /\
  (res = acc \/
   exists pre k v post,
     l = pre ++ (k, Fin v) :: post /\ res = (Some k, Some (Qabs v)) /\
     (forall k' v', (k', Fin v') ∈ pre -> Qabs v' < Qabs v) /\
     (forall m0, snd acc = Some m0 -> m0 < Qabs v)).
Proof.
  revert acc. induction l as [| [k0 v0] l IH]; intros acc; cbv zeta; cbn [fold_left].
  - split; [| split].
    + intros m0 H. exists m0. split; [exact H | lra].
    + intros k v H. now apply elem_of_nil in H.
    + now left.
  - destruct (IH (topStep acc (k0, v0))) as (Hmono & Hdom & Hprov).
    destruct (topStep_cases acc k0 v0) as (S1 & S2 & S3).
    split; [| split].
    + intros m0 H. destruct (S1 m0 H) as (m1 & H1 & Hle).
      destruct (Hmono m1 H1) as (m & Hm & Hle'). exists m. split; [exact Hm | lra].
    + intros k v Hin. apply elem_of_cons in Hin as [Heq | Hin]; [| exact (Hdom k v Hin)].
      injection Heq as -> <-.
      destruct (S2 v eq_refl) as (m1 & H1 & Hle).
      destruct (Hmono m1 H1) as (m & Hm & Hle'). exists m. split; [exact Hm | lra].
    + destruct Hprov as [Hsame | (pre & k & v & post & Hl & Hres & Hpre & Hacc)].
      * destruct S3 as [Hstep | (a & Hv & Hstep & Hlt)].
        -- left. now rewrite Hsame.
        -- right. exists [], k0, a, l. subst v0. rewrite Hsame, Hstep.
           split; [reflexivity |]. split; [reflexivity |]. split; [| exact Hlt].
           intros k' v' H. now apply elem_of_nil in H.
      * right. exists ((k0, v0) :: pre), k, v, post.
        split; [now rewrite Hl |]. split; [exact Hres |]. split.
        -- intros k' v' Hin.
           apply elem_of_cons in Hin as [Heq | Hin]; [| exact (Hpre k' v' Hin)].
           injection Heq as -> <-.
           destruct (S2 v' eq_refl) as (m1 & H1 & Hle).
           specialize (Hacc m1 H1). lra.
        -- intros m0 H. destruct (S1 m0 H) as (m1 & H1 & Hle).
           specialize (Hacc m1 H1). lra.
Qed.

(** The top key of an object with at least one entry and no [NaN] value:
    the first entry whose absolute value is the largest. *)
Lemma top_of_finite (l : Obj.t number) :
  l <> [] -> Forall (fun v => v <> NaN) (Obj.values l) ->
  exists pre k v post,
    l = pre ++ (k, Fin v) :: post /\ topSensitivityKey l = Some k /\
    (forall k' v', (k', Fin v') ∈ pre -> Qabs v' < Qabs v) /\
    (forall k' v', (k', Fin v') ∈ post -> Qabs v' <= Qabs v).
Proof.
  intros Hne Hfin. unfold topSensitivityKey.
  destruct (top_fold l (None, None)) as (_ & Hdom & Hprov). cbv zeta in Hdom, Hprov.
  destruct Hprov as [Hsame | (pre & k & v & post & Hl & Hres & Hpre & _)].
  - exfalso. destruct l as [| [k0 v0] l]; [contradiction |].
    cbn in Hfin. apply Forall_cons in Hfin as [Hv0 _].
    destruct v0 as [a |]; [| contradiction].
    destruct (Hdom k0 a ltac:(left)) as (m & Hm & _).
    rewrite Hsame in Hm. discriminate.
  - exists pre, k, v, post. rewrite Hres. cbn [fst].
    split; [exact Hl |]. split; [reflexivity |]. split; [exact Hpre |].
    intros k' v' Hin.
    destruct (Hdom k' v') as (m & Hm & Hle).
    { rewrite Hl. apply elem_of_app. right. now right. }
    rewrite Hres in Hm. cbn [snd] in Hm. injection Hm as <-. exact Hle.
Qed.


End BreakdownFacts.

(** ** The add-observation route *)

Section ObservationRouteFacts.
Import Number ObservationRoute.

Variable StringToNumber : string -> number.

Lemma includes_valid (v : Json) :
  includes validBands v = true -> exists band, band ∈ validBands /\ v = JString band.
Proof.
  destruct v as [| | b | n | s | n]; cbn [includes]; try discriminate.
  intros H. apply existsb_exists in H as (band & Hin & Heq).
  apply String.eqb_eq in Heq as <-. apply list_elem_of_In in Hin. eauto.
Qed.

Lemma POST_inserts (authorized : bool) (body : Body) (insertError : option string)
    (row : Row) :
  snd (POST StringToNumber authorized body insertError) = Some row ->
  authorized = true /\
  truthy (period_start body) = true /\ truthy (period_end body) = true /\
  observed_score body <> JUndefined /\
  includes validBands (observed_health body) = true /\
  ToNumber StringToNumber (observed_score body) = Fin (row_observed_score row) /\
  0 <= row_observed_score row /\ row_observed_score row <= 100 /\
  row = {| row_period_start := period_start body;
           row_period_end := period_end body;
           row_observed_health := observed_health body;
           row_observed_score := row_observed_score row;
           row_notes := or_null (notes body);
           row_evidence := or_null (evidence body) |} /\
  fst (POST StringToNumber authorized body insertError)
  = match insertError with
    | Some message => InsertFailed message
    | None => Created row
    end.
Proof.
  unfold POST. destruct authorized; cbn [negb]; [| discriminate].
  destruct (truthy (period_start body)) eqn:Es; cbn [negb orb]; [| discriminate].
  destruct (truthy (period_end body)) eqn:Ee; cbn [negb orb]; [| discriminate].
  destruct (truthy (observed_health body)) eqn:Eh; cbn [negb orb]; [| discriminate].
  destruct (match observed_score body with JUndefined => true | _ => false end) eqn:Eu;
    [discriminate |].
  destruct (includes validBands (observed_health body)) eqn:Eb; cbn [negb];
    [| discriminate].
  destruct (ToNumber StringToNumber (observed_score body)) as [score |] eqn:En;
    [| discriminate].
  destruct (Qle_bool 0 score) eqn:E0; cbn [negb orb]; [| discriminate].
  destruct (Qle_bool score 100) eqn:E100; cbn [negb]; [| discriminate].
  apply Qle_bool_true in E0, E100.
  assert (Hu : observed_score body <> JUndefined).
  { intros E. rewrite E in Eu. discriminate. }
  destruct insertError as [message |]; cbn [fst snd]; intros H; injection H as <-;
    cbn [row_observed_score]; repeat split; auto.
Qed.

(** X27.  whatever the body, a row is handed to the database only for an
    authorized request, and then its band is one of the five band names, its
    score is the number the body's score converts to and lies between 0 and
    100, both period fields are truthy, and notes and evidence are never
    [undefined]; the answer is 201 when the database accepts the row and 500
    when it does not. *)
Theorem inserted_observation_is_valid (authorized : bool) (body : Body)
    (insertError : option string) (row : Row) :
  snd (POST StringToNumber authorized body insertError) = Some row ->
  authorized = true /\
  (exists band, band ∈ validBands /\ row_observed_health row = JString band) /\
  ToNumber StringToNumber (observed_score body) = Fin (row_observed_score row) /\
  0 <= row_observed_score row /\ row_observed_score row <= 100 /\
  truthy (row_period_start row) = true /\ truthy (row_period_end row) = true /\
  row_notes row <> JUndefined /\ row_evidence row <> JUndefined /\
  status (fst (POST StringToNumber authorized body insertError))
  = match insertError with Some _ => 500%Z | None => 201%Z end.
Proof.
  intros H.
  apply POST_inserts in H as (Ha & Hs & He & _ & Hb & Hn & H0 & H100 & Hrow & Hres).
  rewrite Hres, Hrow.
  cbn [row_period_start row_period_end row_observed_health row_observed_score
       row_notes row_evidence].
  split; [exact Ha |]. split; [now apply includes_valid |].
  split; [exact Hn |]. split; [exact H0 |]. split; [exact H100 |].
  split; [exact Hs |]. split; [exact He |].
  split; [destruct (notes body); discriminate |].
  split; [destruct (evidence body); discriminate |].
  destruct insertError; reflexivity.
Qed.

(** Nothing is inserted exactly when the answer is 401 or 400: every
    answer of the handler other than 201 and 500 comes without an insert. *)
Lemma rejected_observation_is_not_inserted (authorized : bool) (body : Body)
    (insertError : option string) :
  let response := fst (POST StringToNumber authorized body insertError) in
  snd (POST StringToNumber authorized body insertError) = None <->
  status response = 401%Z \/ status response = 400%Z.
Proof.
  cbv zeta. unfold POST. destruct authorized; cbn [negb]; [| cbn; tauto].
  destruct (_ || _ || _ || _); [cbn; tauto |].
  destruct (negb (includes validBands (observed_health body))); [cbn; tauto |].
  destruct (ToNumber StringToNumber (observed_score body)) as [score |]; [| cbn; tauto].
  destruct (_ || _); [cbn; tauto |].
  destruct insertError; cbn; split; try discriminate; intros [H | H]; discriminate.
Qed.

(** X28.  the required-field check only catches an absent score: with an
    authorized request, truthy periods and a valid band, a [null] score is
    accepted and stored as 0, and so is the number 0, while a body without
    the field is answered with the missing-fields error. *)
Theorem null_score_is_stored_as_zero (body : Body) (insertError : option string) :
  truthy (period_start body) = true -> truthy (period_end body) = true ->
  includes validBands (observed_health body) = true ->
  (observed_score body = JNull \/ observed_score body = JNumber 0 ->
   exists row,
     snd (POST StringToNumber true body insertError) = Some row /\
     row_observed_score row = 0) /\
  (observed_score body = JUndefined ->
   POST StringToNumber true body insertError = (MissingRequiredFields, None)).
Proof.
  intros Hs He Hb.
  assert (Hh : truthy (observed_health body) = true).
  { destruct (includes_valid _ Hb) as (band & Hin & ->). cbn.
    unfold validBands in Hin.
    repeat (apply elem_of_cons in Hin as [-> | Hin]); try reflexivity.
    now apply elem_of_nil in Hin. }
  unfold POST. cbn [negb]. rewrite Hs, He, Hh, Hb. cbn [negb orb].
  split.
  - intros [-> | ->]; cbn; destruct insertError; eexists; split; reflexivity.
  - intros ->. reflexivity.
Qed.

End ObservationRouteFacts.

Section ObservationRouteWitnesses.
Import Number ObservationRoute.

Lemma inserted_observation_is_valid_witness :
  0 <= 72 /\ 72 <= 100.
Proof.
  pose proof (inserted_observation_is_valid no_numeric_strings true sample_body None
                {| row_period_start := JString "2024-01-01";
                   row_period_end := JString "2024-06-30";
                   row_observed_health := JString "healthy";
                   row_observed_score := 72;
                   row_notes := JNull; row_evidence := JNull |} eq_refl)
    as (_ & _ & _ & H0 & H100 & _).
  split; [exact H0 | exact H100].
Defined.

Lemma null_score_is_stored_as_zero_witness :
  exists row,
    snd (POST no_numeric_strings true null_score_body None) = Some row /\
    row_observed_score row = 0.
Proof.
  apply (null_score_is_stored_as_zero no_numeric_strings null_score_body None
           eq_refl eq_refl eq_refl).
  left. reflexivity.
Defined.

End ObservationRouteWitnesses.

(** ** The forecaster *)

Section ForecasterFacts.
Import Forecast.

Variable Math_sqrt : Q -> Q.

Lemma length_zero_iff {A} (l : list A) : (length l =? 0)%nat = true <-> l = [].
Proof.
  destruct l; cbn; split; intros H; try reflexivity; discriminate.
Qed.

Lemma contributing_needs_annual_data (monthlyData : list MonthlyData.t)
    (referenceYears : list Z) :
  contributing [] monthlyData referenceYears = [].
Proof.
  assert (H : forall y, contributing_point [] monthlyData y = None).
  { intros y. unfold contributing_point.
    rewrite (proj2 (buildAnnualLookup_None [] y)) by apply not_elem_of_nil.
    reflexivity. }
  unfold contributing. induction referenceYears as [| y l IH]; [reflexivity |].
  cbn [omap list_omap]. rewrite H. exact IH.
Qed.

(** X29.  early in the year, with annual data but fewer than two monthly
    rows of the target year, the forecaster still upserts a row: its two
    projections and eight bounds are 0 and its month count is the number of
    those rows, yet it carries both trend lines. *)
Theorem forecaster_early_in_year (today : string) (targetYear : Z)
    (annualRows : option (list AnnualData.t)) (monthlyRows : option (list MonthlyData.t))
    (overallYtdEntries : option Q) (upsertError : bool) :
  default [] annualRows <> [] ->
  (length (Forecaster.targetYearMonths (default [] monthlyRows) targetYear) < 2)%nat ->
  exists row,
    fst (Forecaster.runForecaster Math_sqrt today targetYear annualRows monthlyRows
           overallYtdEntries upsertError) = Some row /\
    Forall (fun count => count = 0)
      [Forecaster.projected_tournaments row; Forecaster.projected_entries row;
       Forecaster.ci_68_low_tournaments row; Forecaster.ci_68_high_tournaments row;
       Forecaster.ci_95_low_tournaments row; Forecaster.ci_95_high_tournaments row;
       Forecaster.ci_68_low_entries row; Forecaster.ci_68_high_entries row;
       Forecaster.ci_95_low_entries row; Forecaster.ci_95_high_entries row] /\
    Forecaster.months_of_data row
    = Z.of_nat (length (Forecaster.targetYearMonths (default [] monthlyRows) targetYear)) /\
    Forecaster.trend_reference row
    = {| Forecaster.tournaments :=
           computeTrendLine (default [] annualRows) Tournaments targetYear;
         Forecaster.entries :=
           computeTrendLine (default [] annualRows) Entries targetYear |}.
Proof.
  intros Hne Hlen. unfold Forecaster.runForecaster. cbv zeta.
  destruct (length (default [] annualRows) =? 0)%nat eqn:E.
  { apply length_zero_iff in E. contradiction. }
  rewrite computeForecast_early by lia.
  eexists. split; [reflexivity |].
  cbn. split; [| split; reflexivity].
  repeat constructor.
Qed.

(** X30.  at year end, with twelve monthly rows of the target year, at
    least one contributing reference year, and in every contributing
    reference year monthly counts that add up to the annual total and
    positive entries, the forecaster upserts the year's own totals: the
    projected tournaments are the sum of the twelve rows, rounded, and the
    projected entries the year-to-date entries, rounded. *)
Theorem forecaster_year_end (today : string) (targetYear : Z)
    (annualRows : option (list AnnualData.t)) (monthlyRows : option (list MonthlyData.t))
    (overallYtdEntries : option Q) (upsertError : bool) :
  let annualData := default [] annualRows in
  let monthlyData := default [] monthlyRows in
  let points := contributing annualData monthlyData Forecaster.REFERENCE_YEARS in
  length (Forecaster.targetYearMonths monthlyData targetYear) = 12%nat ->
  points <> [] ->
  (forall annual slots, (annual, slots) ∈ points ->
     JS.sum slots == AnnualData.tournaments annual /\ 0 < AnnualData.entries annual) ->
  exists row,
    fst (Forecaster.runForecaster Math_sqrt today targetYear annualRows monthlyRows
           overallYtdEntries upsertError) = Some row /\
    Forecaster.months_of_data row = 12%Z /\
    Forecaster.projected_tournaments row
    = JS.Math_round
        (JS.sum (map MonthlyData.event_count
                     (Forecaster.targetYearMonths monthlyData targetYear))) /\
    Forecaster.projected_entries row
    = JS.Math_round (Forecaster.ytdEntriesOf annualData targetYear overallYtdEntries).
Proof.
  intros annualData monthlyData points Hlen Hne Hyear.
  unfold Forecaster.runForecaster. cbv zeta. fold annualData monthlyData.
  destruct (length annualData =? 0)%nat eqn:E.
  { apply length_zero_iff in E. exfalso. apply Hne. unfold points. rewrite E.
    apply contributing_needs_annual_data. }
  rewrite Hlen. change (Z.of_nat 12) with 12%Z.
  eexists. split; [reflexivity |].
  cbn [Forecaster.months_of_data Forecaster.projected_tournaments
       Forecaster.projected_entries].
  pose proof (full_year_projects_totals Math_sqrt annualData monthlyData
                (Some Forecaster.REFERENCE_YEARS)
                (fold_left (fun sum m => sum + MonthlyData.event_count m)
                   (Forecaster.targetYearMonths monthlyData targetYear) 0)
                (Forecaster.ytdEntriesOf annualData targetYear overallYtdEntries)
                annualData monthlyData targetYear Hne Hyear) as [HT HE].
  split; [| split].
  - unfold computeForecast. change (12 <? 2)%Z with false. cbv zeta.
    destruct (_ || _); [reflexivity |].
    destruct (confidenceBounds _ _ _ _) as [[[? ?] ?] ?].
    destruct (confidenceBounds _ _ _ _) as [[[? ?] ?] ?]. reflexivity.
  - rewrite HT. unfold JS.sum. now rewrite fold_left_over_map.
  - exact HE.
Qed.

End ForecasterFacts.

Section ForecasterWitnesses.
Import Forecast.

Lemma forecaster_early_in_year_witness :
  exists row,
    fst (Forecaster.runForecaster sqrt_floor "2025-01-15" 2025 (Some sample_annual)
           (Some sample_monthly) None false) = Some row /\
    Forecaster.trend_reference row
    = {| Forecaster.tournaments := computeTrendLine sample_annual Tournaments 2025;
         Forecaster.entries := computeTrendLine sample_annual Entries 2025 |}.
Proof.
  destruct (forecaster_early_in_year sqrt_floor "2025-01-15" 2025 (Some sample_annual)
              (Some sample_monthly) None false) as (row & Hrow & _ & _ & Htrend).
  - discriminate.
  - vm_compute. lia.
  - exists row. split; [exact Hrow | exact Htrend].
Defined.

Lemma year_end_points :
  contributing full_year_annual Forecaster.year_end_monthly Forecaster.REFERENCE_YEARS
  = [({| AnnualData.year := 2022; AnnualData.tournaments := 120;
         AnnualData.entries := 600 |},
      [10; 10; 10; 10; 10; 10; 10; 10; 10; 10; 10; 10])].
Proof. vm_compute. reflexivity. Qed.

Lemma forecaster_year_end_witness :
  exists row,
    fst (Forecaster.runForecaster sqrt_floor "2026-12-31" 2026 (Some full_year_annual)
           (Some Forecaster.year_end_monthly) (Some 900) false) = Some row /\
    Forecaster.months_of_data row = 12%Z.
Proof.
  destruct (forecaster_year_end sqrt_floor "2026-12-31" 2026 (Some full_year_annual)
              (Some Forecaster.year_end_monthly) (Some 900) false)
    as (row & Hrow & Hmonths & _).
  - vm_compute. reflexivity.
  - change (default [] (Some full_year_annual)) with full_year_annual.
    change (default [] (Some Forecaster.year_end_monthly))
      with Forecaster.year_end_monthly.
    rewrite year_end_points. discriminate.
  - change (default [] (Some full_year_annual)) with full_year_annual.
    change (default [] (Some Forecaster.year_end_monthly))
      with Forecaster.year_end_monthly.
    intros annual slots Hin. rewrite year_end_points in Hin.
    apply list_elem_of_singleton in Hin. injection Hin as -> ->.
    split; [reflexivity |]. cbn. lra.
  - exists row. split; [exact Hrow | exact Hmonths].
Defined.

End ForecasterWitnesses.
